(** * murmur: presence store, admission protocol and whisper routing

    A shallow embedding of the reactive store ([src/state.js]) and of the
    room module (the latest generation of the trystero-based network
    module, with [makePeer], [resolveKnock] and [creatorId], together with
    the whisper and push-to-talk handlers of [src/ui.js] that call into
    it), followed by the properties of the room-membership protocol stated
    against them.

    The store is modelled once in full generality ([Store]): fields by
    name, values with [===], the [set] trap, [notify], [batch] and the
    calls made to subscribers.  The room module ([Net]) is modelled over a
    record that has one field per store field it uses and one per module
    variable; an assignment [state.f = v] is an update of the field [f],
    since the trap always leaves [v] in the field and the subscribers (the
    renderer) write nothing back.  Transport, timers and the microphone
    are explicit: what is sent is appended to a log, [setTimeout] and
    [clearTimeout] act on a timer table, and the result of awaiting the
    microphone is an argument of [createRoom] and [joinRoom].

    The audio module ([Audio], the first part of [src/unnamed/part_001])
    is modelled on its own: the objects the browser hands out are handles,
    the calls made on them a log.  [Await] takes [createRoom] and
    [joinRoom] apart at their [await]: a call stops there, other events are
    handled, and the call resumes when the promise of [initAudio] settles;
    the loop of [Net] is the special case in which every wait settles at
    once.  [Page] holds the handlers of [src/app.js] and [src/ui.js]
    around the room module: room links and hash changes, the name edit,
    the space bar and the room colour. *)

From Stdlib Require Import ZArith Ascii.
From stdpp Require Import gmap strings list pretty.

Set Default Proof Using "Type".
Set Warnings "-clear-no-such-hyp".
Open Scope string_scope.
Open Scope list_scope.

(* ================================================================== *)
(** * The presence store ([state.js]) *)
(* ================================================================== *)

Module Store.

(** The values a store field can hold.  Arrays and objects are compared by
    identity under [===], so they appear as references. *)
Inductive value : Type :=
  | VUndefined
  | VNull
  | VBool (b : bool)
  | VNum (z : Z)
  | VStr (s : string)
  | VRef (addr : nat).

#[global] Instance value_eq_dec : EqDecision value.
Proof. solve_decision. Defined.

(** [old === value].  The numbers are integers: no field of the store is
    ever given [NaN], the one value that is not [===] to itself. *)
Definition strict_eq (a b : value) : bool := bool_decide (a = b).

(** One entry of [pendingChanges], and one argument triple given to a
    subscriber: [{ prop, value, oldValue }]. *)
Record change : Type := mkChange {
  c_prop : string;
  c_value : value;
  c_oldValue : value;
}.

#[global] Instance change_eq_dec : EqDecision change.
Proof. solve_decision. Defined.

(** A call [fn(prop, value, oldValue)] of the subscriber [fn]. *)
Definition call : Type := (nat * change)%type.

(** The module state of [state.js]: the proxied [target] object, the
    [subscribers] set (in insertion order), [batching] and
    [pendingChanges]. *)
Record store : Type := mkStore {
  target : gmap string value;
  subscribers : list nat;
  batching : bool;
  pendingChanges : list change;
}.

Definition with_target (t : gmap string value) (s : store) : store :=
  mkStore t (subscribers s) (batching s) (pendingChanges s).
Definition with_batching (b : bool) (s : store) : store :=
  mkStore (target s) (subscribers s) b (pendingChanges s).
Definition with_pending (p : list change) (s : store) : store :=
  mkStore (target s) (subscribers s) (batching s) p.
Definition with_subscribers (l : list nat) (s : store) : store :=
  mkStore (target s) l (batching s) (pendingChanges s).

(** [target[prop]]: a missing property reads as [undefined]. *)
Definition read (t : gmap string value) (p : string) : value :=
  default VUndefined (t !! p).

Definition get (s : store) (p : string) : value := read (target s) p.

(** [for (const fn of subscribers) fn(prop, value, oldValue)] *)
Definition fire (subs : list nat) (c : change) : list call :=
  map (fun fn => (fn, c)) subs.

(** [notify(prop, value, oldValue)] *)
Definition notify (p : string) (v old : value) (s : store) : store * list call :=
  if batching s
  then (with_pending (pendingChanges s ++ [mkChange p v old]) s, [])
  else (s, fire (subscribers s) (mkChange p v old)).

(** The [set] trap of the proxy: [state[prop] = value]. *)
Definition set (p : string) (v : value) (s : store) : store * list call :=
  let old := get s p in
  if strict_eq old v then (s, [])
  else notify p v old (with_target (<[p := v]> (target s)) s).

(** [subscribe(fn)]: [subscribers.add(fn)]. *)
Definition subscribe (fn : nat) (s : store) : store :=
  if bool_decide (fn ∈ subscribers s) then s
  else with_subscribers (subscribers s ++ [fn]) s.

(** The body [fn] of a batch, as the assignments it performs, in order. *)
Abbreviation writes := (list (string * value)).

Fixpoint assign_all (ws : writes) (s : store) : store * list call :=
  match ws with
  | [] => (s, [])
  | (p, v) :: ws' =>
      let '(s1, c1) := set p v s in
      let '(s2, c2) := assign_all ws' s1 in
      (s2, c1 ++ c2)
  end.

(** The coalescing [Map] of [batch], in insertion order.
    [map.has(p)] and [map.get(p).value = v]. *)
Definition map_has (m : list change) (p : string) : bool :=
  existsb (fun e => bool_decide (c_prop e = p)) m.

Fixpoint map_put_value (m : list change) (p : string) (v : value) : list change :=
  match m with
  | [] => []
  | e :: m' =>
      if bool_decide (c_prop e = p)
      then mkChange (c_prop e) v (c_oldValue e) :: m'
      else e :: map_put_value m' p v
  end.

(** One round of
    [if (map.has(c.prop)) map.get(c.prop).value = c.value;
     else map.set(c.prop, { prop, oldValue, value })]. *)
Definition coalesce_step (m : list change) (c : change) : list change :=
  if map_has m (c_prop c)
  then map_put_value m (c_prop c) (c_value c)
  else m ++ [mkChange (c_prop c) (c_value c) (c_oldValue c)].

Definition coalesce (changes : list change) : list change :=
  fold_left coalesce_step changes [].

(** [for (... of map.values()) for (const sub of subscribers) sub(...)] *)
Definition deliver (subs : list nat) (m : list change) : list call :=
  concat (map (fire subs) m).

(** [batch(fn)] *)
Definition batch (fn : writes) (s : store) : store * list call :=
  let s1 := with_batching true s in
  let '(s2, c1) := assign_all fn s1 in
  let s3 := with_batching false s2 in
  let changes := pendingChanges s3 in
  let s4 := with_pending [] s3 in
  (s4, c1 ++ deliver (subscribers s4) (coalesce changes)).

(** The older generation of the store kept the last pending change of a
    field as it was: [for (const c of changes) map.set(c.prop, c)]. *)
Fixpoint map_replace (m : list change) (c : change) : list change :=
  match m with
  | [] => [c]
  | e :: m' =>
      if bool_decide (c_prop e = c_prop c) then c :: m'
      else e :: map_replace m' c
  end.

Definition coalesce_old (changes : list change) : list change :=
  fold_left map_replace changes [].

Definition batch_old (fn : writes) (s : store) : store * list call :=
  let s1 := with_batching true s in
  let '(s2, c1) := assign_all fn s1 in
  let s3 := with_batching false s2 in
  let changes := pendingChanges s3 in
  let s4 := with_pending [] s3 in
  (s4, c1 ++ deliver (subscribers s4) (coalesce_old changes)).

(** ** Observations used in the statements *)

(** What one subscriber was called with, in call order. *)
Definition received (fn : nat) (cs : list call) : list change :=
  map snd (filter (fun c => fst c = fn) cs).

(** The assignments of a batch body to one field. *)
Definition assigned_to (p : string) (ws : writes) : list value :=
  map snd (filter (fun w => fst w = p) ws).

(** Keep the first occurrence of every field name. *)
Fixpoint first_occurrences (seen ps : list string) : list string :=
  match ps with
  | [] => []
  | p :: ps' =>
      if bool_decide (p ∈ seen) then first_occurrences seen ps'
      else p :: first_occurrences (p :: seen) ps'
  end.

(** The fields of a batch body in the order they are first assigned. *)
Definition first_assigned (ws : writes) : list string :=
  first_occurrences [] (map fst ws).

(** The assignments that pass the [old === value] test of the trap, when
    the body runs from the field contents [t]. *)
Fixpoint effective (t : gmap string value) (ws : writes) : writes :=
  match ws with
  | [] => []
  | (p, v) :: ws' =>
      if strict_eq (read t p) v then effective t ws'
      else (p, v) :: effective (<[p := v]> t) ws'
  end.

(** The field contents after the body ran, and the entries it left in
    [pendingChanges] (used to describe [assign_all] in closed form). *)
Fixpoint target_after (t : gmap string value) (ws : writes) : gmap string value :=
  match ws with
  | [] => t
  | (p, v) :: ws' =>
      if strict_eq (read t p) v then target_after t ws'
      else target_after (<[p := v]> t) ws'
  end.

Fixpoint recorded (t : gmap string value) (ws : writes) : list change :=
  match ws with
  | [] => []
  | (p, v) :: ws' =>
      if strict_eq (read t p) v then recorded t ws'
      else mkChange p v (read t p) :: recorded (<[p := v]> t) ws'
  end.

(** The fields of a batch body in the order they are first changed. *)
Definition first_changed (s : store) (ws : writes) : list string :=
  first_occurrences [] (map fst (effective (target s) ws)).

(** ** Unsubscribing, and batches inside batches *)

(** The function [subscribe] returns: [() => subscribers.delete(fn)]. *)
Definition unsubscribe (fn : nat) (s : store) : store :=
  with_subscribers (filter (fun g => g ≠ fn) (subscribers s)) s.

(** A batch body that may call [batch] itself. *)
#[warnings="-register-all"]
Inductive stmt : Type :=
  | Assign (p : string) (v : value)
  | Batch (body : list stmt).

(** Running a statement; [Batch body] is [batch(() => { body })]. *)
Fixpoint exec (c : stmt) (s : store) : store * list call :=
  match c with
  | Assign p v => set p v s
  | Batch body =>
      let s1 := with_batching true s in
      let '(s2, c1) :=
        (fix exec_all (body : list stmt) (s : store) : store * list call :=
           match body with
           | [] => (s, [])
           | c :: body' =>
               let '(s1, c1) := exec c s in
               let '(s2, c2) := exec_all body' s1 in
               (s2, c1 ++ c2)
           end) body s1 in
      let s3 := with_batching false s2 in
      let changes := pendingChanges s3 in
      let s4 := with_pending [] s3 in
      (s4, c1 ++ deliver (subscribers s4) (coalesce changes))
  end.

Fixpoint exec_all (body : list stmt) (s : store) : store * list call :=
  match body with
  | [] => (s, [])
  | c :: body' =>
      let '(s1, c1) := exec c s in
      let '(s2, c2) := exec_all body' s1 in
      (s2, c1 ++ c2)
  end.

(** The assignments of a body without inner batch. *)
Definition flat (ws : writes) : list stmt := map (fun w => Assign (fst w) (snd w)) ws.

End Store.

(* ================================================================== *)
(** * The room module (trystero network layer) and its callers *)
(* ================================================================== *)

Module Net.

(** [state.view] *)
Inductive View : Type := Loading | Room | Knocking | Rejected.

(** The values of [peerTrackState]: ['real'] and ['silent']. *)
Inductive Track : Type := Real | Silent.

#[global] Instance View_eq_dec : EqDecision View.
Proof. solve_decision. Defined.
#[global] Instance Track_eq_dec : EqDecision Track.
Proof. solve_decision. Defined.

(** A roster entry.  [isWhispering] is absent until a whisper message
    of that peer was merged in by [updatePeer]. *)
Module Peer.
Record t : Type := mk {
  peerId : string;
  username : string;
  isTalking : bool;
  isIdle : bool;
  isWhispering : option bool;
}.
End Peer.

(** An entry of [state.pendingKnocks]. *)
Module Knock.
Record t : Type := mk {
  peerId : string;
  username : string;
}.
End Knock.

#[global] Instance Peer_eq_dec : EqDecision Peer.t.
Proof. solve_decision. Defined.
#[global] Instance Knock_eq_dec : EqDecision Knock.t.
Proof. solve_decision. Defined.

(** The payloads of the [knock] action. *)
Inductive KnockMsg : Type :=
  | MsgRequired
  | MsgMode (enabled : bool) (creator : string)
  | MsgAdmitted
  | MsgReply (targetPeerId : string) (approved : bool).

(** The object literals handed to [updatePeer]. *)
Inductive PeerUpdate : Type :=
  | UpdUsername (name : string)
  | UpdTalking (b : bool)
  | UpdWhispering (b : bool)
  | UpdIdle (b : bool).

(** Calls into the transport, in program order. *)
Inductive Effect : Type :=
  | TrysteroJoin (code : string)
  | RoomLeave
  | SendKnock (msg : KnockMsg) (to : option string)
  | SendUsername (name : string) (to : option string)
  | SendWhisper (isTalking : bool) (to : string)
  | SendTalking (b : bool)
  | SendRename (name : string)
  | SendIdle (b : bool)
  | AddStream (to : string)
  | ReplaceTrack (old new : Track) (to : string).

#[global] Instance KnockMsg_eq_dec : EqDecision KnockMsg.
Proof. solve_decision. Defined.
#[global] Instance Effect_eq_dec : EqDecision Effect.
Proof. solve_decision. Defined.

(** The two callbacks the module hands to [setTimeout]: the self-promotion
    of [joinRoom] and the recovery after a rejection. *)
Inductive TimerCb : Type := AdmitCb | RejectCb.

#[global] Instance TimerCb_eq_dec : EqDecision TimerCb.
Proof. solve_decision. Defined.

(** Everything the room module reads or writes.  The six send functions
    are bound together by [setupRoom] and unbound together by [leaveRoom],
    hence one flag [actions]; [room] holds the code of the joined room;
    [pendingPeerInfo] is a [Map] that [admitSelf] iterates, so it keeps
    its insertion order; timer handles are the positive numbers a browser
    hands out.  [error] and [offline], the wake lock and the DOM play no
    part in what the module decides and are left out. *)
Record State : Type := mkState {
  (* the object behind the proxy of state.js *)
  view : View;
  roomCode : string;
  myPeerId : string;
  username : string;
  peers : list Peer.t;
  isTalking : bool;
  whisperTarget : option string;
  noMic : bool;
  knockEnabled : bool;
  admitted : bool;
  knockWaiting : bool;
  pendingKnocks : list Knock.t;
  isCreator : bool;
  creatorId : option string;
  (* module variables of the room module *)
  room : option string;
  actions : bool;
  peerTrackState : gmap string Track;
  activeWhisperTarget : option string;
  audioEls : gset string;
  pendingPeerInfo : list (string * string);
  admitTimeout : option positive;
  (* module variables of the audio module *)
  localStream : bool;
  audioCtx : bool;
  trackEnabled : bool;
  (* the timer table of the page; what was sent and routed so far *)
  timers : list (positive * (TimerCb * Z));
  nextTimer : positive;
  effects : list Effect;
}.

(** Assignment to one field, the others kept. *)
Definition set_view (v : View) (st : State) : State :=
  let '(mkState _ rc me un ps tk wt nm ke ad kw pk ic ci rm ac ts aw ae pp
       ao ls cx te tm nt ef) := st in
  mkState v rc me un ps tk wt nm ke ad kw pk ic ci rm ac ts aw ae pp ao ls
    cx te tm nt ef.
Definition set_roomCode (v : string) (st : State) : State :=
  let '(mkState vw _ me un ps tk wt nm ke ad kw pk ic ci rm ac ts aw ae pp
       ao ls cx te tm nt ef) := st in
  mkState vw v me un ps tk wt nm ke ad kw pk ic ci rm ac ts aw ae pp ao ls
    cx te tm nt ef.
Definition set_myPeerId (v : string) (st : State) : State :=
  let '(mkState vw rc _ un ps tk wt nm ke ad kw pk ic ci rm ac ts aw ae pp
       ao ls cx te tm nt ef) := st in
  mkState vw rc v un ps tk wt nm ke ad kw pk ic ci rm ac ts aw ae pp ao ls
    cx te tm nt ef.
Definition set_username (v : string) (st : State) : State :=
  let '(mkState vw rc me _ ps tk wt nm ke ad kw pk ic ci rm ac ts aw ae pp
       ao ls cx te tm nt ef) := st in
  mkState vw rc me v ps tk wt nm ke ad kw pk ic ci rm ac ts aw ae pp ao ls
    cx te tm nt ef.
Definition set_peers (v : list Peer.t) (st : State) : State :=
  let '(mkState vw rc me un _ tk wt nm ke ad kw pk ic ci rm ac ts aw ae pp
       ao ls cx te tm nt ef) := st in
  mkState vw rc me un v tk wt nm ke ad kw pk ic ci rm ac ts aw ae pp ao ls
    cx te tm nt ef.
Definition set_isTalking (v : bool) (st : State) : State :=
  let '(mkState vw rc me un ps _ wt nm ke ad kw pk ic ci rm ac ts aw ae pp
       ao ls cx te tm nt ef) := st in
  mkState vw rc me un ps v wt nm ke ad kw pk ic ci rm ac ts aw ae pp ao ls
    cx te tm nt ef.
Definition set_whisperTarget (v : option string) (st : State) : State :=
  let '(mkState vw rc me un ps tk _ nm ke ad kw pk ic ci rm ac ts aw ae pp
       ao ls cx te tm nt ef) := st in
  mkState vw rc me un ps tk v nm ke ad kw pk ic ci rm ac ts aw ae pp ao ls
    cx te tm nt ef.
Definition set_noMic (v : bool) (st : State) : State :=
  let '(mkState vw rc me un ps tk wt _ ke ad kw pk ic ci rm ac ts aw ae pp
       ao ls cx te tm nt ef) := st in
  mkState vw rc me un ps tk wt v ke ad kw pk ic ci rm ac ts aw ae pp ao ls
    cx te tm nt ef.
Definition set_knockEnabled (v : bool) (st : State) : State :=
  let '(mkState vw rc me un ps tk wt nm _ ad kw pk ic ci rm ac ts aw ae pp
       ao ls cx te tm nt ef) := st in
  mkState vw rc me un ps tk wt nm v ad kw pk ic ci rm ac ts aw ae pp ao ls
    cx te tm nt ef.
Definition set_admitted (v : bool) (st : State) : State :=
  let '(mkState vw rc me un ps tk wt nm ke _ kw pk ic ci rm ac ts aw ae pp
       ao ls cx te tm nt ef) := st in
  mkState vw rc me un ps tk wt nm ke v kw pk ic ci rm ac ts aw ae pp ao ls
    cx te tm nt ef.
Definition set_knockWaiting (v : bool) (st : State) : State :=
  let '(mkState vw rc me un ps tk wt nm ke ad _ pk ic ci rm ac ts aw ae pp
       ao ls cx te tm nt ef) := st in
  mkState vw rc me un ps tk wt nm ke ad v pk ic ci rm ac ts aw ae pp ao ls
    cx te tm nt ef.
Definition set_pendingKnocks (v : list Knock.t) (st : State) : State :=
  let '(mkState vw rc me un ps tk wt nm ke ad kw _ ic ci rm ac ts aw ae pp
       ao ls cx te tm nt ef) := st in
  mkState vw rc me un ps tk wt nm ke ad kw v ic ci rm ac ts aw ae pp ao ls
    cx te tm nt ef.
Definition set_isCreator (v : bool) (st : State) : State :=
  let '(mkState vw rc me un ps tk wt nm ke ad kw pk _ ci rm ac ts aw ae pp
       ao ls cx te tm nt ef) := st in
  mkState vw rc me un ps tk wt nm ke ad kw pk v ci rm ac ts aw ae pp ao ls
    cx te tm nt ef.
Definition set_creatorId (v : option string) (st : State) : State :=
  let '(mkState vw rc me un ps tk wt nm ke ad kw pk ic _ rm ac ts aw ae pp
       ao ls cx te tm nt ef) := st in
  mkState vw rc me un ps tk wt nm ke ad kw pk ic v rm ac ts aw ae pp ao ls
    cx te tm nt ef.
Definition set_room (v : option string) (st : State) : State :=
  let '(mkState vw rc me un ps tk wt nm ke ad kw pk ic ci _ ac ts aw ae pp
       ao ls cx te tm nt ef) := st in
  mkState vw rc me un ps tk wt nm ke ad kw pk ic ci v ac ts aw ae pp ao ls
    cx te tm nt ef.
Definition set_actions (v : bool) (st : State) : State :=
  let '(mkState vw rc me un ps tk wt nm ke ad kw pk ic ci rm _ ts aw ae pp
       ao ls cx te tm nt ef) := st in
  mkState vw rc me un ps tk wt nm ke ad kw pk ic ci rm v ts aw ae pp ao ls
    cx te tm nt ef.
Definition set_peerTrackState (v : gmap string Track) (st : State) : State :=
  let '(mkState vw rc me un ps tk wt nm ke ad kw pk ic ci rm ac _ aw ae pp
       ao ls cx te tm nt ef) := st in
  mkState vw rc me un ps tk wt nm ke ad kw pk ic ci rm ac v aw ae pp ao ls
    cx te tm nt ef.
Definition set_activeWhisperTarget (v : option string) (st : State) : State :=
  let '(mkState vw rc me un ps tk wt nm ke ad kw pk ic ci rm ac ts _ ae pp
       ao ls cx te tm nt ef) := st in
  mkState vw rc me un ps tk wt nm ke ad kw pk ic ci rm ac ts v ae pp ao ls
    cx te tm nt ef.
Definition set_audioEls (v : gset string) (st : State) : State :=
  let '(mkState vw rc me un ps tk wt nm ke ad kw pk ic ci rm ac ts aw _ pp
       ao ls cx te tm nt ef) := st in
  mkState vw rc me un ps tk wt nm ke ad kw pk ic ci rm ac ts aw v pp ao ls
    cx te tm nt ef.
Definition set_pendingPeerInfo (v : list (string * string)) (st : State) : State :=
  let '(mkState vw rc me un ps tk wt nm ke ad kw pk ic ci rm ac ts aw ae _
       ao ls cx te tm nt ef) := st in
  mkState vw rc me un ps tk wt nm ke ad kw pk ic ci rm ac ts aw ae v ao ls
    cx te tm nt ef.
Definition set_admitTimeout (v : option positive) (st : State) : State :=
  let '(mkState vw rc me un ps tk wt nm ke ad kw pk ic ci rm ac ts aw ae pp
       _ ls cx te tm nt ef) := st in
  mkState vw rc me un ps tk wt nm ke ad kw pk ic ci rm ac ts aw ae pp v ls
    cx te tm nt ef.
Definition set_localStream (v : bool) (st : State) : State :=
  let '(mkState vw rc me un ps tk wt nm ke ad kw pk ic ci rm ac ts aw ae pp
       ao _ cx te tm nt ef) := st in
  mkState vw rc me un ps tk wt nm ke ad kw pk ic ci rm ac ts aw ae pp ao v
    cx te tm nt ef.
Definition set_audioCtx (v : bool) (st : State) : State :=
  let '(mkState vw rc me un ps tk wt nm ke ad kw pk ic ci rm ac ts aw ae pp
       ao ls _ te tm nt ef) := st in
  mkState vw rc me un ps tk wt nm ke ad kw pk ic ci rm ac ts aw ae pp ao ls
    v te tm nt ef.
Definition set_trackEnabled (v : bool) (st : State) : State :=
  let '(mkState vw rc me un ps tk wt nm ke ad kw pk ic ci rm ac ts aw ae pp
       ao ls cx _ tm nt ef) := st in
  mkState vw rc me un ps tk wt nm ke ad kw pk ic ci rm ac ts aw ae pp ao ls
    cx v tm nt ef.
Definition set_timers (v : list (positive * (TimerCb * Z))) (st : State) : State :=
  let '(mkState vw rc me un ps tk wt nm ke ad kw pk ic ci rm ac ts aw ae pp
       ao ls cx te _ nt ef) := st in
  mkState vw rc me un ps tk wt nm ke ad kw pk ic ci rm ac ts aw ae pp ao ls
    cx te v nt ef.
Definition set_nextTimer (v : positive) (st : State) : State :=
  let '(mkState vw rc me un ps tk wt nm ke ad kw pk ic ci rm ac ts aw ae pp
       ao ls cx te tm _ ef) := st in
  mkState vw rc me un ps tk wt nm ke ad kw pk ic ci rm ac ts aw ae pp ao ls
    cx te tm v ef.
Definition set_effects (v : list Effect) (st : State) : State :=
  let '(mkState vw rc me un ps tk wt nm ke ad kw pk ic ci rm ac ts aw ae pp
       ao ls cx te tm nt _) := st in
  mkState vw rc me un ps tk wt nm ke ad kw pk ic ci rm ac ts aw ae pp ao ls
    cx te tm nt v.

(** ** Strings *)

(** A string in a condition: only [''] is falsy. *)
Definition truthy (s : string) : bool := negb (bool_decide (s = "")).

(** [x || fallback] on a value that may be [null] or [undefined]. *)
Definition or_else (x : option string) (fallback : string) : string :=
  match x with
  | Some s => if truthy s then s else fallback
  | None => fallback
  end.

(** A nullable string in a condition. *)
Definition truthy_opt (x : option string) : bool :=
  match x with Some s => truthy s | None => false end.

(** [toUpperCase] and [trim], on ASCII text (code units below 128), which
    is what a room code is when it reaches [joinRoom]: there [toUpperCase]
    maps [a]-[z] to [A]-[Z], and the white space and line terminators
    [trim] removes are tab, line feed, vertical tab, form feed, carriage
    return and space. *)
Definition upper_ascii (c : ascii) : ascii :=
  let n := nat_of_ascii c in
  if (97 <=? n)%nat && (n <=? 122)%nat then ascii_of_nat (n - 32) else c.

Fixpoint toUpperCase (s : string) : string :=
  match s with
  | EmptyString => EmptyString
  | String c s' => String (upper_ascii c) (toUpperCase s')
  end.

Definition is_space (c : ascii) : bool :=
  let n := nat_of_ascii c in
  (n =? 32)%nat || ((9 <=? n)%nat && (n <=? 13)%nat).

Fixpoint trim_start (s : string) : string :=
  match s with
  | EmptyString => EmptyString
  | String c s' => if is_space c then trim_start s' else s
  end.

Fixpoint trim_end (s : string) : string :=
  match s with
  | EmptyString => EmptyString
  | String c s' =>
      match trim_end s' with
      | EmptyString => if is_space c then EmptyString else String c EmptyString
      | t => String c t
      end
  end.

Definition trim (s : string) : string := trim_end (trim_start s).

(** ** Room codes *)

Definition chars : string := "ABCDEFGHJKLMNPQRSTUVWXYZ23456789".

(** [Math.random()] yields a double in [0, 1): [m / 2^53] for an integer
    [0 <= m < 2^53].  [chars[Math.floor(Math.random() * chars.length)]],
    appended to a string, for the draw [m]. *)
Definition pick (m : Z) : string :=
  match String.get (Z.to_nat (m * Z.of_nat (String.length chars) / 2 ^ 53)) chars with
  | Some c => String c EmptyString
  | None => "undefined"
  end.

(** [genCode()], on the four draws it makes. *)
Definition genCode (draws : Z * Z * Z * Z) : string :=
  let '(m0, m1, m2, m3) := draws in
  String.append (String.append (String.append (String.append "" (pick m0)) (pick m1))
                               (pick m2)) (pick m3).

(** ** Roster helpers *)

Definition ids (ps : list Peer.t) : list string := map Peer.peerId ps.
Definition knock_ids (ks : list Knock.t) : list string := map Knock.peerId ks.

(** [peers.find(p => p.peerId === peerId)] as a condition. *)
Definition has_peer (ps : list Peer.t) (peerId : string) : bool :=
  bool_decide (peerId ∈ ids ps).

(** [pendingKnocks.find(k => k.peerId === peerId)] *)
Definition find_knock (ks : list Knock.t) (peerId : string) : option Knock.t :=
  List.find (fun k => bool_decide (Knock.peerId k = peerId)) ks.

(** [makePeer(peerId, username)] *)
Definition makePeer (peerId : string) (username : option string) : Peer.t :=
  Peer.mk peerId (or_else username peerId) false false None.

(** [{ ...p, ...updates }] *)
Definition merge (p : Peer.t) (u : PeerUpdate) : Peer.t :=
  match u with
  | UpdUsername name =>
      Peer.mk (Peer.peerId p) name (Peer.isTalking p) (Peer.isIdle p) (Peer.isWhispering p)
  | UpdTalking b =>
      Peer.mk (Peer.peerId p) (Peer.username p) b (Peer.isIdle p) (Peer.isWhispering p)
  | UpdWhispering b =>
      Peer.mk (Peer.peerId p) (Peer.username p) (Peer.isTalking p) (Peer.isIdle p) (Some b)
  | UpdIdle b =>
      Peer.mk (Peer.peerId p) (Peer.username p) (Peer.isTalking p) b (Peer.isWhispering p)
  end.

(** The [pendingPeerInfo] map, in insertion order. *)
Definition info_has (m : list (string * string)) (k : string) : bool :=
  bool_decide (k ∈ map fst m).

Fixpoint info_replace (m : list (string * string)) (k v : string) : list (string * string) :=
  match m with
  | [] => []
  | (k', v') :: m' =>
      if bool_decide (k' = k) then (k', v) :: m' else (k', v') :: info_replace m' k v
  end.

Definition info_set (m : list (string * string)) (k v : string) : list (string * string) :=
  if info_has m k then info_replace m k v else m ++ [(k, v)].

Definition info_delete (m : list (string * string)) (k : string) : list (string * string) :=
  filter (fun e => fst e ≠ k) m.

(** ** Small steps shared by the operations *)

Definition emit (e : Effect) (st : State) : State :=
  set_effects (effects st ++ [e]) st.

(** [setTimeout(cb, delay)]: the handle is returned next to the state. *)
Definition setTimeout (cb : TimerCb) (delay : Z) (st : State) : positive * State :=
  let id := nextTimer st in
  (id, set_nextTimer (Pos.succ id) (set_timers (timers st ++ [(id, (cb, delay))]) st)).

Definition clearTimeout (id : positive) (st : State) : State :=
  set_timers (filter (fun e => fst e ≠ id) (timers st)) st.

(** [peerTrackState.get(peerId) || 'real'] *)
Definition routing (st : State) (peerId : string) : Track :=
  default Real (peerTrackState st !! peerId).


(** ** The operations *)

Section Room.

(** The id trystero gave this client ([selfId]). *)
Variable selfId : string.

(** *** The audio module, as far as the room module consults it

    [getStream()] and [getRealTrack()] are non-null exactly when a
    microphone stream is held; [getSilentTrack()] is non-null exactly when
    an audio context exists. *)
Definition getStream (st : State) : bool := localStream st.
Definition getRealTrack (st : State) : bool := localStream st.
Definition getSilentTrack (st : State) : bool := audioCtx st.

(** [try { await initAudio(); } catch { initAudioContext(); state.noMic = true; }]
    where [mic] tells whether [getUserMedia] granted a stream. *)
Definition initAudio (mic : bool) (st : State) : State :=
  if mic
  then set_audioCtx true (set_trackEnabled false (set_localStream true st))
  else set_noMic true (set_audioCtx true st).

Definition destroyAudio (st : State) : State :=
  set_audioCtx false (set_localStream false st).

(** [setTalking(talking)] *)
Definition setTalking (talking : bool) (st : State) : State :=
  if localStream st then set_trackEnabled talking st else st.

(** *** Helpers of the room module *)

Definition updatePeer (peerId : string) (updates : PeerUpdate) (st : State) : State :=
  set_peers
    (map (fun p => if bool_decide (Peer.peerId p = peerId) then merge p updates else p)
         (peers st)) st.

Definition removeKnock (peerId : string) (st : State) : State :=
  set_pendingKnocks (filter (fun k => Knock.peerId k ≠ peerId) (pendingKnocks st)) st.

(** [if (sendKnockMsg) sendKnockMsg(msg, peerId)] *)
Definition sendKnock (msg : KnockMsg) (to : option string) (st : State) : State :=
  if actions st then emit (SendKnock msg to) st else st.

Definition moveKnockToPeers (peerId : string) (st : State) : State :=
  if has_peer (peers st) peerId then st
  else
    let knock := find_knock (pendingKnocks st) peerId in
    set_peers (peers st ++ [makePeer peerId (Knock.username <$> knock)]) st.

(** [if (admitTimeout) { clearTimeout(admitTimeout); admitTimeout = null; }] *)
Definition clearAdmitTimeout (st : State) : State :=
  match admitTimeout st with
  | Some id => set_admitTimeout None (clearTimeout id st)
  | None => st
  end.

Definition admitSelf (st : State) : State :=
  if admitted st then st
  else
    let st := clearAdmitTimeout st in
    let st := set_view Room (set_admitted true st) in
    let st :=
      set_peers
        (makePeer selfId (Some (username st))
         :: map (fun info => makePeer (fst info) (Some (snd info))) (pendingPeerInfo st))
        st in
    let st := set_pendingPeerInfo [] st in
    if getStream st && bool_decide (is_Some (room st))
    then fold_left
           (fun s p => if bool_decide (Peer.peerId p = selfId) then s
                       else emit (AddStream (Peer.peerId p)) s)
           (peers st) st
    else st.

(** [setupRoom(code)]: join, bind the actions, set the own state.  The
    receive handlers it registers are [getUsername] ... [onPeerStream]
    below. *)
Definition setupRoom (code : string) (st : State) : State :=
  let st := emit (TrysteroJoin code) (set_room (Some code) st) in
  let st := set_actions true st in
  let st := set_roomCode code (set_myPeerId selfId st) in
  if admitted st
  then set_peers [makePeer selfId (Some (username st))] (set_view Room st)
  else set_peers [] (set_view Knocking st).

(** *** Receive handlers *)

Definition getUsername (name peerId : string) (st : State) : State :=
  let st := updatePeer peerId (UpdUsername name) st in
  let st :=
    if bool_decide (peerId ∈ knock_ids (pendingKnocks st))
    then set_pendingKnocks
           (map (fun k => if bool_decide (Knock.peerId k = peerId)
                          then Knock.mk (Knock.peerId k) name else k)
                (pendingKnocks st)) st
    else st in
  if info_has (pendingPeerInfo st) peerId
  then set_pendingPeerInfo (info_set (pendingPeerInfo st) peerId name) st
  else st.

Definition getTalking (isTalking : bool) (peerId : string) (st : State) : State :=
  updatePeer peerId (UpdTalking isTalking) st.

Definition getWhisper (isTalking : bool) (peerId : string) (st : State) : State :=
  updatePeer peerId (UpdWhispering isTalking) st.

Definition getRename (name peerId : string) (st : State) : State :=
  updatePeer peerId (UpdUsername name) st.

Definition getIdle (idle : bool) (peerId : string) (st : State) : State :=
  updatePeer peerId (UpdIdle idle) st.

(** [for (const k of state.pendingKnocks) moveKnockToPeers(k.peerId)] *)
Definition moveAllKnocks (st : State) : State :=
  fold_left (fun s k => moveKnockToPeers (Knock.peerId k) s) (pendingKnocks st) st.

Definition getKnock (msg : KnockMsg) (peerId : string) (st : State) : State :=
  match msg with
  | MsgAdmitted => admitSelf st
  | MsgMode enabled creator =>
      let st := set_creatorId (Some creator) (set_knockEnabled enabled st) in
      if negb enabled && (0 <? length (pendingKnocks st))%nat
      then set_pendingKnocks [] (moveAllKnocks st)
      else st
  | MsgReply targetPeerId approved =>
      if bool_decide (targetPeerId = selfId) then
        if approved then admitSelf st
        else (setTimeout RejectCb 2000 (set_view Rejected st)).2
      else if admitted st then
        removeKnock targetPeerId
          (if approved then moveKnockToPeers targetPeerId st else st)
      else st
  | MsgRequired => st
  end.

(** *** Peer lifecycle *)

(** [activeWhisperTarget && peerId !== activeWhisperTarget] *)
Definition whisper_excludes (st : State) (peerId : string) : bool :=
  match activeWhisperTarget st with
  | Some t => truthy t && bool_decide (peerId ≠ t)
  | None => false
  end.

Definition onPeerJoin (peerId : string) (st : State) : State :=
  if admitted st then
    if knockEnabled st then
      let st :=
        if bool_decide (peerId ∈ knock_ids (pendingKnocks st)) then st
        else set_pendingKnocks (pendingKnocks st ++ [Knock.mk peerId peerId]) st in
      let st := sendKnock MsgRequired (Some peerId) st in
      let st := sendKnock (MsgMode true (or_else (creatorId st) selfId)) (Some peerId) st in
      let st := if getStream st then emit (AddStream peerId) st else st in
      emit (SendUsername (username st) (Some peerId)) st
    else
      let st :=
        if has_peer (peers st) peerId then st
        else set_peers (peers st ++ [makePeer peerId None]) st in
      let st := sendKnock MsgAdmitted (Some peerId) st in
      let st := emit (SendUsername (username st) (Some peerId)) st in
      if getStream st then
        let st := emit (AddStream peerId) st in
        if whisper_excludes st peerId then
          if getRealTrack st && getSilentTrack st
          then set_peerTrackState (<[peerId := Silent]> (peerTrackState st))
                 (emit (ReplaceTrack Real Silent peerId) st)
          else st
        else st
      else st
  else
    emit (SendUsername (username st) (Some peerId))
      (set_pendingPeerInfo (info_set (pendingPeerInfo st) peerId peerId) st).

Definition onPeerLeave (peerId : string) (st : State) : State :=
  let st := set_peers (filter (fun p => Peer.peerId p ≠ peerId) (peers st)) st in
  let st := removeKnock peerId st in
  let st := set_pendingPeerInfo (info_delete (pendingPeerInfo st) peerId) st in
  let st := set_audioEls (audioEls st ∖ {[peerId]}) st in
  let st := set_peerTrackState (delete peerId (peerTrackState st)) st in
  if bool_decide (creatorId st = Some peerId)
  then set_creatorId None (set_knockEnabled false st)
  else st.

(** [playRemoteStream(peerId, stream)] *)
Definition onPeerStream (peerId : string) (st : State) : State :=
  set_audioEls ({[peerId]} ∪ audioEls st) st.

(** *** Whisper routing *)

(** [!realTrack || !silent || !room || !stream] *)
Definition cannot_route (st : State) : bool :=
  negb (getRealTrack st) || negb (getSilentTrack st)
  || negb (bool_decide (is_Some (room st))) || negb (getStream st).

(** One round of the loop of [startWhisper]. *)
Definition routeForWhisper (targetPeerId : string) (st : State) (p : Peer.t) : State :=
  let id := Peer.peerId p in
  if bool_decide (id = selfId) then st
  else if bool_decide (id = targetPeerId) then
    match routing st id with
    | Silent => set_peerTrackState (<[id := Real]> (peerTrackState st))
                  (emit (ReplaceTrack Silent Real id) st)
    | Real => st
    end
  else
    match routing st id with
    | Real => set_peerTrackState (<[id := Silent]> (peerTrackState st))
                (emit (ReplaceTrack Real Silent id) st)
    | Silent => st
    end.

Definition startWhisper (targetPeerId : string) (st : State) : State :=
  if cannot_route st then st
  else
    let st := set_trackEnabled true (set_activeWhisperTarget (Some targetPeerId) st) in
    let st := fold_left (routeForWhisper targetPeerId) (peers st) st in
    emit (SendWhisper true targetPeerId) st.

(** One round of the loop of [stopWhisper]. *)
Definition routeBack (st : State) (p : Peer.t) : State :=
  let id := Peer.peerId p in
  if bool_decide (id = selfId) then st
  else
    match routing st id with
    | Silent => set_peerTrackState (<[id := Real]> (peerTrackState st))
                  (emit (ReplaceTrack Silent Real id) st)
    | Real => st
    end.

Definition stopWhisper (targetPeerId : string) (st : State) : State :=
  if cannot_route st then st
  else
    let st := set_trackEnabled false (set_activeWhisperTarget None st) in
    let st := fold_left routeBack (peers st) st in
    emit (SendWhisper false targetPeerId) st.

(** *** Public operations *)

Definition sendTalkingState (isTalking : bool) (st : State) : State :=
  if actions st then emit (SendTalking isTalking) st else st.

Definition sendRename (name : string) (st : State) : State :=
  if actions st then emit (SendRename name) st else st.

Definition toggleKnockMode (st : State) : State :=
  if negb (bool_decide (creatorId st = Some (myPeerId st))) then st
  else
    let enabled := negb (knockEnabled st) in
    let st := set_knockEnabled enabled st in
    let st :=
      if negb enabled && (0 <? length (pendingKnocks st))%nat
      then set_pendingKnocks []
             (fold_left
                (fun s k => moveKnockToPeers (Knock.peerId k)
                              (sendKnock (MsgReply (Knock.peerId k) true) None s))
                (pendingKnocks st) st)
      else st in
    sendKnock (MsgMode enabled selfId) None st.

Definition resolveKnock (peerId : string) (approved : bool) (st : State) : State :=
  let st := sendKnock (MsgReply peerId approved) None st in
  let st := if approved then moveKnockToPeers peerId st else st in
  removeKnock peerId st.

(** [createRoom()] and [joinRoom(code)], each with the outcome [mic] of
    its [await initAudio()] and with nothing else running during the wait.
    [Await] below takes each call apart at the [await]. *)
Definition createRoom (draws : Z * Z * Z * Z) (mic : bool) (st : State) : State :=
  let code := genCode draws in
  let st := set_creatorId None (set_admitted true st) in
  let st := initAudio mic st in
  let st := setupRoom code st in
  set_creatorId (Some selfId) st.

(** The callback [joinRoom] arms for 3000 ms. *)
Definition admitTimerFired (st : State) : State :=
  if negb (admitted st) then admitSelf (set_creatorId (Some selfId) st) else st.

Definition joinRoom (code : string) (mic : bool) (st : State) : State :=
  let code := trim (toUpperCase code) in
  if negb (truthy code) then st
  else
    let st := set_admitted false st in
    let st := initAudio mic st in
    let st := setupRoom code st in
    let '(id, st) := setTimeout AdmitCb 3000 st in
    set_admitTimeout (Some id) st.

Definition cleanup (st : State) : State :=
  set_activeWhisperTarget None (set_peerTrackState ∅ (set_audioEls ∅ st)).

Definition leaveRoom (st : State) : State :=
  let st := cleanup st in
  let st := destroyAudio st in
  let st := clearAdmitTimeout st in
  let st := set_pendingPeerInfo [] st in
  let st := match room st with
            | Some _ => set_room None (emit RoomLeave st)
            | None => st
            end in
  let st := set_actions false st in
  set_creatorId None
    (set_pendingKnocks []
       (set_admitted true
          (set_knockEnabled false
             (set_isTalking false
                (set_peers [] st))))).

(** The callback the ['reply'] branch arms for 2000 ms:
    [leaveRoom(); createRoom();] *)
Definition rejectTimerFired (draws : Z * Z * Z * Z) (mic : bool) (st : State) : State :=
  createRoom draws mic (leaveRoom st).

(** *** The callers in the presentation layer *)

(** [whisperStart(peerId)] behind the [pointerdown] handler of a peer icon. *)
Definition whisperStart (peerId : string) (st : State) : State :=
  if noMic st then st
  else if isTalking st || truthy_opt (whisperTarget st) then st
  else startWhisper peerId (set_whisperTarget (Some peerId) st).

(** [whisperStop()] *)
Definition whisperStop (st : State) : State :=
  match whisperTarget st with
  | Some target =>
      if truthy target then stopWhisper target (set_whisperTarget None st) else st
  | None => st
  end.

(** Push-to-talk down and up: [start] and [stop] of [bindPTT].
    [bindPeerIcons] binds them only when [!state.noMic]; the handlers do
    not test it themselves. *)
Definition pttStart (st : State) : State :=
  if isTalking st || truthy_opt (whisperTarget st) then st
  else sendTalkingState true (setTalking true (set_isTalking true st)).

Definition pttStop (st : State) : State :=
  if negb (isTalking st) then st
  else sendTalkingState false (setTalking false (set_isTalking false st)).

(** The [visibilitychange] listener of the room module. *)
Definition visibilityChange (hidden : bool) (st : State) : State :=
  if negb (actions st) then st
  else updatePeer selfId (UpdIdle hidden) (emit (SendIdle hidden) st).

(** ** The event loop *)

(** Everything that can run between two turns of the event loop.  The
    two operations that await the microphone are taken as one step, with
    the outcome of that wait ([mic]); a timer that fires brings the draws
    and the microphone outcome its callback may consume. *)
Inductive Event : Type :=
  | EvCreateRoom (draws : Z * Z * Z * Z) (mic : bool)
  | EvJoinRoom (code : string) (mic : bool)
  | EvLeaveRoom
  | EvPeerJoin (peerId : string)
  | EvPeerLeave (peerId : string)
  | EvPeerStream (peerId : string)
  | EvUsername (name peerId : string)
  | EvTalking (isTalking : bool) (peerId : string)
  | EvWhisper (isTalking : bool) (peerId : string)
  | EvRename (name peerId : string)
  | EvIdle (idle : bool) (peerId : string)
  | EvKnock (msg : KnockMsg) (peerId : string)
  | EvTimer (id : positive) (draws : Z * Z * Z * Z) (mic : bool)
  | EvWhisperStart (peerId : string)
  | EvWhisperStop
  | EvPttStart
  | EvPttStop
  | EvToggleKnockMode
  | EvResolveKnock (peerId : string) (approved : bool)
  | EvSendRename (name : string)
  | EvVisibility (hidden : bool).

Definition timer_of (st : State) (id : positive) : option (TimerCb * Z) :=
  snd <$> List.find (fun e => bool_decide (fst e = id)) (timers st).

Definition fireTimer (id : positive) (draws : Z * Z * Z * Z) (mic : bool) (st : State) : State :=
  match timer_of st id with
  | Some (AdmitCb, _) => admitTimerFired (clearTimeout id st)
  | Some (RejectCb, _) => rejectTimerFired draws mic (clearTimeout id st)
  | None => st
  end.

Definition handle (ev : Event) (st : State) : State :=
  match ev with
  | EvCreateRoom draws mic => createRoom draws mic st
  | EvJoinRoom code mic => joinRoom code mic st
  | EvLeaveRoom => leaveRoom st
  | EvPeerJoin peerId => onPeerJoin peerId st
  | EvPeerLeave peerId => onPeerLeave peerId st
  | EvPeerStream peerId => onPeerStream peerId st
  | EvUsername name peerId => getUsername name peerId st
  | EvTalking b peerId => getTalking b peerId st
  | EvWhisper b peerId => getWhisper b peerId st
  | EvRename name peerId => getRename name peerId st
  | EvIdle b peerId => getIdle b peerId st
  | EvKnock msg peerId => getKnock msg peerId st
  | EvTimer id draws mic => fireTimer id draws mic st
  | EvWhisperStart peerId => whisperStart peerId st
  | EvWhisperStop => whisperStop st
  | EvPttStart => pttStart st
  | EvPttStop => pttStop st
  | EvToggleKnockMode => toggleKnockMode st
  | EvResolveKnock peerId approved => resolveKnock peerId approved st
  | EvSendRename name => sendRename name st
  | EvVisibility hidden => visibilityChange hidden st
  end.

(** What the surroundings guarantee about an event:
    - a room is created or joined only while none is held (the callers
      leave first);
    - the transport reports peers and messages only while a room is held,
      and never under the own id;
    - a timer fires only while it is armed;
    - a whisper starts from the icon of a remote roster member, which
      exists only in the room view. *)
Definition from_transport (st : State) (peerId : string) : bool :=
  bool_decide (is_Some (room st)) && bool_decide (peerId ≠ selfId).

Definition enabled (st : State) (ev : Event) : bool :=
  match ev with
  | EvCreateRoom _ _ | EvJoinRoom _ _ => bool_decide (room st = None)
  | EvPeerJoin p | EvPeerLeave p | EvPeerStream p
  | EvUsername _ p | EvTalking _ p | EvWhisper _ p | EvRename _ p | EvIdle _ p
  | EvKnock _ p => from_transport st p
  | EvTimer id _ _ => bool_decide (is_Some (timer_of st id))
  | EvWhisperStart p =>
      bool_decide (view st = Room) && truthy p
      && bool_decide (p ≠ selfId) && has_peer (peers st) p
  | _ => true
  end.

(** The state of a freshly loaded page; [name] is the stored or generated
    user name. *)
Definition init (name : string) : State :=
  mkState Loading "" "" name [] false None false false true false [] false None
          None false ∅ None ∅ [] None
          false false false
          [] 1%positive [].

(** Runs of the event loop. *)
Fixpoint run (evs : list Event) (st : State) : State :=
  match evs with
  | [] => st
  | ev :: evs' => run evs' (handle ev st)
  end.

Fixpoint admissible (evs : list Event) (st : State) : bool :=
  match evs with
  | [] => true
  | ev :: evs' => enabled st ev && admissible evs' (handle ev st)
  end.

End Room.

(** ** Observations used in the statements *)

(** A roster entry made from a pending knock: its id and its user name. *)
Definition promoted_from (ks : list Knock.t) (p : Peer.t) : Prop :=
  ∃ k, k ∈ ks ∧ p = makePeer (Knock.peerId k) (Some (Knock.username k)).

(** The roster invariant: one entry per id in the roster, one per id among
    the peers seen before admission, and the own id not among the latter
    (so that [admitSelf] builds a roster without repetition). *)
Definition roster_unique (selfId : string) (st : State) : Prop :=
  NoDup (ids (peers st))
  ∧ NoDup (map fst (pendingPeerInfo st))
  ∧ selfId ∉ map fst (pendingPeerInfo st).

(** The armed timers that run the self-promotion callback. *)
Definition admit_timers (st : State) : list positive :=
  map fst (filter (fun e => fst (snd e) = AdmitCb) (timers st)).

(** The timer invariant: handles are fresh, a held room is the one in
    [roomCode], the only armed self-promotion timer is the one in
    [admitTimeout], it is armed exactly while the client is not admitted,
    and a client that is not admitted holds a room. *)
Definition timers_wf (st : State) : Prop :=
  (∀ e, e ∈ timers st → (fst e < nextTimer st)%positive)
  ∧ (∀ c, room st = Some c → roomCode st = c)
  ∧ (if admitted st
     then admitTimeout st = None ∧ admit_timers st = []
     else ∃ id, admitTimeout st = Some id ∧ admit_timers st = [id]
                ∧ timer_of st id = Some (AdmitCb, 3000%Z)
                ∧ is_Some (room st)).









(** [st'] has the timers, the room and the admission of [st]. *)
Definition same_session (st st' : State) : Prop :=
  timers st' = timers st ∧ nextTimer st' = nextTimer st
  ∧ room st' = room st ∧ roomCode st' = roomCode st
  ∧ admitted st' = admitted st ∧ admitTimeout st' = admitTimeout st.

(** From [st] to [st']: knocking is off, nothing is pending any more,
    everyone who was pending is in the roster, and the roster is the old
    one followed by entries made from pending knocks. *)
Definition knocks_admitted (st st' : State) : Prop :=
  knockEnabled st' = false
  ∧ pendingKnocks st' = []
  ∧ (∀ k, k ∈ pendingKnocks st → Knock.peerId k ∈ ids (peers st'))
  ∧ ∃ added, peers st' = peers st ++ added
             ∧ Forall (promoted_from (pendingKnocks st)) added.

End Net.

(* ================================================================== *)
(** * Waiting for the microphone ([createRoom], [joinRoom]) *)
(* ================================================================== *)

Module Await.
Import Net.

(** [createRoom] and [joinRoom] are [async]: a call runs up to
    [await initAudio()] and returns; what is left of it runs when the
    promise of [initAudio] settles, and other events are handled in
    between.  A call made while that promise is pending is handed the same
    promise ([initAudio] returns [initPromise]), so all the calls that
    wait resume in one turn, in the order they were made, with one
    outcome.

    What is left of a call after the [await]: the rest of [createRoom] or
    of [joinRoom], with the value of its variable [code]. *)
Inductive Cont : Type :=
  | AfterCreate (code : string)
  | AfterJoin (code : string).

#[global] Instance Cont_eq_dec : EqDecision Cont.
Proof. solve_decision. Defined.

(** The page between two turns: the state, and the calls that wait for
    the microphone, oldest first. *)
Definition Tab : Type := State * list Cont.

Section Await.

Variable selfId : string.

(** [createRoom()] up to the [await]. *)
Definition createRoom_begin (draws : Z * Z * Z * Z) (st : State) : State * Cont :=
  let code := genCode draws in
  let st := set_creatorId None (set_admitted true st) in
  (st, AfterCreate code).

(** [joinRoom(code)] up to the [await]; it returns at once for an empty
    code. *)
Definition joinRoom_begin (code : string) (st : State) : State * option Cont :=
  let code := trim (toUpperCase code) in
  if negb (truthy code) then (st, None)
  else (set_admitted false st, Some (AfterJoin code)).

(** The rest of a call, from the [await] on; [mic] tells whether the
    promise was fulfilled (a stream was granted) or rejected. *)
Definition resume (mic : bool) (st : State) (k : Cont) : State :=
  match k with
  | AfterCreate code =>
      let st := initAudio mic st in
      let st := setupRoom selfId code st in
      set_creatorId (Some selfId) st
  | AfterJoin code =>
      let st := initAudio mic st in
      let st := setupRoom selfId code st in
      let '(id, st) := setTimeout AdmitCb 3000 st in
      set_admitTimeout (Some id) st
  end.

(** An event is handled up to the first [await] it meets.  Only
    [createRoom] and [joinRoom] meet one, directly or in the callback of
    the rejection timer ([leaveRoom(); createRoom();]); the outcome of the
    wait that such an event carries is not looked at here, it comes with
    the turn in which the promise settles. *)
Definition start (ev : Event) (tab : Tab) : Tab :=
  let '(st, waiting) := tab in
  match ev with
  | EvCreateRoom draws _ =>
      let '(st, k) := createRoom_begin draws st in (st, waiting ++ [k])
  | EvJoinRoom code _ =>
      match joinRoom_begin code st with
      | (st, Some k) => (st, waiting ++ [k])
      | (st, None) => (st, waiting)
      end
  | EvTimer id draws _ =>
      match timer_of st id with
      | Some (AdmitCb, _) => (admitTimerFired selfId (clearTimeout id st), waiting)
      | Some (RejectCb, _) =>
          let '(st, k) := createRoom_begin draws (leaveRoom (clearTimeout id st)) in
          (st, waiting ++ [k])
      | None => (st, waiting)
      end
  | _ => (handle selfId ev st, waiting)
  end.

(** The promise of [initAudio] settles: every call that waits resumes. *)
Definition settle (mic : bool) (tab : Tab) : Tab :=
  (fold_left (resume mic) tab.2 tab.1, []).

(** One turn of the event loop. *)
Inductive Turn : Type :=
  | Start (ev : Event)
  | Settle (mic : bool).

Definition turn (t : Turn) (tab : Tab) : Tab :=
  match t with
  | Start ev => start ev tab
  | Settle mic => settle mic tab
  end.

Fixpoint turns (ts : list Turn) (tab : Tab) : Tab :=
  match ts with
  | [] => tab
  | t :: ts' => turns ts' (turn t tab)
  end.

(** What the surroundings guarantee about a turn: about an event what
    [enabled] says, and the promise settles only while a call waits. *)
Definition ready (tab : Tab) (t : Turn) : bool :=
  match t with
  | Start ev => enabled selfId tab.1 ev
  | Settle _ => negb (bool_decide (tab.2 = []))
  end.

Fixpoint possible (ts : list Turn) (tab : Tab) : bool :=
  match ts with
  | [] => true
  | t :: ts' => ready tab t && possible ts' (turn t tab)
  end.

(** The events that leave the room or start a wait of their own: a
    leave, a create, a join and the rejection timer. *)
Definition interrupts (st : State) (ev : Event) : bool :=
  match ev with
  | EvCreateRoom _ _ | EvJoinRoom _ _ | EvLeaveRoom => true
  | EvTimer id _ _ =>
      match timer_of st id with
      | Some (RejectCb, _) => true
      | _ => false
      end
  | _ => false
  end.

(** A run in which no such event is started while a call waits for the
    microphone. *)
Fixpoint undisturbed (ts : list Turn) (tab : Tab) : bool :=
  match ts with
  | [] => true
  | t :: ts' =>
      match t with
      | Start ev => negb (interrupts tab.1 ev) || bool_decide (tab.2 = [])
      | Settle _ => true
      end
      && undisturbed ts' (turn t tab)
  end.

(** The turn in which the timer [id] fires. *)
Definition fires (id : positive) (t : Turn) : bool :=
  match t with
  | Start (EvTimer id' _ _) => bool_decide (id' = id)
  | _ => false
  end.

(** The outcome of the wait an event of [Net.run] carries. *)
Definition outcome (ev : Event) : bool :=
  match ev with
  | EvCreateRoom _ mic | EvJoinRoom _ mic | EvTimer _ _ mic => mic
  | _ => false
  end.

End Await.

(** ** Observations used in the statements *)

(** Timer handles are handed out once, and the handle kept in
    [admitTimeout] is not that of a rejection timer. *)
Definition handles_wf (st : State) : Prop :=
  (∀ e, e ∈ timers st → (fst e < nextTimer st)%positive)
  ∧ (∀ a, admitTimeout st = Some a →
       (a < nextTimer st)%positive ∧ ∀ d, timer_of st a ≠ Some (RejectCb, d)).

(** The timer table, the next handle and the handle [joinRoom] keeps. *)
Definition timing (st : State) : list (positive * (TimerCb * Z)) * positive * option positive :=
  (timers st, nextTimer st, admitTimeout st).

(** From [st] to [st'] the handles stay well formed and the rejection
    timer [id], if armed, stays armed. *)
Definition kept (id : positive) (st st' : State) : Prop :=
  handles_wf st →
  handles_wf st'
  ∧ ∀ d, timer_of st id = Some (RejectCb, d) → timer_of st' id = Some (RejectCb, d).

(** The timer invariant of a page on which at most one call waits: with
    no call waiting it is [timers_wf]; while a call waits the client holds
    no room and no self-promotion timer, and [admitted] is what the call
    has set. *)
Definition tab_wf (tab : Tab) : Prop :=
  match tab.2 with
  | [] => timers_wf tab.1
  | [k] =>
      (∀ e, e ∈ timers tab.1 → (fst e < nextTimer tab.1)%positive)
      ∧ room tab.1 = None ∧ admitTimeout tab.1 = None ∧ admit_timers tab.1 = []
      ∧ admitted tab.1 = match k with AfterCreate _ => true | AfterJoin _ => false end
  | _ => False
  end.

End Await.

(* ================================================================== *)
(** * The audio module ([audio.js]) *)
(* ================================================================== *)

Module Audio.

(** What the module asks of the browser objects it holds: [track.stop()]
    on the tracks of the local stream and on the silent track,
    [source.disconnect()], [oscillator.start()], [audioCtx.close()]. *)
Inductive Call : Type :=
  | StopTracks (stream : nat)
  | StopTrack (track : nat)
  | Disconnect (source : nat)
  | StartOscillator (context : nat)
  | Close (context : nat).

#[global] Instance Call_eq_dec : EqDecision Call.
Proof. solve_decision. Defined.

(** The module variables.  A browser object is the number it was created
    under; [enabled] is the [enabled] flag of the tracks of
    [localStream]; [remoteAnalysers] is a [Map] from peer ids to
    [{ source, analyser }], in insertion order. *)
Record t : Type := mk {
  localStream : option nat;
  enabled : bool;
  audioCtx : option nat;
  analyser : option nat;
  silentTrack : option nat;
  initPromise : bool;
  remoteAnalysers : list (string * (nat * nat));
  fresh : nat;
  calls : list Call;
}.

Definition init : t := mk None false None None None false [] 0 [].

(** [initAudioContext()] *)
Definition initAudioContext (a : t) : t :=
  let '(mk ls en cx an si ip ra fr cs) := a in
  match cx with
  | Some _ => a
  | None => mk ls en (Some fr) an si ip ra (S fr) cs
  end.

(** [initAudio()]: nothing new is started while a start is pending. *)
Definition initAudio (a : t) : bool * t :=
  let '(mk ls en cx an si ip ra fr cs) := a in
  if ip then (false, a) else (true, mk ls en cx an si true ra fr cs).

(** [_initAudio()] once [getUserMedia] has granted a stream: the stream,
    a new context, its analyser and the source connected to it; then the
    [finally] of [initAudio]. *)
Definition initAudio_granted (a : t) : t :=
  let '(mk ls en cx an si ip ra fr cs) := a in
  mk (Some fr) false (Some (fr + 1)) (Some (fr + 2)) si false ra (fr + 4) cs.

(** [_initAudio()] when [getUserMedia] refuses: the [await] throws and
    only the [finally] runs. *)
Definition initAudio_refused (a : t) : t :=
  let '(mk ls en cx an si ip ra fr cs) := a in
  mk ls en cx an si false ra fr cs.

Definition getStream (a : t) : option nat := localStream a.

(** [localStream ? localStream.getAudioTracks()[0] : null]; the track
    goes by the number of its stream. *)
Definition getRealTrack (a : t) : option nat := localStream a.

Definition getAnalyser (a : t) : option nat := analyser a.

(** [remoteAnalysers.get(peerId)] *)
Definition entry (ra : list (string * (nat * nat))) (peerId : string) : option (nat * nat) :=
  snd <$> List.find (fun e => bool_decide (fst e = peerId)) ra.

(** [removeRemoteAnalyser(peerId)] *)
Definition removeRemoteAnalyser (peerId : string) (a : t) : t :=
  let '(mk ls en cx an si ip ra fr cs) := a in
  match entry ra peerId with
  | Some (source, _) =>
      mk ls en cx an si ip (filter (fun e => fst e ≠ peerId) ra) fr (cs ++ [Disconnect source])
  | None => a
  end.

(** [createRemoteAnalyser(peerId, stream)] *)
Definition createRemoteAnalyser (peerId : string) (a : t) : option nat * t :=
  let '(mk ls en cx an si ip ra fr cs) := removeRemoteAnalyser peerId a in
  match cx with
  | None => (None, mk ls en cx an si ip ra fr cs)
  | Some _ =>
      let source := fr in
      let an' := S fr in
      (Some an', mk ls en cx an si ip (ra ++ [(peerId, (source, an'))]) (fr + 2) cs)
  end.

(** [getRemoteAnalyser(peerId)] *)
Definition getRemoteAnalyser (peerId : string) (a : t) : option nat :=
  snd <$> entry (remoteAnalysers a) peerId.

(** [getSilentTrack()] *)
Definition getSilentTrack (a : t) : option nat * t :=
  let '(mk ls en cx an si ip ra fr cs) := a in
  match si with
  | Some track => (Some track, a)
  | None =>
      match cx with
      | None => (None, a)
      | Some context =>
          (Some fr, mk ls en cx an (Some fr) ip ra (S fr) (cs ++ [StartOscillator context]))
      end
  end.

(** [setTalking(talking)] *)
Definition setTalking (talking : bool) (a : t) : t :=
  let '(mk ls en cx an si ip ra fr cs) := a in
  match ls with
  | Some _ => mk ls talking cx an si ip ra fr cs
  | None => a
  end.

(** [destroyAudio()] *)
Definition destroyAudio (a : t) : t :=
  let '(mk ls en cx an si ip ra fr cs) := a in
  let cs := match ls with Some stream => cs ++ [StopTracks stream] | None => cs end in
  let cs := match si with Some track => cs ++ [StopTrack track] | None => cs end in
  let cs := cs ++ map (fun e => Disconnect (fst (snd e))) ra in
  let cs := match cx with Some context => cs ++ [Close context] | None => cs end in
  mk None en None None None false [] fr cs.

(** ** Everything that can happen to the module *)

Inductive Op : Type :=
  | InitAudioContext
  | InitAudio
  | Granted
  | Refused
  | CreateRemoteAnalyser (peerId : string)
  | RemoveRemoteAnalyser (peerId : string)
  | GetSilentTrack
  | SetTalking (talking : bool)
  | DestroyAudio.

Definition step (o : Op) (a : t) : t :=
  match o with
  | InitAudioContext => initAudioContext a
  | InitAudio => (initAudio a).2
  | Granted => initAudio_granted a
  | Refused => initAudio_refused a
  | CreateRemoteAnalyser peerId => (createRemoteAnalyser peerId a).2
  | RemoveRemoteAnalyser peerId => removeRemoteAnalyser peerId a
  | GetSilentTrack => (getSilentTrack a).2
  | SetTalking talking => setTalking talking a
  | DestroyAudio => destroyAudio a
  end.

Fixpoint run (ops : list Op) (a : t) : t :=
  match ops with
  | [] => a
  | o :: ops' => run ops' (step o a)
  end.

(** ** Observations used in the statements *)

(** The analysers and the silent track exist only with a context, and a
    peer has at most one analyser. *)
Definition backed (a : t) : Prop :=
  (is_Some (silentTrack a) → is_Some (audioCtx a))
  ∧ (is_Some (analyser a) → is_Some (audioCtx a))
  ∧ (remoteAnalysers a ≠ [] → is_Some (audioCtx a))
  ∧ NoDup (map fst (remoteAnalysers a)).

(** The three flags the room module is modelled with stand for the
    audio module in the state [a]. *)
Definition seen_as (a : t) (st : Net.State) : Prop :=
  Net.localStream st = bool_decide (is_Some (localStream a))
  ∧ Net.audioCtx st = bool_decide (is_Some (audioCtx a))
  ∧ (is_Some (localStream a) → Net.trackEnabled st = enabled a).

(** The sources that were disconnected, in the order of the calls. *)
Definition disconnected (cs : list Call) : list nat :=
  omap (fun c => match c with Disconnect source => Some source | _ => None end) cs.

(** The sources of the remote analysers held. *)
Definition held (a : t) : list nat := map (fun e => fst (snd e)) (remoteAnalysers a).

(** The sources [createRemoteAnalyser] makes in the course of [ops],
    started in [a]. *)
Fixpoint made (ops : list Op) (a : t) : list nat :=
  match ops with
  | [] => []
  | o :: ops' =>
      match o with
      | CreateRemoteAnalyser peerId =>
          match audioCtx a with Some _ => [fresh a] | None => [] end
      | _ => []
      end ++ made ops' (step o a)
  end.

(** Handles are handed out once. *)
Definition fresh_above (a : t) : Prop := Forall (fun s => (s < fresh a)%nat) (held a).

End Audio.

(* ================================================================== *)
(** * The page: room links, name edit, keyboard, colour ([app.js], [ui.js]) *)
(* ================================================================== *)

Module Page.
Import Net.

(** ** Room links ([app.js]) *)

(** A character matched by the pattern character [pat] under the [i]
    flag: the two have the same upper-case form. *)
Definition matches_nocase (pat c : ascii) : bool :=
  bool_decide (upper_ascii c = upper_ascii pat).

(** A character matched by the class [[A-Z0-9]] under the [i] flag. *)
Definition is_alnum (c : ascii) : bool :=
  let n := nat_of_ascii c in
  ((48 <=? n)%nat && (n <=? 57)%nat)
  || ((65 <=? n)%nat && (n <=? 90)%nat)
  || ((97 <=? n)%nat && (n <=? 122)%nat).

(** Match the literal [pat] at the start of [s]; what follows it. *)
Fixpoint strip_nocase (pat s : string) : option string :=
  match pat, s with
  | EmptyString, _ => Some s
  | String p pat', String c s' =>
      if matches_nocase p c then strip_nocase pat' s' else None
  | String _ _, EmptyString => None
  end.

(** [getRoomFromHash()], on the value of [location.hash]:
    [hash.match(/^#room=([A-Z0-9]{4})$/i)], then [match[1].toUpperCase()]. *)
Definition getRoomFromHash (hash : string) : option string :=
  match strip_nocase "#room=" hash with
  | Some code =>
      if (String.length code =? 4)%nat && forallb is_alnum (String.list_ascii_of_string code)
      then Some (toUpperCase code)
      else None
  | None => None
  end.

(** What [location.hash] reads once [setupRoom] has run
    [location.hash = `room=${code}`]. *)
Definition written_hash (code : string) : string := "#room=" +:+ code.

(** ** Text as the browser has it ([ui.js])

    A JavaScript string is a sequence of UTF-16 code units. *)

(** The code units of a text of the model, one per character. *)
Definition units (s : string) : list N :=
  map (fun c => N.of_nat (nat_of_ascii c)) (String.list_ascii_of_string s).

(** The white space and line terminators of ECMAScript: tab, line feed,
    vertical tab, form feed, carriage return, space, no-break space,
    U+1680, U+2000 to U+200A, U+2028, U+2029, U+202F, U+205F, U+3000 and
    U+FEFF. *)
Definition js_space (u : N) : bool :=
  bool_decide (u ∈ [9; 10; 11; 12; 13; 32; 160; 5760; 8232; 8233; 8239; 8287;
                    12288; 65279]%N)
  || ((8192 <=? u)%N && (u <=? 8202)%N).

(** [s.trim()] on code units: white space is dropped at both ends. *)
Fixpoint js_trim_start (s : list N) : list N :=
  match s with
  | [] => []
  | u :: s' => if js_space u then js_trim_start s' else s
  end.

Fixpoint js_trim_end (s : list N) : list N :=
  match s with
  | [] => []
  | u :: s' =>
      match js_trim_end s' with
      | [] => if js_space u then [] else [u]
      | t => u :: t
      end
  end.

Definition js_trim (s : list N) : list N := js_trim_end (js_trim_start s).

(** Text of ASCII characters: every code unit is below 128. *)
Definition ascii_text (s : string) : Prop :=
  Forall (fun c => (nat_of_ascii c < 128)%nat) (String.list_ascii_of_string s).

Section Page.

Variable selfId : string.

(** [handleHashChange()], with the hash the event brings. *)
Definition handleHashChange (hash : string) (mic : bool) (st : State) : State :=
  match getRoomFromHash hash with
  | Some newRoom =>
      if truthy newRoom && bool_decide (newRoom ≠ roomCode st)
      then joinRoom selfId newRoom mic (leaveRoom st)
      else st
  | None => st
  end.

(** [boot()], once the page is drawn. *)
Definition boot (hash : string) (draws : Z * Z * Z * Z) (mic : bool) (st : State) : State :=
  match getRoomFromHash hash with
  | Some room => if truthy room then joinRoom selfId room mic st
                 else createRoom selfId draws mic st
  | None => createRoom selfId draws mic st
  end.

(** ** Handlers of [ui.js] *)

(** [transitionToNewRoom()]: [leaveRoom(); createRoom();], at once or
    after the slide-out. *)
Definition transitionToNewRoom (draws : Z * Z * Z * Z) (mic : bool) (st : State) : State :=
  createRoom selfId draws mic (leaveRoom st).

(** The [save] closure of [startNameEdit], run while the edit is open;
    [currentName] is the user name the edit started from and [input] the
    content of the text field.  [input.value.trim().slice(0, 20)] is taken
    on ASCII text ([ascii_text]), where it is what [js_trim] and the
    first 20 code units give. *)
Definition saveName (currentName input : string) (st : State) : State :=
  let newName :=
    let typed := String.substring 0 20 (trim input) in
    if truthy typed then typed else currentName in
  if bool_decide (newName ≠ currentName) then
    let st := set_username newName st in
    let st :=
      set_peers
        (map (fun p => if bool_decide (Peer.peerId p = myPeerId st)
                       then merge p (UpdUsername newName) else p)
             (peers st)) st in
    sendRename newName st
  else st.

(** The [keydown] and [keyup] listeners of the document. *)
Definition keyDown (code : string) (repeat : bool) (st : State) : State :=
  if negb (bool_decide (code = "Space")) || repeat || negb (bool_decide (view st = Room))
  then st
  else if noMic st then st
  else if negb (isTalking st) && negb (truthy_opt (whisperTarget st))
  then sendTalkingState true (setTalking true (set_isTalking true st))
  else st.

Definition keyUp (code : string) (st : State) : State :=
  if negb (bool_decide (code = "Space")) || negb (bool_decide (view st = Room))
  then st
  else if isTalking st
  then sendTalkingState false (setTalking false (set_isTalking false st))
  else st.

(** ** Everything the page reacts to *)

(** The events of the room module, and what the page adds: a change of
    the hash, the new-room button, a saved name, the space bar. *)
Inductive Input : Type :=
  | FromRoom (ev : Event)
  | HashChange (hash : string) (mic : bool)
  | NewRoom (draws : Z * Z * Z * Z) (mic : bool)
  | SaveName (input : string)
  | KeyDown (code : string) (repeat : bool)
  | KeyUp (code : string).

Definition react (i : Input) (st : State) : State :=
  match i with
  | FromRoom ev => handle selfId ev st
  | HashChange hash mic => handleHashChange hash mic st
  | NewRoom draws mic => transitionToNewRoom draws mic st
  | SaveName input => saveName (username st) input st
  | KeyDown code repeat => keyDown code repeat st
  | KeyUp code => keyUp code st
  end.

Fixpoint play (inputs : list Input) (st : State) : State :=
  match inputs with
  | [] => st
  | i :: inputs' => play inputs' (react i st)
  end.

End Page.

(** ** Room colour ([ui.js]) *)

(** [x | 0]: the integer [x] as a signed 32-bit number. *)
Definition to_int32 (x : Z) : Z := (x + 2 ^ 31) mod 2 ^ 32 - 2 ^ 31.

(** [str.charCodeAt(i)] for every [i], on ASCII. *)
Definition charCodes (str : string) : list Z :=
  map (fun c => Z.of_nat (nat_of_ascii c)) (String.list_ascii_of_string str).

(** [hashCode(str)], on the code units of [str]. *)
Definition hashCode (str : list Z) : Z :=
  Z.abs (fold_left (fun hash c => to_int32 (to_int32 (Z.shiftl hash 5) - hash + c)) str 0%Z).

(** [hashCode(code) % 360] *)
Definition hue (code : string) : Z := Z.rem (hashCode (charCodes code)) 360.

(** [colorFromRoomCode(code)], for the colour scheme [isDarkMode]. *)
Definition colorFromRoomCode (isDarkMode : bool) (code : string) : string :=
  let lightness := if isDarkMode then 35%Z else 50%Z in
  "hsl(" +:+ pretty (hue code) +:+ ", 70%, " +:+ pretty lightness +:+ "%)".

(** The hash as a polynomial in 31, before it is cut to 32 bits:
    [c0 * 31^(n-1) + ... + c(n-1)]. *)
Definition polynomial31 (str : list Z) : Z :=
  fold_left (fun h c => 31 * h + c)%Z str 0%Z.

(** ** Observations used in the statements *)

(** The characters of the code alphabet. *)
Definition code_char (c : ascii) : Prop := In c (String.list_ascii_of_string chars).

(** The hash written for the current room does not read as a link to
    another room. *)
Definition hash_settled (st : State) : Prop :=
  ∀ code, getRoomFromHash (written_hash (roomCode st)) = Some code → code = roomCode st.

(** [st'] has the talk and whisper flags, the microphone and the room
    code of [st], and a pending list without repetition if [st] has. *)
Definition same_page (st st' : State) : Prop :=
  isTalking st' = isTalking st ∧ whisperTarget st' = whisperTarget st
  ∧ localStream st' = localStream st ∧ trackEnabled st' = trackEnabled st
  ∧ activeWhisperTarget st' = activeWhisperTarget st
  ∧ roomCode st' = roomCode st
  ∧ (NoDup (knock_ids (pendingKnocks st)) → NoDup (knock_ids (pendingKnocks st'))).

(** What every reaction of the page keeps. *)
Definition page_inv (st : State) : Prop :=
  NoDup (knock_ids (pendingKnocks st))
  ∧ ¬ (isTalking st = true ∧ truthy_opt (whisperTarget st) = true)
  ∧ (localStream st = true → trackEnabled st = true →
     isTalking st = true ∨ is_Some (activeWhisperTarget st))
  ∧ hash_settled st.

(** [st'] holds the room of [st] under the same id, with the same send
    functions and the same admission, and still lists the client in the
    roster if [st] does. *)
Definition same_seat (selfId : string) (st st' : State) : Prop :=
  room st' = room st ∧ myPeerId st' = myPeerId st ∧ actions st' = actions st
  ∧ admitted st' = admitted st
  ∧ (selfId ∈ ids (peers st) → selfId ∈ ids (peers st')).

(** While a room is held the client goes by the id the transport gave it
    and has its send functions; once admitted, it is in its own roster;
    without a room it has no send function. *)
Definition seated (selfId : string) (st : State) : Prop :=
  match room st with
  | Some _ =>
      myPeerId st = selfId ∧ actions st = true
      ∧ (admitted st = true → selfId ∈ ids (peers st))
  | None => actions st = false
  end.

End Page.

(* ================================================================== *)
(** * Reading a field through an assignment *)
(* ================================================================== *)

(** [field (set_other v st)] is [field st], and [field (set_field v st)]
    is [v], whatever [st] is; the tactics below rewrite such readings in
    the goal or in a hypothesis. *)
Ltac is_setter f :=
  lazymatch f with
  | Net.set_view => idtac | Net.set_roomCode => idtac
  | Net.set_myPeerId => idtac | Net.set_username => idtac
  | Net.set_peers => idtac | Net.set_isTalking => idtac
  | Net.set_whisperTarget => idtac | Net.set_noMic => idtac
  | Net.set_knockEnabled => idtac | Net.set_admitted => idtac
  | Net.set_knockWaiting => idtac | Net.set_pendingKnocks => idtac
  | Net.set_isCreator => idtac | Net.set_creatorId => idtac
  | Net.set_room => idtac | Net.set_actions => idtac
  | Net.set_peerTrackState => idtac | Net.set_activeWhisperTarget => idtac
  | Net.set_audioEls => idtac | Net.set_pendingPeerInfo => idtac
  | Net.set_admitTimeout => idtac | Net.set_localStream => idtac
  | Net.set_audioCtx => idtac | Net.set_trackEnabled => idtac
  | Net.set_timers => idtac | Net.set_nextTimer => idtac
  | Net.set_effects => idtac
  end.

Ltac read_goal :=
  match goal with
  | |- context [?p (?f ?v ?s)] =>
      is_setter f;
      first [ replace (p (f v s)) with (p s) by (destruct s; reflexivity)
            | replace (p (f v s)) with v by (destruct s; reflexivity) ]
  end.

Ltac read_hyp H :=
  match type of H with
  | context [?p (?f ?v ?s)] =>
      is_setter f;
      first [ replace (p (f v s)) with (p s) in H by (destruct s; reflexivity)
            | replace (p (f v s)) with v in H by (destruct s; reflexivity) ]
  end.

(** Case analysis on the conditions met in an unfolded operation. *)
Ltac split_conds :=
  repeat match goal with
         | |- context [if ?b then _ else _] => destruct b
         | |- context [match ?x with Some _ => _ | None => _ end] => destruct x
         | |- context [match Net.routing ?a ?b with
                       | Net.Real => _ | Net.Silent => _ end] =>
             destruct (Net.routing a b)
         end.

Ltac reads := repeat first [ progress simpl | read_goal ].
Ltac reads_in H := repeat first [ progress simpl in H | read_hyp H ].

(* ================================================================== *)
(** * Properties of the presence store *)
(* ================================================================== *)

Section StoreFacts.
Import Store.

Lemma read_insert_eq t p v : read (<[p := v]> t) p = v.
Proof. unfold read. by rewrite lookup_insert_eq. Qed.

Lemma read_insert_ne t p q v : p ≠ q → read (<[p := v]> t) q = read t q.
Proof. intros. unfold read. by rewrite lookup_insert_ne. Qed.

Lemma strict_eq_true a b : strict_eq a b = true ↔ a = b.
Proof. unfold strict_eq. apply bool_decide_eq_true. Qed.

Lemma strict_eq_false a b : strict_eq a b = false ↔ a ≠ b.
Proof. unfold strict_eq. apply bool_decide_eq_false. Qed.

(** Whether it notifies or not, the trap leaves the assigned value in the
    field. *)
Lemma set_assigns p v s : get (set p v s).1 p = v.
Proof.
  unfold set, notify, get. destruct (strict_eq (read (target s) p) v) eqn:E.
  - by apply strict_eq_true in E.
  - unfold with_pending, with_target. destruct (batching s); simpl;
      apply read_insert_eq.
Qed.

(** Inside a batch the body calls no subscriber: every accepted
    assignment is appended to [pendingChanges]. *)
Lemma assign_all_batching ws t subs pend :
  assign_all ws (mkStore t subs true pend)
  = (mkStore (target_after t ws) subs true (pend ++ recorded t ws), []).
Proof.
  revert t pend. induction ws as [|[p v] ws IH]; intros t pend; simpl.
  - by rewrite app_nil_r.
  - unfold set, get, notify; simpl.
    destruct (strict_eq (read t p) v) eqn:E; simpl.
    + by rewrite IH.
    + unfold with_pending, with_target; simpl. rewrite IH.
      by rewrite <- app_assoc.
Qed.

Lemma recorded_props t ws : map c_prop (recorded t ws) = map fst (effective t ws).
Proof.
  revert t. induction ws as [|[p v] ws IH]; intros t; simpl; [done|].
  destruct (strict_eq (read t p) v); simpl; by rewrite ?IH.
Qed.

(** *** First occurrences *)

Lemma first_occurrences_ext seen seen' ps :
  (∀ x, x ∈ seen ↔ x ∈ seen') →
  first_occurrences seen ps = first_occurrences seen' ps.
Proof.
  revert seen seen'. induction ps as [|p ps IH]; intros seen seen' H; simpl; [done|].
  rewrite (bool_decide_ext (p ∈ seen) (p ∈ seen')) by apply H.
  destruct (bool_decide (p ∈ seen')); [by apply IH|].
  f_equal. apply IH. intros x. rewrite !elem_of_cons. by rewrite H.
Qed.

Lemma elem_of_first_occurrences seen ps x :
  x ∈ first_occurrences seen ps ↔ x ∈ ps ∧ x ∉ seen.
Proof.
  revert seen. induction ps as [|p ps IH]; intros seen; simpl.
  - set_solver.
  - case_bool_decide as Hp.
    + rewrite IH. set_solver.
    + rewrite elem_of_cons, IH. rewrite !elem_of_cons.
      destruct (decide (x = p)) as [->|]; naive_solver.
Qed.

Lemma NoDup_first_occurrences seen ps : NoDup (first_occurrences seen ps).
Proof.
  revert seen. induction ps as [|p ps IH]; intros seen; simpl.
  - constructor.
  - case_bool_decide; [apply IH|].
    constructor; [|apply IH].
    rewrite elem_of_first_occurrences. set_solver.
Qed.

(** *** The coalescing map *)

Lemma map_has_spec m p : map_has m p = true ↔ p ∈ map c_prop m.
Proof.
  unfold map_has. rewrite existsb_exists, list_elem_of_fmap.
  split.
  - intros (e & He & Hp). apply bool_decide_eq_true in Hp.
    exists e. split; [done|]. by apply list_elem_of_In.
  - intros (e & -> & He). exists e. split; [by apply list_elem_of_In|].
    by apply bool_decide_eq_true.
Qed.

Lemma map_put_value_props m p v : map c_prop (map_put_value m p v) = map c_prop m.
Proof.
  induction m as [|e m IH]; simpl; [done|].
  case_bool_decide; simpl; by rewrite ?IH.
Qed.

Lemma coalesce_props cs m :
  map c_prop (fold_left coalesce_step cs m)
  = map c_prop m ++ first_occurrences (map c_prop m) (map c_prop cs).
Proof.
  revert m. induction cs as [|c cs IH]; intros m; simpl.
  - by rewrite app_nil_r.
  - rewrite IH. unfold coalesce_step.
    destruct (map_has m (c_prop c)) eqn:E.
    + apply map_has_spec in E. rewrite bool_decide_true by done.
      by rewrite map_put_value_props.
    + assert (c_prop c ∉ map c_prop m) as Hn.
      { intros H. apply map_has_spec in H. congruence. }
      rewrite bool_decide_false by done.
      rewrite map_app; simpl. rewrite <- app_assoc; simpl.
      do 2 f_equal. apply first_occurrences_ext. set_solver.
Qed.

Lemma elem_of_map_put_value m p v e' :
  NoDup (map c_prop m) →
  e' ∈ map_put_value m p v →
  (∃ e, e ∈ m ∧ c_prop e = p ∧ e' = mkChange p v (c_oldValue e))
  ∨ (e' ∈ m ∧ c_prop e' ≠ p).
Proof.
  induction m as [|e m IH]; simpl; intros Hnd He'.
  - by apply elem_of_nil in He'.
  - apply NoDup_cons in Hnd as [Hnotin Hnd].
    case_bool_decide as Hp.
    + apply elem_of_cons in He' as [->|He'].
      * left. exists e. rewrite Hp. split; [left|done].
      * right. split; [by right|]. intros Hq. apply Hnotin.
        rewrite Hp, <- Hq. by apply list_elem_of_fmap_2.
    + apply elem_of_cons in He' as [->|He'].
      * right. split; [left|done].
      * destruct (IH Hnd He') as [(e0 & ? & ? & ?)|[? ?]].
        -- left. exists e0. split; [by right|done].
        -- right. split; [by right|done].
Qed.

(** Every entry of the coalescing map carries the contents its field had
    before the body ran and the contents it has once the body is done. *)
Lemma coalesce_entries t0 ws : ∀ t m,
  NoDup (map c_prop m) →
  (∀ e, e ∈ m → c_oldValue e = read t0 (c_prop e) ∧ c_value e = read t (c_prop e)) →
  (∀ p, p ∉ map c_prop m → read t p = read t0 p) →
  ∀ e, e ∈ fold_left coalesce_step (recorded t ws) m →
       c_oldValue e = read t0 (c_prop e)
       ∧ c_value e = read (target_after t ws) (c_prop e).
Proof.
  induction ws as [|[p v] ws IH]; intros t m Hnd Hm Hout; simpl; [done|].
  destruct (strict_eq (read t p) v) eqn:E; [by apply IH|].
  simpl. unfold coalesce_step at 2; simpl.
  destruct (map_has m p) eqn:Hhas.
  - apply map_has_spec in Hhas. apply IH.
    + by rewrite map_put_value_props.
    + intros e' He'.
      destruct (elem_of_map_put_value _ _ _ _ Hnd He') as [(e0 & He0 & Hp0 & ->)|[He Hne]].
      * simpl. rewrite read_insert_eq. split; [|done].
        destruct (Hm _ He0) as [-> _]. by rewrite Hp0.
      * rewrite read_insert_ne by done. by apply Hm.
    + intros q Hq. rewrite map_put_value_props in Hq.
      rewrite read_insert_ne; [by apply Hout|]. intros ->. done.
  - assert (p ∉ map c_prop m) as Hn.
    { intros H. apply map_has_spec in H. congruence. }
    apply IH.
    + rewrite map_app; simpl. apply NoDup_app. split; [done|].
      split; [|apply NoDup_singleton].
      intros x Hx Hx'. apply list_elem_of_singleton in Hx'. by subst.
    + intros e' He'. apply elem_of_app in He' as [He'|He'].
      * rewrite read_insert_ne; [by apply Hm|].
        intros ->. apply Hn. by apply list_elem_of_fmap_2.
      * apply list_elem_of_singleton in He' as ->. simpl.
        rewrite read_insert_eq. split; [|done]. by apply Hout.
    + intros q Hq. rewrite map_app in Hq; simpl in Hq.
      rewrite read_insert_ne; [apply Hout|]; set_solver.
Qed.

Lemma list_eq_map_of_props (f : string → change) (m : list change) :
  (∀ e, e ∈ m → e = f (c_prop e)) → m = map f (map c_prop m).
Proof.
  induction m as [|e m IH]; intros H; simpl; [done|].
  rewrite <- (H e) by left. f_equal. apply IH. intros e' He'. apply H. by right.
Qed.

(** Closed form of a top-level [batch]: one entry per changed field, in
    the order of first change, with the contents before and after. *)
Lemma batch_closed_form s ws :
  pendingChanges s = [] →
  batch ws s
  = (mkStore (target_after (target s) ws) (subscribers s) false [],
     deliver (subscribers s)
       (map (fun p => mkChange p (read (target_after (target s) ws) p) (get s p))
            (first_changed s ws))).
Proof.
  destruct s as [t subs b pend]; simpl; intros ->.
  unfold batch, with_batching; simpl.
  rewrite assign_all_batching; simpl.
  unfold with_pending; simpl. do 2 f_equal.
  unfold first_changed, coalesce, get; simpl.
  rewrite <- recorded_props.
  pose proof (coalesce_props (recorded t ws) []) as Hp. simpl in Hp.
  rewrite <- Hp. apply list_eq_map_of_props.
  intros e He.
  destruct (coalesce_entries t ws t [] (NoDup_nil_2) ltac:(set_solver) ltac:(done) e He)
    as [Ho Hv].
  destruct e as [q v o]; simpl in *. by subst.
Qed.

Lemma received_fire fn subs c :
  NoDup subs → fn ∈ subs → received fn (fire subs c) = [c].
Proof.
  unfold received, fire. induction subs as [|g subs IH]; intros Hnd Hin.
  - by apply elem_of_nil in Hin.
  - apply NoDup_cons in Hnd as [Hg Hnd]. simpl.
    rewrite filter_cons; simpl. destruct (decide (g = fn)) as [->|Hne].
    + simpl. f_equal.
      clear IH Hin Hnd. induction subs as [|h subs IH]; [done|].
      simpl. rewrite filter_cons; simpl.
      rewrite decide_False by set_solver. apply IH. set_solver.
    + apply IH; [done|]. set_solver.
Qed.

Lemma received_app fn cs1 cs2 :
  received fn (cs1 ++ cs2) = received fn cs1 ++ received fn cs2.
Proof. unfold received. by rewrite filter_app, map_app. Qed.

(** Every subscriber is called with exactly the coalesced entries. *)
Lemma received_deliver fn subs m :
  NoDup subs → fn ∈ subs → received fn (deliver subs m) = m.
Proof.
  intros Hnd Hin. unfold deliver. induction m as [|c m IH]; simpl; [done|].
  rewrite received_app, received_fire, IH; done.
Qed.

(** After the body ran, a field holds the last value assigned to it. *)
Lemma target_after_last X ws : ∀ t,
  read (target_after t ws) X = default (read t X) (last (assigned_to X ws)).
Proof.
  unfold assigned_to.
  induction ws as [|[p v] ws IH]; intros t; [done|].
  rewrite filter_cons; simpl.
  destruct (decide (p = X)) as [->|Hne]; simpl.
  - rewrite last_cons.
    destruct (strict_eq (read t X) v) eqn:E; rewrite IH.
    + apply strict_eq_true in E. rewrite E. by destruct (last _).
    + rewrite read_insert_eq. by destruct (last _).
  - destruct (strict_eq (read t p) v) eqn:E; rewrite IH; [done|].
    by rewrite read_insert_ne.
Qed.

(** A field whose first assignment differs from its contents is changed. *)
Lemma first_assignment_effective X v1 l ws : ∀ t,
  assigned_to X ws = v1 :: l → v1 ≠ read t X →
  X ∈ map fst (effective t ws).
Proof.
  unfold assigned_to.
  induction ws as [|[p v] ws IH]; intros t; [done|].
  rewrite filter_cons; simpl.
  destruct (decide (p = X)) as [->|Hne]; simpl.
  - intros [= -> _] Hv.
    assert (strict_eq (read t X) v1 = false) as -> by (apply strict_eq_false; done).
    left.
  - intros Hl Hv. destruct (strict_eq (read t p) v) eqn:E; [by apply IH|].
    simpl. right. apply IH; [done|]. by rewrite read_insert_ne.
Qed.

Lemma filter_map_unique (f : string → change) X ps :
  (∀ p, c_prop (f p) = p) → NoDup ps → X ∈ ps →
  filter (fun c => c_prop c = X) (map f ps) = [f X].
Proof.
  intros Hf. induction ps as [|p ps IH]; intros Hnd Hin.
  - by apply elem_of_nil in Hin.
  - apply NoDup_cons in Hnd as [Hp Hnd]. simpl. rewrite filter_cons, Hf.
    destruct (decide (p = X)) as [->|Hne].
    + f_equal. clear IH Hin Hnd.
      induction ps as [|q ps IH]; [done|]. simpl. rewrite filter_cons, Hf.
      rewrite decide_False by set_solver. apply IH. set_solver.
    + apply IH; [done|]. set_solver.
Qed.

(** What a subscriber sees of one field after a top-level batch whose
    first assignment to that field changes it. *)
Lemma batch_field_notification s ws X v1 l fn :
  NoDup (subscribers s) → fn ∈ subscribers s → pendingChanges s = [] →
  assigned_to X ws = v1 :: l → v1 ≠ get s X →
  filter (fun c => c_prop c = X) (received fn (batch ws s).2)
  = [mkChange X (default v1 (last l)) (get s X)].
Proof.
  intros Hnd Hin Hpend Hws Hv1.
  rewrite batch_closed_form by done. simpl.
  rewrite received_deliver by done.
  rewrite (filter_map_unique
    (fun p => mkChange p (read (target_after (target s) ws) p) (get s p))); try done.
  - rewrite target_after_last, Hws, last_cons. by destruct (last l).
  - apply NoDup_first_occurrences.
  - unfold first_changed. apply elem_of_first_occurrences. split; [|set_solver].
    eapply first_assignment_effective; eauto.
Qed.

(** The older store generation handed subscribers the intermediate value
    as [oldValue]; the current [batch] was rewritten to keep the first. *)
Example batch_old_intermediate_oldValue :
  let s := mkStore (<["view" := VStr "loading"]> ∅) [0] false [] in
  let ws := [("view", VStr "knocking"); ("view", VStr "room")] in
  received 0 (batch_old ws s).2
    = [mkChange "view" (VStr "room") (VStr "knocking")]
  ∧ received 0 (batch ws s).2
    = [mkChange "view" (VStr "room") (VStr "loading")].
Proof. split; vm_compute; reflexivity. Qed.

(** C2, as amended.  In a top-level batch that assigns a field twice
    (value1, then value2, both different from what the field held before),
    every subscriber is called exactly once for that field, with
    [newValue = value2] and [oldValue] the contents before the batch; and
    the notifications of the batch come in the order in which the fields
    were first changed, that is first assigned a value different from
    the one they held at that moment. *)
Theorem batch_coalesces_field s ws X v1 v2 fn :
  NoDup (subscribers s) → fn ∈ subscribers s → pendingChanges s = [] →
  assigned_to X ws = [v1; v2] → v1 ≠ get s X → v2 ≠ get s X →
  filter (fun c => c_prop c = X) (received fn (batch ws s).2)
    = [mkChange X v2 (get s X)]
  ∧ map c_prop (received fn (batch ws s).2) = first_changed s ws.
Proof.
  intros Hnd Hin Hpend Hws Hv1 _. split.
  - by rewrite (batch_field_notification s ws X v1 [v2] fn).
  - rewrite batch_closed_form by done. simpl.
    rewrite received_deliver by done.
    rewrite map_map. simpl. apply map_id.
Qed.

Lemma batch_coalesces_field_witness :
  let s := mkStore (<["view" := VStr "loading"]> (<["admitted" := VBool false]> ∅))
                   [0; 1] false [] in
  let ws := [("admitted", VBool true); ("view", VStr "knocking");
             ("view", VStr "room")] in
  filter (fun c => c_prop c = "view") (received 1 (batch ws s).2)
    = [mkChange "view" (VStr "room") (get s "view")]
  ∧ map c_prop (received 1 (batch ws s).2) = first_changed s ws.
Proof.
  intros s ws.
  apply (batch_coalesces_field s ws "view" (VStr "knocking") (VStr "room") 1).
  - apply (NoDup_cons_2 0 [1]); [apply not_elem_of_cons; split;
      [discriminate | apply not_elem_of_nil]|].
    apply (NoDup_cons_2 1 []); [apply not_elem_of_nil | apply NoDup_nil_2].
  - right. left.
  - reflexivity.
  - reflexivity.
  - vm_compute. discriminate.
  - vm_compute. discriminate.
Defined.

(** C2 as stated fails on the order: a field whose first assignment in the
    batch leaves it unchanged is notified after a field changed later,
    so the notifications are not in first-assignment order. *)
Lemma batch_first_assigned_order_counterexample :
  let s := mkStore (<["creatorId" := VNull]> (<["knockEnabled" := VBool false]> ∅))
                   [0] false [] in
  let ws := [("knockEnabled", VBool false); ("creatorId", VStr "a");
             ("creatorId", VStr "b"); ("knockEnabled", VBool true)] in
  (NoDup (subscribers s) ∧ 0 ∈ subscribers s ∧ pendingChanges s = []
   ∧ assigned_to "creatorId" ws = [VStr "a"; VStr "b"]
   ∧ VStr "a" ≠ get s "creatorId" ∧ VStr "b" ≠ get s "creatorId")
  ∧ first_assigned ws = ["knockEnabled"; "creatorId"]
  ∧ map c_prop (received 0 (batch ws s).2) = ["creatorId"; "knockEnabled"]
  ∧ ¬ sublist (map c_prop (received 0 (batch ws s).2)) (first_assigned ws).
Proof.
  intros s ws. split; [|split; [|split]].
  - split; [apply NoDup_singleton|]. split; [left|].
    split; [reflexivity|]. split; [reflexivity|].
    split; vm_compute; discriminate.
  - reflexivity.
  - vm_compute. reflexivity.
  - assert (map c_prop (received 0 (batch ws s).2) = ["creatorId"; "knockEnabled"])
      as -> by (vm_compute; reflexivity).
    assert (first_assigned ws = ["knockEnabled"; "creatorId"]) as -> by reflexivity.
    intros H. apply sublist_cons_r in H as [H|(l' & Heq & _)]; [|discriminate].
    apply sublist_length in H. simpl in H. lia.
Qed.

(** C9.  A field set to a different value and then back to its value from
    before the batch is still notified, exactly once, with [newValue] and
    [oldValue] both equal to that value: the suppression of the [set]
    trap looks at each assignment, not at the net effect of the batch. *)
Theorem batch_revert_still_notifies s ws X v fn :
  NoDup (subscribers s) → fn ∈ subscribers s → pendingChanges s = [] →
  assigned_to X ws = [v; get s X] → v ≠ get s X →
  filter (fun c => c_prop c = X) (received fn (batch ws s).2)
    = [mkChange X (get s X) (get s X)].
Proof.
  intros Hnd Hin Hpend Hws Hv.
  by rewrite (batch_field_notification s ws X v [get s X] fn).
Qed.

Lemma batch_revert_still_notifies_witness :
  let s := mkStore (<["isTalking" := VBool false]> ∅) [7] false [] in
  let ws := [("isTalking", VBool true); ("peers", VRef 1);
             ("isTalking", VBool false)] in
  filter (fun c => c_prop c = "isTalking") (received 7 (batch ws s).2)
    = [mkChange "isTalking" (get s "isTalking") (get s "isTalking")].
Proof.
  intros s ws.
  apply (batch_revert_still_notifies s ws "isTalking" (VBool true) 7).
  - apply NoDup_singleton.
  - left.
  - reflexivity.
  - reflexivity.
  - vm_compute. discriminate.
Defined.

End StoreFacts.

(* ================================================================== *)
(** * Properties of the room module: single operations *)
(* ================================================================== *)

Section OperationFacts.
Import Net.

Variable selfId : string.

Lemma has_peer_true ps id : has_peer ps id = true ↔ id ∈ ids ps.
Proof. unfold has_peer. apply bool_decide_eq_true. Qed.

Lemma has_peer_false ps id : has_peer ps id = false ↔ id ∉ ids ps.
Proof. unfold has_peer. apply bool_decide_eq_false. Qed.

Lemma ids_app ps qs : ids (ps ++ qs) = ids ps ++ ids qs.
Proof. unfold ids. apply map_app. Qed.

Lemma makePeer_id id name : Peer.peerId (makePeer id name) = id.
Proof. reflexivity. Qed.

(** [moveKnockToPeers] leaves a roster in which the peer is present, keeps
    what was there, and touches nothing but the roster. *)
Lemma moveKnockToPeers_has id st :
  has_peer (peers (moveKnockToPeers id st)) id = true.
Proof.
  unfold moveKnockToPeers. destruct (has_peer (peers st) id) eqn:E; [done|].
  destruct st; simpl. apply has_peer_true. rewrite ids_app. set_solver.
Qed.

Lemma moveKnockToPeers_present id st :
  has_peer (peers st) id = true → moveKnockToPeers id st = st.
Proof. intros H. unfold moveKnockToPeers. by rewrite H. Qed.

Lemma moveKnockToPeers_peers id st :
  peers (moveKnockToPeers id st)
  = if has_peer (peers st) id then peers st
    else peers st ++ [makePeer id (Knock.username <$> find_knock (pendingKnocks st) id)].
Proof. unfold moveKnockToPeers. destruct (has_peer (peers st) id); by destruct st. Qed.

Lemma removeKnock_idem id st : removeKnock id (removeKnock id st) = removeKnock id st.
Proof.
  destruct st as [? ? ? ? ? ? ? ? ? ? ? pk ? ? ? ? ? ? ? ? ? ? ? ? ? ? ?].
  unfold removeKnock; simpl. f_equal.
  induction pk as [|k ks IH]; [done|].
  rewrite filter_cons. case_decide as Hk; [|done].
  rewrite filter_cons, decide_True by done. by rewrite IH.
Qed.

Lemma find_knock_None ks id :
  id ∉ knock_ids ks → find_knock ks id = None.
Proof.
  unfold find_knock, knock_ids. induction ks as [|k ks IH]; simpl; [done|].
  intros H. rewrite bool_decide_false by set_solver. apply IH. set_solver.
Qed.

Lemma removeKnock_absent id st :
  id ∉ knock_ids (pendingKnocks st) → pendingKnocks (removeKnock id st) = pendingKnocks st.
Proof.
  destruct st as [? ? ? ? ? ? ? ? ? ? ? pk ? ? ? ? ? ? ? ? ? ? ? ? ? ? ?].
  unfold removeKnock, knock_ids; simpl.
  induction pk as [|k ks IH]; simpl; [done|].
  intros H. rewrite filter_cons, decide_True by set_solver.
  f_equal. apply IH. set_solver.
Qed.

Lemma state_eta (st : State) :
  set_effects (effects st) (set_peers (peers st) st) = st.
Proof. by destruct st. Qed.

Lemma moveKnockToPeers_frame id st :
  moveKnockToPeers id st
  = set_effects (effects (moveKnockToPeers id st))
      (set_peers (peers (moveKnockToPeers id st)) st).
Proof.
  unfold moveKnockToPeers. destruct (has_peer (peers st) id); [by rewrite state_eta|].
  by destruct st.
Qed.

Lemma sendKnock_frame msg to st :
  sendKnock msg to st
  = set_effects (effects (sendKnock msg to st)) (set_peers (peers (sendKnock msg to st)) st).
Proof. unfold sendKnock. destruct (actions st); by destruct st. Qed.

(** A loop whose rounds touch only the roster and the effect log does so
    as a whole. *)
Lemma fold_frame (step : State → Knock.t → State) l :
  (∀ s k, step s k = set_effects (effects (step s k)) (set_peers (peers (step s k)) s)) →
  ∀ s, fold_left step l s
       = set_effects (effects (fold_left step l s))
           (set_peers (peers (fold_left step l s)) s).
Proof.
  intros Hstep. induction l as [|k l IH]; intros s; simpl.
  - by rewrite state_eta.
  - rewrite IH at 1. rewrite (Hstep s k) at 3. by destruct s.
Qed.

(** The roster after a loop of [moveKnockToPeers] over pending knocks,
    each round possibly preceded by something that only sends. *)
Lemma move_fold_roster (pre : Knock.t → State → State) ks l :
  (∀ k s, peers (pre k s) = peers s ∧ pendingKnocks (pre k s) = pendingKnocks s) →
  (∀ k, k ∈ l → k ∈ ks) →
  ∀ s, pendingKnocks s = ks →
    let s' := fold_left (fun s k => moveKnockToPeers (Knock.peerId k) (pre k s)) l s in
    pendingKnocks s' = ks
    ∧ (∀ k, k ∈ l → Knock.peerId k ∈ ids (peers s'))
    ∧ ∃ added, peers s' = peers s ++ added ∧ Forall (promoted_from ks) added.
Proof.
  intros Hpre. induction l as [|k l IH]; intros Hl s Hks; simpl.
  - split; [done|]. split; [set_solver|]. exists []. by rewrite app_nil_r.
  - destruct (Hpre k s) as [Hp Hk].
    assert (pendingKnocks (moveKnockToPeers (Knock.peerId k) (pre k s)) = ks) as Hks'.
    { unfold moveKnockToPeers. destruct (has_peer _ _); reads; congruence. }
    destruct (IH ltac:(set_solver) _ Hks') as (H1 & H2 & added & H3 & H4).
    split; [done|]. split.
    + intros k' [->|Hk']%elem_of_cons; [|by apply H2].
      rewrite H3, ids_app. apply elem_of_app. left.
      apply has_peer_true, moveKnockToPeers_has.
    + rewrite H3, moveKnockToPeers_peers, Hp, Hk, Hks.
      destruct (has_peer (peers s) (Knock.peerId k)) eqn:E; [by exists added|].
      eexists. rewrite <- app_assoc. split; [done|].
      constructor; [|done].
      assert (Knock.peerId k ∈ knock_ids ks) as Hin.
      { apply list_elem_of_fmap_2, Hl. left. }
      unfold find_knock. destruct (List.find _ ks) as [k0|] eqn:Hf.
      * apply find_some in Hf as [Hin0 Heq%bool_decide_eq_true].
        exists k0. split; [by apply list_elem_of_In|]. simpl. by rewrite Heq.
      * exfalso. apply list_elem_of_fmap in Hin as (k1 & Hk1 & Hin1).
        apply list_elem_of_In in Hin1.
        pose proof (find_none _ _ Hf _ Hin1) as Hn. simpl in Hn.
        apply bool_decide_eq_false in Hn. congruence.
Qed.

(** What [toggleKnockMode] sent while it emptied the pending list. *)
Lemma toggle_fold_sent l : ∀ s,
  actions s = true →
  let s' := fold_left
              (fun s k => moveKnockToPeers (Knock.peerId k)
                            (sendKnock (MsgReply (Knock.peerId k) true) None s)) l s in
  actions s' = true
  ∧ (∀ e, e ∈ effects s → e ∈ effects s')
  ∧ ∀ k, k ∈ l → SendKnock (MsgReply (Knock.peerId k) true) None ∈ effects s'.
Proof.
  induction l as [|k l IH]; intros s Hact; simpl; [set_solver|].
  set (s1 := moveKnockToPeers _ _).
  assert (actions s1 = true ∧ effects s1 = effects s ++ [SendKnock (MsgReply (Knock.peerId k) true) None])
    as [Hact1 Heff1].
  { unfold s1, moveKnockToPeers, sendKnock, emit. rewrite Hact.
    destruct (has_peer _ _); reads; done. }
  destruct (IH s1 Hact1) as (H1 & H2 & H3).
  split; [done|]. split.
  - intros e He. apply H2. rewrite Heff1. set_solver.
  - intros k' [->|Hk']%elem_of_cons; [|by apply H3].
    apply H2. rewrite Heff1. set_solver.
Qed.

(** *** Loops in closed form *)

Lemma set_effects_eta (st : State) : set_effects (effects st) st = st.
Proof. by destruct st. Qed.

(** The loop of [admitSelf] only adds streams. *)
Lemma addStream_fold l : ∀ s,
  fold_left
    (fun s p => if bool_decide (Peer.peerId p = selfId) then s
                else emit (AddStream (Peer.peerId p)) s) l s
  = set_effects
      (effects s ++ map AddStream (filter (fun id => id ≠ selfId) (ids l))) s.
Proof.
  induction l as [|p l IH]; intros s; simpl.
  - by rewrite app_nil_r, set_effects_eta.
  - rewrite IH, filter_cons. case_bool_decide as Hp.
    + by rewrite decide_False by (by intros ?).
    + rewrite decide_True by done. unfold emit. destruct s; simpl.
      by rewrite <- app_assoc.
Qed.

(** [admitSelf] as one assignment per field. *)
Lemma admitSelf_not_admitted st :
  admitted st = false →
  admitSelf selfId st
  = let roster := makePeer selfId (Some (username st))
                  :: map (fun info => makePeer info.1 (Some info.2)) (pendingPeerInfo st) in
    let st1 := set_pendingPeerInfo []
                 (set_peers roster
                    (set_view Room (set_admitted true (clearAdmitTimeout st)))) in
    if localStream st && bool_decide (is_Some (room st))
    then set_effects
           (effects st
            ++ map AddStream (filter (fun id => id ≠ selfId) (map fst (pendingPeerInfo st))))
           st1
    else st1.
Proof.
  intros Hadm. unfold admitSelf. rewrite Hadm. cbv zeta.
  assert (∀ s, localStream (clearAdmitTimeout s) = localStream s
               ∧ room (clearAdmitTimeout s) = room s
               ∧ username (clearAdmitTimeout s) = username s
               ∧ pendingPeerInfo (clearAdmitTimeout s) = pendingPeerInfo s
               ∧ effects (clearAdmitTimeout s) = effects s) as Hclr.
  { intros s. unfold clearAdmitTimeout, clearTimeout.
    destruct (admitTimeout s); reads; done. }
  destruct (Hclr st) as (H1 & H2 & H3 & H4 & H5).
  rewrite addStream_fold.
  unfold getStream. reads. rewrite H1, H2, H3, H4, H5.
  rewrite filter_cons, decide_False by (by intros ?).
  assert (ids (map (fun info : string * string => makePeer info.1 (Some info.2))
                   (pendingPeerInfo st)) = map fst (pendingPeerInfo st)) as ->.
  { unfold ids. rewrite map_map. by apply map_ext. }
  by destruct (localStream st && _).
Qed.

(** *** The roster stays free of repetitions *)

Lemma updatePeer_ids id u st : ids (peers (updatePeer id u st)) = ids (peers st).
Proof.
  unfold updatePeer, ids; reads. rewrite map_map. apply map_ext.
  intros p. case_bool_decide; [by destruct u|done].
Qed.

Lemma moveKnockToPeers_NoDup id st :
  NoDup (ids (peers st)) → NoDup (ids (peers (moveKnockToPeers id st))).
Proof.
  intros Hnd. rewrite moveKnockToPeers_peers.
  destruct (has_peer (peers st) id) eqn:E; [done|].
  apply has_peer_false in E. rewrite ids_app. simpl.
  apply NoDup_app. split; [done|]. split; [|apply NoDup_singleton].
  intros x Hx Hx'. apply list_elem_of_singleton in Hx'. by subst.
Qed.

Lemma move_fold_NoDup (pre : Knock.t → State → State) l :
  (∀ k s, peers (pre k s) = peers s) →
  ∀ s, NoDup (ids (peers s)) →
       NoDup (ids (peers (fold_left
                            (fun s k => moveKnockToPeers (Knock.peerId k) (pre k s)) l s))).
Proof.
  intros Hpre. induction l as [|k l IH]; intros s Hnd; simpl; [done|].
  apply IH. apply moveKnockToPeers_NoDup. by rewrite Hpre.
Qed.

Lemma info_replace_keys m k v : map fst (info_replace m k v) = map fst m.
Proof.
  induction m as [|[k' v'] m IH]; simpl; [done|].
  case_bool_decide; simpl; by rewrite ?IH.
Qed.

Lemma info_set_keys m k v :
  map fst (info_set m k v) = if info_has m k then map fst m else map fst m ++ [k].
Proof.
  unfold info_set. destruct (info_has m k).
  - apply info_replace_keys.
  - by rewrite map_app.
Qed.

Lemma info_set_unique m k v :
  k ≠ selfId →
  NoDup (map fst m) ∧ selfId ∉ map fst m →
  NoDup (map fst (info_set m k v)) ∧ selfId ∉ map fst (info_set m k v).
Proof.
  intros Hk [Hnd Hself]. rewrite info_set_keys.
  destruct (info_has m k) eqn:E; [done|].
  apply bool_decide_eq_false in E. split.
  - apply NoDup_app. split; [done|]. split; [|apply NoDup_singleton].
    intros x Hx Hx'. apply list_elem_of_singleton in Hx'. by subst.
  - set_solver.
Qed.

Lemma info_delete_unique m k :
  NoDup (map fst m) ∧ selfId ∉ map fst m →
  NoDup (map fst (info_delete m k)) ∧ selfId ∉ map fst (info_delete m k).
Proof.
  intros [Hnd Hself]. unfold info_delete.
  induction m as [|[k' v'] m IH]; simpl; [done|].
  simpl in Hnd, Hself. apply NoDup_cons in Hnd as [Hk' Hnd].
  destruct (IH Hnd ltac:(set_solver)) as [IH1 IH2].
  rewrite filter_cons; simpl. case_decide; [|done]. simpl. split.
  - constructor; [|done]. intros Hin.
    apply list_elem_of_fmap in Hin as ([k1 v1] & -> & Hin).
    apply list_elem_of_filter in Hin as [_ Hin].
    apply Hk'. by apply (list_elem_of_fmap_2 fst) in Hin.
  - set_solver.
Qed.

Lemma filter_ids_NoDup (P : Peer.t → Prop) `{∀ p, Decision (P p)} ps :
  NoDup (ids ps) → NoDup (ids (filter P ps)).
Proof.
  unfold ids. induction ps as [|p ps IH]; simpl; [done|].
  intros [Hp Hnd]%NoDup_cons. rewrite filter_cons. case_decide; [|by apply IH].
  simpl. constructor; [|by apply IH].
  intros Hin. apply Hp.
  apply list_elem_of_fmap in Hin as (q & -> & Hq).
  apply list_elem_of_filter in Hq as [_ Hq]. by apply list_elem_of_fmap_2.
Qed.

Lemma admitSelf_roster_unique st :
  roster_unique selfId st → roster_unique selfId (admitSelf selfId st).
Proof.
  intros (Hp & Hi & Hs). destruct (admitted st) eqn:Hadm.
  { unfold admitSelf. by rewrite Hadm. }
  rewrite admitSelf_not_admitted by done. cbv zeta.
  assert (roster_unique selfId
            (set_pendingPeerInfo []
               (set_peers
                  (makePeer selfId (Some (username st))
                   :: map (fun info => makePeer info.1 (Some info.2)) (pendingPeerInfo st))
                  (set_view Room (set_admitted true (clearAdmitTimeout st)))))) as Hgoal.
  { unfold roster_unique; reads. split; [|split; [constructor|set_solver]].
    assert (ids (map (fun info : string * string => makePeer info.1 (Some info.2))
                     (pendingPeerInfo st)) = map fst (pendingPeerInfo st)) as ->.
    { unfold ids. rewrite map_map. by apply map_ext. }
    by constructor. }
  destruct (localStream st && _); [|done].
  destruct Hgoal as (G1 & G2 & G3). unfold roster_unique. reads. reads_in G1.
  reads_in G2. reads_in G3. done.
Qed.

Lemma setupRoom_roster_unique code st :
  NoDup (map fst (pendingPeerInfo st)) ∧ selfId ∉ map fst (pendingPeerInfo st) →
  roster_unique selfId (setupRoom selfId code st).
Proof.
  intros [Hi Hs]. unfold setupRoom, roster_unique, emit. reads.
  destruct (admitted st); reads; (split; [|done]).
  - apply NoDup_singleton.
  - constructor.
Qed.

Lemma leaveRoom_roster_unique st : roster_unique selfId (leaveRoom st).
Proof.
  destruct st as [? ? ? ? ? ? ? ? ? ? ? ? ? ? rm ? ? ? ? ? tmo ? ? ? ? ? ?].
  unfold leaveRoom, clearAdmitTimeout, roster_unique; simpl.
  destruct tmo, rm; simpl; (split; [constructor|split; [constructor|set_solver]]).
Qed.

Lemma roster_unique_same st st' :
  peers st' = peers st → pendingPeerInfo st' = pendingPeerInfo st →
  roster_unique selfId st → roster_unique selfId st'.
Proof. unfold roster_unique. by intros -> ->. Qed.

Lemma sendKnock_same msg to st :
  peers (sendKnock msg to st) = peers st
  ∧ pendingPeerInfo (sendKnock msg to st) = pendingPeerInfo st.
Proof. unfold sendKnock, emit. destruct (actions st); reads; done. Qed.

Lemma route_fold_same (f : State → Peer.t → State) l :
  (∀ s p, peers (f s p) = peers s ∧ pendingPeerInfo (f s p) = pendingPeerInfo s) →
  ∀ s, peers (fold_left f l s) = peers s
       ∧ pendingPeerInfo (fold_left f l s) = pendingPeerInfo s.
Proof.
  intros Hf. induction l as [|p l IH]; intros s; simpl; [done|].
  destruct (IH (f s p)) as [-> ->]. apply Hf.
Qed.

Lemma routeForWhisper_same t s p :
  peers (routeForWhisper selfId t s p) = peers s
  ∧ pendingPeerInfo (routeForWhisper selfId t s p) = pendingPeerInfo s.
Proof.
  unfold routeForWhisper, emit.
  repeat (match goal with
          | |- context [if ?b then _ else _] => destruct b
          | |- context [match routing ?a ?b with _ => _ end] => destruct (routing a b)
          end; reads; try done).
Qed.

Lemma routeBack_same s p :
  peers (routeBack selfId s p) = peers s
  ∧ pendingPeerInfo (routeBack selfId s p) = pendingPeerInfo s.
Proof.
  unfold routeBack, emit.
  repeat (match goal with
          | |- context [if ?b then _ else _] => destruct b
          | |- context [match routing ?a ?b with _ => _ end] => destruct (routing a b)
          end; reads; try done).
Qed.

(** Every event keeps the roster invariant. *)
Lemma handle_roster_unique ev st :
  roster_unique selfId st → enabled selfId st ev = true →
  roster_unique selfId (handle selfId ev st).
Proof.
  intros Hinv Hen. pose proof Hinv as (Hp & Hi & Hs).
  assert (∀ id u s, roster_unique selfId s → roster_unique selfId (updatePeer id u s)) as Hupd.
  { intros id u s (H1 & H2 & H3). split; [by rewrite updatePeer_ids|].
    unfold updatePeer. reads. done. }
  assert (∀ id s, roster_unique selfId s → roster_unique selfId (moveKnockToPeers id s)) as Hmove.
  { intros id s (H1 & H2 & H3). split; [by apply moveKnockToPeers_NoDup|].
    unfold moveKnockToPeers. destruct (has_peer _ _); reads; done. }
  assert (∀ m t s, roster_unique selfId s → roster_unique selfId (sendKnock m t s)) as Hsend.
  { intros m t s. destruct (sendKnock_same m t s). by apply roster_unique_same. }
  assert (∀ v s, roster_unique selfId s → roster_unique selfId (removeKnock v s)) as Hrem.
  { intros v s. apply roster_unique_same; unfold removeKnock; reads; done. }
  assert (∀ c m s, admitted s = true ∨ admitted s = false →
            NoDup (map fst (pendingPeerInfo s)) ∧ selfId ∉ map fst (pendingPeerInfo s) →
            roster_unique selfId (setupRoom selfId c (initAudio m s))) as Hsetup.
  { intros c m s _ H. apply setupRoom_roster_unique.
    unfold initAudio. destruct m; reads; done. }
  destruct ev; simpl in *.
  - (* createRoom *)
    unfold createRoom. cbv zeta.
    eapply roster_unique_same; [| |apply (Hsetup (genCode draws) mic
       (set_creatorId None (set_admitted true st)))]; reads; auto.
  - (* joinRoom *)
    unfold joinRoom. destruct (negb _); [done|]. cbv zeta.
    unfold setTimeout.
    eapply roster_unique_same; [| |apply (Hsetup (trim (toUpperCase code)) mic
       (set_admitted false st))]; reads; auto.
  - apply leaveRoom_roster_unique.
  - (* onPeerJoin *)
    apply andb_true_iff in Hen as [_ Hne%bool_decide_eq_true].
    unfold onPeerJoin. destruct (admitted st).
    + destruct (knockEnabled st).
      * cbv zeta. unfold emit at 1.
        eapply roster_unique_same; [reads; reflexivity|reads; reflexivity|].
        assert (∀ s, roster_unique selfId s →
                  roster_unique selfId (if getStream s then emit (AddStream peerId) s else s))
          as Hstr.
        { intros s ?. destruct (getStream s); [|done].
          eapply roster_unique_same; [| |eassumption]; unfold emit; reads; done. }
        apply Hstr. do 2 apply Hsend. case_bool_decide; [done|].
        eapply roster_unique_same; [| |exact Hinv]; reads; done.
      * cbv zeta.
        set (st1 := if has_peer (peers st) peerId then st else _).
        assert (roster_unique selfId st1) as H1.
        { unfold st1. destruct (has_peer (peers st) peerId) eqn:E; [done|].
          unfold roster_unique. reads. split; [|done]. apply has_peer_false in E.
          rewrite ids_app.
          apply NoDup_app. split; [done|]. split; [|apply NoDup_singleton].
          intros x Hx Hx'. apply list_elem_of_singleton in Hx'. by subst. }
        apply (Hsend MsgAdmitted (Some peerId)) in H1.
        set (st2 := sendKnock _ _ st1) in *.
        assert (roster_unique selfId (emit (SendUsername (username st2) (Some peerId)) st2))
          as H2.
        { eapply roster_unique_same; [| |exact H1]; unfold emit; reads; done. }
        set (st3 := emit _ st2) in *.
        destruct (getStream st3); [|done].
        assert (roster_unique selfId (emit (AddStream peerId) st3)) as H3.
        { eapply roster_unique_same; [| |exact H2]; unfold emit; reads; done. }
        destruct (whisper_excludes _ _); [|done].
        destruct (_ && _); [|done].
        eapply roster_unique_same; [| |exact H3]; unfold emit; reads; done.
    + unfold roster_unique, emit. reads. split; [done|]. by apply info_set_unique.
  - (* onPeerLeave *)
    unfold onPeerLeave. cbv zeta.
    match goal with |- roster_unique _ (if _ then ?a else ?b) =>
      assert (roster_unique selfId b) as H
    end.
    { unfold roster_unique, removeKnock. reads.
      split; [by apply filter_ids_NoDup|]. by apply info_delete_unique. }
    destruct (bool_decide _); [|done].
    eapply roster_unique_same; [| |exact H]; reads; done.
  - eapply roster_unique_same; [| |exact Hinv]; unfold onPeerStream; reads; done.
  - (* getUsername *)
    unfold getUsername. cbv zeta.
    set (st1 := updatePeer _ _ st).
    assert (roster_unique selfId st1) as H1 by by apply Hupd.
    set (st2 := if bool_decide (peerId ∈ knock_ids (pendingKnocks st1)) then _ else st1).
    assert (roster_unique selfId st2) as H2.
    { unfold st2. case_bool_decide; [|done].
      eapply roster_unique_same; [| |exact H1]; reads; done. }
    destruct (info_has (pendingPeerInfo st2) peerId) eqn:E; [|done].
    destruct H2 as (G1 & G2 & G3). unfold roster_unique. reads. split; [done|].
    rewrite info_set_keys, E. done.
  - by apply Hupd.
  - by apply Hupd.
  - by apply Hupd.
  - by apply Hupd.
  - (* getKnock *)
    destruct msg; simpl; [done| | |].
    + destruct (_ && _).
      * unfold roster_unique. reads. unfold moveAllKnocks.
        split.
        -- apply (move_fold_NoDup (fun _ s => s)); [done|]. by reads.
        -- rewrite (fold_frame (fun s k => moveKnockToPeers (Knock.peerId k) s))
             by (intros; apply moveKnockToPeers_frame).
           by reads.
      * eapply roster_unique_same; [| |exact Hinv]; reads; done.
    + by apply admitSelf_roster_unique.
    + case_bool_decide.
      * destruct approved; [by apply admitSelf_roster_unique|].
        eapply roster_unique_same; [| |exact Hinv]; unfold setTimeout; reads; done.
      * destruct (admitted st); [|done]. apply Hrem.
        destruct approved; [by apply Hmove|done].
  - (* timers *)
    unfold fireTimer. destruct (timer_of st id) as [[[] ?]|]; [| |done].
    + unfold admitTimerFired.
      assert (roster_unique selfId (clearTimeout id st)) as Hc.
      { eapply roster_unique_same; [| |exact Hinv]; unfold clearTimeout; reads; done. }
      destruct (negb _); [|done].
      apply admitSelf_roster_unique.
      eapply roster_unique_same; [| |exact Hc]; reads; done.
    + unfold rejectTimerFired.
      destruct (leaveRoom_roster_unique (clearTimeout id st)) as (_ & H2 & H3).
      revert H2 H3. generalize (leaveRoom (clearTimeout id st)) as s. intros s H2 H3.
      unfold createRoom. cbv zeta.
      eapply roster_unique_same; [| |apply (Hsetup (genCode draws) mic
         (set_creatorId None (set_admitted true s)))]; reads; auto.
  - (* whisperStart *)
    unfold whisperStart. destruct (noMic st); [done|]. destruct (_ || _); [done|].
    unfold startWhisper. destruct (cannot_route _);
      [eapply roster_unique_same; [| |exact Hinv]; reads; done|]. cbv zeta.
    unfold emit at 1.
    eapply roster_unique_same; [| |exact Hinv]; reads.
    + destruct (route_fold_same (routeForWhisper selfId peerId)
                  (peers st)
                  (routeForWhisper_same peerId)
                  (set_trackEnabled true
                     (set_activeWhisperTarget (Some peerId)
                        (set_whisperTarget (Some peerId) st)))) as [E1 E2].
      reads_in E1. exact E1.
    + destruct (route_fold_same (routeForWhisper selfId peerId)
                  (peers st)
                  (routeForWhisper_same peerId)
                  (set_trackEnabled true
                     (set_activeWhisperTarget (Some peerId)
                        (set_whisperTarget (Some peerId) st)))) as [E1 E2].
      reads_in E2. exact E2.
  - (* whisperStop *)
    unfold whisperStop. destruct (whisperTarget st); [|done].
    destruct (truthy _); [|done].
    unfold stopWhisper. destruct (cannot_route _);
      [eapply roster_unique_same; [| |exact Hinv]; reads; done|]. cbv zeta.
    unfold emit at 1.
    eapply roster_unique_same; [| |exact Hinv]; reads.
    + destruct (route_fold_same (routeBack selfId) (peers st) routeBack_same
                  (set_trackEnabled false
                     (set_activeWhisperTarget None (set_whisperTarget None st))))
        as [E1 E2].
      reads_in E1. exact E1.
    + destruct (route_fold_same (routeBack selfId) (peers st) routeBack_same
                  (set_trackEnabled false
                     (set_activeWhisperTarget None (set_whisperTarget None st))))
        as [E1 E2].
      reads_in E2. exact E2.
  - eapply roster_unique_same; [| |exact Hinv];
      unfold pttStart, sendTalkingState, setTalking, emit;
      repeat (match goal with
              | |- context [if ?b then _ else _] => destruct b
              end; reads; try done).
  - eapply roster_unique_same; [| |exact Hinv];
      unfold pttStop, sendTalkingState, setTalking, emit;
      repeat (match goal with
              | |- context [if ?b then _ else _] => destruct b
              end; reads; try done).
  - (* toggleKnockMode *)
    unfold toggleKnockMode. destruct (negb _); [done|]. cbv zeta.
    apply Hsend. destruct (_ && _).
    + unfold roster_unique. reads. split.
      * apply (move_fold_NoDup
                 (fun k s => sendKnock (MsgReply (Knock.peerId k) true) None s)).
        -- intros k s. apply sendKnock_same.
        -- by reads.
      * rewrite (fold_frame (fun s k => moveKnockToPeers (Knock.peerId k)
                   (sendKnock (MsgReply (Knock.peerId k) true) None s))).
        -- by reads.
        -- intros s k. rewrite moveKnockToPeers_frame at 1.
           rewrite sendKnock_frame at 3. by destruct s.
    + eapply roster_unique_same; [| |exact Hinv]; reads; done.
  - (* resolveKnock *)
    unfold resolveKnock. cbv zeta. apply Hrem.
    destruct approved; [apply Hmove|]; by apply Hsend.
  - unfold sendRename, emit. destruct (actions st); [|done].
    eapply roster_unique_same; [| |exact Hinv]; reads; done.
  - unfold visibilityChange. destruct (negb _); [done|]. apply Hupd.
    eapply roster_unique_same; [| |exact Hinv]; unfold emit; reads; done.
Qed.

(** Emptying the pending list after a loop of [moveKnockToPeers]. *)
Lemma drain_knocks (pre : Knock.t → State → State) st0 :
  (∀ k s, pre k s = set_effects (effects (pre k s)) s) →
  knockEnabled st0 = false →
  let step := fun s k => moveKnockToPeers (Knock.peerId k) (pre k s) in
  let st' := if (0 <? length (pendingKnocks st0))%nat
             then set_pendingKnocks [] (fold_left step (pendingKnocks st0) st0)
             else st0 in
  knocks_admitted st0 st'.
Proof.
  intros Hpre Hen. cbv zeta.
  assert (∀ k s, peers (pre k s) = peers s ∧ pendingKnocks (pre k s) = pendingKnocks s)
    as Hpre'.
  { intros k s. rewrite (Hpre k s). by reads. }
  destruct (pendingKnocks st0) as [|k0 ks0] eqn:Hks.
  { simpl. unfold knocks_admitted. rewrite Hks.
    split; [done|]. split; [done|]. split; [set_solver|].
    exists []. by rewrite app_nil_r. }
  rewrite <- Hks. replace (0 <? length (pendingKnocks st0))%nat with true
    by (rewrite Hks; done).
  destruct (move_fold_roster pre (pendingKnocks st0) (pendingKnocks st0) Hpre'
              ltac:(done) st0 eq_refl) as (_ & Hin & added & Hadd & Hall).
  unfold knocks_admitted. reads.
  split; [|split; [done|split; [done|by exists added]]].
  rewrite fold_frame; [by reads|].
  intros s k. rewrite moveKnockToPeers_frame at 1. rewrite (Hpre k s) at 3.
  by destruct s.
Qed.

Lemma onPeerJoin_peers id st :
  peers (onPeerJoin selfId id st)
  = if admitted st && negb (knockEnabled st) && negb (has_peer (peers st) id)
    then peers st ++ [makePeer id None] else peers st.
Proof.
  unfold onPeerJoin, sendKnock, emit. cbv zeta.
  destruct (admitted st), (knockEnabled st); simpl.
  - split_conds; reads; done.
  - destruct (has_peer (peers st) id); simpl; split_conds; reads; done.
  - by reads.
  - by reads.
Qed.

Lemma run_roster_unique evs : ∀ st,
  roster_unique selfId st → admissible selfId evs st = true →
  roster_unique selfId (run selfId evs st).
Proof.
  induction evs as [|ev evs IH]; intros st Hinv Hadm; simpl in *; [done|].
  apply andb_true_iff in Hadm as [Hen Hadm].
  apply IH; [|done]. by apply handle_roster_unique.
Qed.

Lemma init_roster_unique name : roster_unique selfId (init name).
Proof. unfold roster_unique; simpl. split; [constructor|split; [constructor|set_solver]]. Qed.

(** *** Timers *)

Ltac same_session_frame :=
  unfold same_session; split_conds; reads; done.

Lemma same_session_refl st : same_session st st.
Proof. by unfold same_session. Qed.

Lemma same_session_trans st1 st2 st3 :
  same_session st1 st2 → same_session st2 st3 → same_session st1 st3.
Proof.
  unfold same_session.
  intros (-> & -> & -> & -> & -> & ->) (-> & -> & -> & -> & -> & ->). done.
Qed.

Lemma same_session_fold {A} (f : State → A → State) l :
  (∀ s a, same_session s (f s a)) → ∀ s, same_session s (fold_left f l s).
Proof.
  intros Hf. induction l as [|a l IH]; intros s; simpl; [apply same_session_refl|].
  eapply same_session_trans; [apply Hf|apply IH].
Qed.

Lemma timers_wf_same st st' : same_session st st' → timers_wf st → timers_wf st'.
Proof.
  unfold same_session, timers_wf, admit_timers, timer_of.
  by intros (-> & -> & -> & -> & -> & ->).
Qed.

Lemma moveKnockToPeers_session id st : same_session st (moveKnockToPeers id st).
Proof. unfold moveKnockToPeers. same_session_frame. Qed.

Lemma sendKnock_session m t st : same_session st (sendKnock m t st).
Proof. unfold sendKnock, emit. same_session_frame. Qed.

Lemma updatePeer_session id u st : same_session st (updatePeer id u st).
Proof. unfold updatePeer. same_session_frame. Qed.

Lemma removeKnock_session id st : same_session st (removeKnock id st).
Proof. unfold removeKnock. same_session_frame. Qed.

Lemma routeForWhisper_session t st p : same_session st (routeForWhisper selfId t st p).
Proof. unfold routeForWhisper, emit. same_session_frame. Qed.

Lemma routeBack_session st p : same_session st (routeBack selfId st p).
Proof. unfold routeBack, emit. same_session_frame. Qed.

Lemma onPeerJoin_session id st : same_session st (onPeerJoin selfId id st).
Proof.
  unfold onPeerJoin. cbv zeta.
  assert (∀ e s, same_session s (emit e s)) as Hemit.
  { intros e s. unfold emit. same_session_frame. }
  assert (∀ (b : bool) s s', same_session s s' →
            same_session s (if b then emit (AddStream id) s' else s')) as Hif.
  { intros b s s' H. destruct b; [|done].
    eapply same_session_trans; [exact H|apply Hemit]. }
  destruct (admitted st) eqn:Ha; [destruct (knockEnabled st) eqn:Hk|].
  - eapply same_session_trans; [|apply Hemit]. apply Hif.
    eapply same_session_trans; [|apply sendKnock_session].
    eapply same_session_trans; [|apply sendKnock_session].
    case_bool_decide; [apply same_session_refl|]. same_session_frame.
  - set (st1 := if has_peer (peers st) id then st else _).
    assert (same_session st st1) as H1.
    { unfold st1. destruct (has_peer _ _); [apply same_session_refl|]. same_session_frame. }
    set (st2 := emit _ (sendKnock _ _ st1)).
    assert (same_session st st2) as H2.
    { eapply same_session_trans; [exact H1|].
      eapply same_session_trans; [apply sendKnock_session|apply Hemit]. }
    destruct (getStream st2); [|done].
    destruct (whisper_excludes _ _); [|by eapply same_session_trans; [exact H2|apply Hemit]].
    destruct (_ && _); [|by eapply same_session_trans; [exact H2|apply Hemit]].
    eapply same_session_trans; [exact H2|]. unfold emit. same_session_frame.
  - unfold emit. same_session_frame.
Qed.

Lemma startWhisper_session t st : same_session st (startWhisper selfId t st).
Proof.
  unfold startWhisper. cbv zeta. destruct (cannot_route st); [apply same_session_refl|].
  eapply same_session_trans; [|unfold emit; same_session_frame].
  eapply same_session_trans; [|apply same_session_fold; apply routeForWhisper_session].
  same_session_frame.
Qed.

Lemma stopWhisper_session t st : same_session st (stopWhisper selfId t st).
Proof.
  unfold stopWhisper. cbv zeta. destruct (cannot_route st); [apply same_session_refl|].
  eapply same_session_trans; [|unfold emit; same_session_frame].
  eapply same_session_trans; [|apply same_session_fold; apply routeBack_session].
  same_session_frame.
Qed.

(** The events that neither create, join or leave a room, nor admit the
    client, nor touch a timer. *)
Lemma plain_event_session ev st :
  match ev with
  | EvCreateRoom _ _ | EvJoinRoom _ _ | EvLeaveRoom | EvTimer _ _ _
  | EvKnock MsgAdmitted _ | EvKnock (MsgReply _ _) _ => True
  | _ => same_session st (handle selfId ev st)
  end.
Proof.
  destruct ev; try done; simpl.
  - apply onPeerJoin_session.
  - unfold onPeerLeave, removeKnock. cbv zeta. same_session_frame.
  - unfold onPeerStream. same_session_frame.
  - unfold getUsername, updatePeer. cbv zeta. same_session_frame.
  - apply updatePeer_session.
  - apply updatePeer_session.
  - apply updatePeer_session.
  - apply updatePeer_session.
  - destruct msg; try done; simpl. unfold moveAllKnocks.
    destruct (_ && _); [|same_session_frame].
      eapply same_session_trans; [|same_session_frame].
      eapply same_session_trans; [|apply same_session_fold; intros; apply moveKnockToPeers_session].
      same_session_frame.
  - unfold whisperStart. destruct (noMic st); [apply same_session_refl|].
    destruct (_ || _); [apply same_session_refl|].
    eapply same_session_trans; [|apply startWhisper_session]. same_session_frame.
  - unfold whisperStop. destruct (whisperTarget st); [|apply same_session_refl].
    destruct (truthy _); [|apply same_session_refl].
    eapply same_session_trans; [|apply stopWhisper_session]. same_session_frame.
  - unfold pttStart, sendTalkingState, setTalking, emit. same_session_frame.
  - unfold pttStop, sendTalkingState, setTalking, emit. same_session_frame.
  - unfold toggleKnockMode. cbv zeta. destruct (negb _); [apply same_session_refl|].
    eapply same_session_trans; [|apply sendKnock_session].
    destruct (_ && _); [|same_session_frame].
    eapply same_session_trans; [|same_session_frame].
    eapply same_session_trans;
      [|apply same_session_fold; intros s k;
        eapply same_session_trans; [apply sendKnock_session|apply moveKnockToPeers_session]].
    same_session_frame.
  - unfold resolveKnock. cbv zeta.
    eapply same_session_trans; [|apply removeKnock_session].
    destruct approved.
    + eapply same_session_trans; [apply sendKnock_session|apply moveKnockToPeers_session].
    + apply sendKnock_session.
  - unfold sendRename, emit. same_session_frame.
  - unfold visibilityChange. destruct (negb _); [apply same_session_refl|].
    eapply same_session_trans; [|apply updatePeer_session]. unfold emit. same_session_frame.
Qed.

Lemma admit_timers_clear id st :
  admit_timers (clearTimeout id st) = filter (fun x => x ≠ id) (admit_timers st).
Proof.
  unfold admit_timers, clearTimeout. reads.
  induction (timers st) as [|[i [cb d]] l IH]; [done|].
  rewrite !filter_cons. simpl.
  destruct (decide (i ≠ id)), (decide (cb = AdmitCb)); simpl;
    rewrite ?filter_cons; simpl;
    try rewrite decide_True by done; try rewrite decide_False by done;
    simpl; rewrite ?filter_cons; simpl;
    try rewrite decide_True by done; try rewrite decide_False by done;
    by rewrite ?IH.
Qed.

Lemma timer_of_clear_ne id id' st :
  id ≠ id' → timer_of (clearTimeout id st) id' = timer_of st id'.
Proof.
  intros Hne. unfold timer_of, clearTimeout. reads. f_equal.
  induction (timers st) as [|[i e] l IH]; [done|].
  rewrite filter_cons. simpl. destruct (decide (i ≠ id)) as [Hi|Hi]; simpl.
  - by rewrite IH.
  - apply dec_stable in Hi. subst i. by rewrite bool_decide_false.
Qed.

Lemma timer_of_admit_timers st id d :
  timer_of st id = Some (AdmitCb, d) → id ∈ admit_timers st.
Proof.
  unfold timer_of, admit_timers. intros H.
  destruct (List.find _ (timers st)) as [[i [cb d']]|] eqn:Hf; [|done].
  simpl in H. injection H as -> ->.
  apply find_some in Hf as [Hin Hid%bool_decide_eq_true]. simpl in Hid. subst i.
  apply list_elem_of_fmap. exists (id, (AdmitCb, d)). split; [done|].
  apply list_elem_of_filter. split; [done|]. by apply list_elem_of_In.
Qed.

Lemma timer_of_fresh st id cb d :
  (∀ e, e ∈ timers st → (fst e < id)%positive) →
  List.find (fun e => bool_decide (fst e = id)) (timers st ++ [(id, (cb, d))])
  = Some (id, (cb, d)).
Proof.
  intros Hlt. induction (timers st) as [|e l IH]; simpl.
  - by rewrite bool_decide_true.
  - rewrite bool_decide_false.
    + apply IH. intros e' He'. apply Hlt. by right.
    + pose proof (Hlt e ltac:(left)). lia.
Qed.

Lemma timer_of_app_old st id x e :
  timer_of st id = Some x →
  snd <$> List.find (fun e => bool_decide (fst e = id)) (timers st ++ [e]) = Some x.
Proof.
  unfold timer_of. induction (timers st) as [|e' l IH]; simpl; [done|].
  destruct (bool_decide _); [done|]. apply IH.
Qed.

Lemma clearAdmitTimeout_spec st :
  let st' := clearAdmitTimeout st in
  admitTimeout st' = None
  ∧ admit_timers st'
    = match admitTimeout st with
      | Some id => filter (fun x => x ≠ id) (admit_timers st)
      | None => admit_timers st
      end
  ∧ (∀ e, e ∈ timers st' → e ∈ timers st)
  ∧ nextTimer st' = nextTimer st ∧ room st' = room st
  ∧ roomCode st' = roomCode st ∧ admitted st' = admitted st.
Proof.
  cbv zeta. unfold clearAdmitTimeout.
  destruct (admitTimeout st) as [id|] eqn:E; [|done].
  split; [by reads|]. split.
  { unfold admit_timers. reads. apply admit_timers_clear. }
  unfold clearTimeout. reads. split; [|done].
  intros e He. by apply list_elem_of_filter in He as [_ ?].
Qed.

Lemma setupRoom_session c st :
  let st' := setupRoom selfId c st in
  timers st' = timers st ∧ nextTimer st' = nextTimer st
  ∧ room st' = Some c ∧ roomCode st' = c
  ∧ admitted st' = admitted st ∧ admitTimeout st' = admitTimeout st.
Proof. unfold setupRoom, emit. cbv zeta. split_conds; reads; done. Qed.

Lemma initAudio_session m st : same_session st (initAudio m st).
Proof. unfold initAudio. same_session_frame. Qed.

Lemma leaveRoom_timers_wf st : timers_wf st → timers_wf (leaveRoom st).
Proof.
  intros (H1 & H2 & H3).
  assert (∀ s, timers (leaveRoom s) = timers (clearAdmitTimeout s)
               ∧ nextTimer (leaveRoom s) = nextTimer (clearAdmitTimeout s)
               ∧ room (leaveRoom s) = None ∧ admitted (leaveRoom s) = true
               ∧ admitTimeout (leaveRoom s) = admitTimeout (clearAdmitTimeout s)) as Hl.
  { intros s. destruct s as [? ? ? ? ? ? ? ? ? ? ? ? ? ? rm ? ? ? ? ? tmo ? ? ? ? ? ?].
    unfold leaveRoom, clearAdmitTimeout, clearTimeout, emit. simpl.
    destruct tmo, rm; simpl; done. }
  destruct (Hl st) as (L1 & L2 & L3 & L4 & L5).
  destruct (clearAdmitTimeout_spec st) as (C1 & C2 & C3 & C4 & _).
  unfold timers_wf, admit_timers. rewrite L1, L2, L3, L4, L5, C1, C4.
  fold (admit_timers (clearAdmitTimeout st)). rewrite C2.
  split; [by intros e He%C3%H1|]. split; [done|]. split; [done|].
  destruct (admitted st).
  - destruct H3 as [-> ->]. done.
  - destruct H3 as (id & -> & -> & _). by rewrite filter_cons, decide_False by (by intros ?).
Qed.

Lemma admitSelf_timers_wf st : timers_wf st → timers_wf (admitSelf selfId st).
Proof.
  intros Hwf. destruct (admitted st) eqn:Hadm.
  { unfold admitSelf. by rewrite Hadm. }
  pose proof Hwf as (H1 & H2 & H3). rewrite Hadm in H3.
  destruct H3 as (id & Hid & Hat & _ & _).
  destruct (clearAdmitTimeout_spec st) as (C1 & C2 & C3 & C4 & C5 & C6 & _).
  rewrite Hid, Hat, filter_cons, decide_False in C2 by (by intros ?).
  rewrite admitSelf_not_admitted by done. cbv zeta.
  unfold timers_wf, admit_timers in *.
  destruct (localStream st && _); reads; rewrite C4, C5, C6;
    (split; [by intros e He%C3%H1|split; [done|done]]).
Qed.

Lemma createRoom_timers_wf draws mic st :
  timers_wf st → room st = None → timers_wf (createRoom selfId draws mic st).
Proof.
  intros (H1 & H2 & H3) Hroom.
  destruct (admitted st) eqn:Hadm;
    [|destruct H3 as (? & _ & _ & _ & [c Hc]); congruence].
  destruct H3 as [Hto Hat].
  unfold createRoom. cbv zeta.
  destruct (setupRoom_session (genCode draws)
              (initAudio mic (set_creatorId None (set_admitted true st))))
    as (S1 & S2 & S3 & S4 & S5 & S6).
  destruct (initAudio_session mic (set_creatorId None (set_admitted true st)))
    as (I1 & I2 & I3 & I4 & I5 & I6).
  unfold timers_wf, admit_timers in *. reads.
  rewrite S1, S2, S3, S4, S5, S6, I1, I2, I5, I6. reads.
  split; [done|]. split; [congruence|]. done.
Qed.

Lemma joinRoom_timers_wf code mic st :
  timers_wf st → room st = None → timers_wf (joinRoom selfId code mic st).
Proof.
  intros (H1 & H2 & H3) Hroom.
  destruct (admitted st) eqn:Hadm;
    [|destruct H3 as (? & _ & _ & _ & [c Hc]); congruence].
  destruct H3 as [Hto Hat].
  unfold joinRoom. cbv zeta. destruct (negb _).
  { unfold timers_wf. rewrite Hadm. done. }
  destruct (setupRoom_session (trim (toUpperCase code))
              (initAudio mic (set_admitted false st)))
    as (S1 & S2 & S3 & S4 & S5 & S6).
  destruct (initAudio_session mic (set_admitted false st))
    as (I1 & I2 & I3 & I4 & I5 & I6).
  unfold setTimeout. reads.
  unfold timers_wf, admit_timers, timer_of in *. reads.
  rewrite S1, S2, S3, S4, S5, I1, I2, I5. reads.
  split; [|split; [congruence|]].
  - intros e [He|He]%elem_of_app.
    + pose proof (H1 e He). lia.
    + apply list_elem_of_singleton in He as ->. simpl. lia.
  - exists (nextTimer st). split; [done|]. split.
    + rewrite filter_app, map_app, Hat. done.
    + split; [|done]. by rewrite (timer_of_fresh st).
Qed.

Lemma reject_timers_wf st :
  timers_wf st → timers_wf (setTimeout RejectCb 2000 (set_view Rejected st)).2.
Proof.
  intros (H1 & H2 & H3). unfold setTimeout. reads.
  unfold timers_wf, admit_timers, timer_of in *. reads.
  split; [|split; [done|]].
  - intros e [He|He]%elem_of_app.
    + pose proof (H1 e He). lia.
    + apply list_elem_of_singleton in He as ->. simpl. lia.
  - rewrite filter_app, map_app. simpl. rewrite app_nil_r.
    destruct (admitted st); [done|].
    destruct H3 as (id & E1 & E2 & E3 & E4). exists id.
    split; [done|]. split; [done|]. split; [|done].
    by apply timer_of_app_old.
Qed.

Lemma clearReject_timers_wf id d st :
  timers_wf st → timer_of st id = Some (RejectCb, d) → timers_wf (clearTimeout id st).
Proof.
  intros (H1 & H2 & H3) Hid.
  unfold timers_wf. rewrite admit_timers_clear.
  assert (timers (clearTimeout id st) = filter (fun e => e.1 ≠ id) (timers st)
          ∧ nextTimer (clearTimeout id st) = nextTimer st
          ∧ room (clearTimeout id st) = room st
          ∧ roomCode (clearTimeout id st) = roomCode st
          ∧ admitted (clearTimeout id st) = admitted st
          ∧ admitTimeout (clearTimeout id st) = admitTimeout st)
    as (-> & -> & -> & -> & -> & ->).
  { unfold clearTimeout. by reads. }
  split; [|split; [done|]].
  - intros e He. apply list_elem_of_filter in He as [_ He]. by apply H1.
  - destruct (admitted st).
    + destruct H3 as [-> ->]. done.
    + destruct H3 as (id0 & E1 & E2 & E3 & E4). exists id0.
      assert (id ≠ id0) as Hne by (intros ->; congruence).
      split; [done|]. rewrite E2. split.
      * by rewrite filter_cons, decide_True by done.
      * split; [|done]. by rewrite timer_of_clear_ne.
Qed.

Lemma fireTimer_timers_wf id draws mic st :
  timers_wf st → timers_wf (fireTimer selfId id draws mic st).
Proof.
  intros Hwf. unfold fireTimer.
  destruct (timer_of st id) as [[[] d]|] eqn:Hid; [| |done].
  - (* the self-promotion timer *)
    pose proof Hwf as (H1 & H2 & H3).
    apply timer_of_admit_timers in Hid as Hin.
    destruct (admitted st) eqn:Hadm.
    { destruct H3 as [_ H3]. rewrite H3 in Hin. by apply elem_of_nil in Hin. }
    destruct H3 as (id0 & E1 & E2 & E3 & E4).
    rewrite E2 in Hin. apply list_elem_of_singleton in Hin as ->.
    unfold admitTimerFired.
    assert (admitted (clearTimeout id0 st) = false) as -> by (unfold clearTimeout; by reads).
    simpl.
    set (s := set_creatorId (Some selfId) (clearTimeout id0 st)).
    assert (admitted s = false ∧ admitTimeout s = Some id0 ∧ admit_timers s = []
            ∧ (∀ e, e ∈ timers s → e ∈ timers st) ∧ nextTimer s = nextTimer st
            ∧ room s = room st ∧ roomCode s = roomCode st) as (S1 & S2 & S3 & S4 & S5 & S6 & S7).
    { unfold s. split; [unfold clearTimeout; by reads|].
      split; [unfold clearTimeout; by reads|]. split.
      - unfold admit_timers. reads. fold (admit_timers (clearTimeout id0 st)).
        rewrite admit_timers_clear, E2.
        by rewrite filter_cons, decide_False by (by intros ?).
      - unfold clearTimeout. reads. split; [|done].
        intros e He. by apply list_elem_of_filter in He as [_ ?]. }
    destruct (clearAdmitTimeout_spec s) as (C1 & C2 & C3 & C4 & C5 & C6 & _).
    rewrite S2, S3 in C2. simpl in C2.
    rewrite admitSelf_not_admitted by done. cbv zeta.
    unfold timers_wf, admit_timers in *.
    destruct (localStream s && _); reads; rewrite C4, C5, C6, S5, S6, S7;
      (split; [by intros e He%C3%S4%H1|split; [done|done]]).
  - (* the recovery after a rejection *)
    unfold rejectTimerFired.
    pose proof (clearReject_timers_wf id d st Hwf Hid) as Hc.
    apply leaveRoom_timers_wf in Hc.
    apply createRoom_timers_wf; [done|].
    generalize (clearTimeout id st). intros s.
    destruct s as [? ? ? ? ? ? ? ? ? ? ? ? ? ? rm ? ? ? ? ? tmo ? ? ? ? ? ?].
    unfold leaveRoom, clearAdmitTimeout, clearTimeout, emit. simpl.
    destruct tmo, rm; simpl; done.
Qed.

(** Every event keeps the timer invariant. *)
Lemma handle_timers_wf ev st :
  timers_wf st → enabled selfId st ev = true → timers_wf (handle selfId ev st).
Proof.
  intros Hwf Hen.
  pose proof (plain_event_session ev st) as Hplain.
  destruct ev; try (by eapply timers_wf_same; [exact Hplain|]); simpl in *.
  - apply bool_decide_eq_true in Hen. by apply createRoom_timers_wf.
  - apply bool_decide_eq_true in Hen. by apply joinRoom_timers_wf.
  - by apply leaveRoom_timers_wf.
  - destruct msg; try (by eapply timers_wf_same; [exact Hplain|]); simpl.
    + by apply admitSelf_timers_wf.
    + case_bool_decide.
      * destruct approved; [by apply admitSelf_timers_wf|by apply reject_timers_wf].
      * destruct (admitted st); [|done].
        eapply timers_wf_same; [|exact Hwf].
        eapply same_session_trans; [|apply removeKnock_session].
        destruct approved; [apply moveKnockToPeers_session|apply same_session_refl].
  - by apply fireTimer_timers_wf.
Qed.

Lemma run_timers_wf evs : ∀ st,
  timers_wf st → admissible selfId evs st = true → timers_wf (run selfId evs st).
Proof.
  induction evs as [|ev evs IH]; intros st Hinv Hadm; simpl in *; [done|].
  apply andb_true_iff in Hadm as [Hen Hadm].
  apply IH; [|done]. by apply handle_timers_wf.
Qed.

(** What [admitSelf] leaves in the fields of the session. *)
Lemma admitSelf_session st :
  let st' := admitSelf selfId st in
  admitted st' = true
  ∧ creatorId st' = creatorId st ∧ room st' = room st ∧ roomCode st' = roomCode st
  ∧ (admitted st = false → view st' = Room ∧ selfId ∈ ids (peers st')).
Proof.
  cbv zeta. destruct (admitted st) eqn:Hadm.
  { unfold admitSelf. by rewrite Hadm. }
  rewrite admitSelf_not_admitted by done. cbv zeta.
  assert (creatorId (clearAdmitTimeout st) = creatorId st
          ∧ room (clearAdmitTimeout st) = room st
          ∧ roomCode (clearAdmitTimeout st) = roomCode st) as (C1 & C2 & C3).
  { unfold clearAdmitTimeout, clearTimeout. destruct (admitTimeout st); reads; done. }
  destruct (localStream st && _); reads; rewrite C1, C2, C3;
    (split; [done|]; split; [done|]; split; [done|]; split; [done|];
     intros _; split; [done|]; unfold ids; simpl; set_solver).
Qed.

(** What [createRoom] sets up, whatever the state it starts from. *)
Lemma createRoom_spec draws mic st :
  let st' := createRoom selfId draws mic st in
  room st' = Some (genCode draws) ∧ roomCode st' = genCode draws
  ∧ admitted st' = true ∧ creatorId st' = Some selfId ∧ myPeerId st' = selfId
  ∧ view st' = Room ∧ peers st' = [makePeer selfId (Some (username st))]
  ∧ effects st' = effects st ++ [TrysteroJoin (genCode draws)].
Proof.
  cbv zeta. unfold createRoom, setupRoom, initAudio, emit. cbv zeta.
  destruct st, mic; simpl; done.
Qed.

Lemma leaveRoom_username st : username (leaveRoom st) = username st.
Proof.
  destruct st as [? ? ? ? ? ? ? ? ? ? ? ? ? ? rm ? ? ? ? ? tmo ? ? ? ? ? ?].
  unfold leaveRoom, clearAdmitTimeout, clearTimeout, emit. simpl.
  destruct tmo, rm; simpl; done.
Qed.

(** A draw in the range of [Math.random] picks one character, so a room
    code has four. *)
Lemma pick_length m : (0 ≤ m < 2 ^ 53)%Z → String.length (pick m) = 1%nat.
Proof.
  intros Hm. unfold pick.
  assert (Z.to_nat (m * Z.of_nat (String.length chars) / 2 ^ 53) < 32)%nat as Hlt.
  { change (Z.of_nat (String.length chars)) with 32%Z.
    assert (0 ≤ m * 32 / 2 ^ 53 < 32)%Z; [|lia].
    split; [apply Z.div_pos; lia|]. apply Z.div_lt_upper_bound; lia. }
  revert Hlt. generalize (Z.to_nat (m * Z.of_nat (String.length chars) / 2 ^ 53)).
  intros n Hn.
  do 32 (destruct n as [|n]; [reflexivity|]). lia.
Qed.

Lemma string_length_append a b :
  String.length (String.append a b) = (String.length a + String.length b)%nat.
Proof. induction a as [|c a IH]; simpl; [done|]. by rewrite IH. Qed.

Lemma genCode_length m0 m1 m2 m3 :
  (0 ≤ m0 < 2 ^ 53)%Z → (0 ≤ m1 < 2 ^ 53)%Z →
  (0 ≤ m2 < 2 ^ 53)%Z → (0 ≤ m3 < 2 ^ 53)%Z →
  String.length (genCode (m0, m1, m2, m3)) = 4%nat.
Proof.
  intros H0 H1 H2 H3. unfold genCode.
  rewrite !string_length_append, !pick_length by done. done.
Qed.

Lemma init_timers_wf name : timers_wf (init name).
Proof.
  unfold timers_wf; simpl. split; [by intros e He%elem_of_nil|done].
Qed.

(** *** Whisper routing *)




































End OperationFacts.

(** C3.  Admission is idempotent.  For an admitted client an admitting
    signal (an ['admitted'] message, or a ['reply'] with [approved = true]
    addressed to its own id) changes nothing at all; and delivering the
    same approving ['reply'] for a peer a second time leaves the state,
    hence the roster and the pending knocks, as the first delivery left
    them. *)
Theorem admission_idempotent (selfId : string) (st : Net.State) (target from from' : string) :
  Net.admitted st = true →
  Net.getKnock selfId Net.MsgAdmitted from st = st
  ∧ Net.getKnock selfId (Net.MsgReply selfId true) from st = st
  ∧ (let once := Net.getKnock selfId (Net.MsgReply target true) from st in
     let twice := Net.getKnock selfId (Net.MsgReply target true) from' once in
     twice = once
     ∧ Net.peers twice = Net.peers once
     ∧ Net.pendingKnocks twice = Net.pendingKnocks once).
Proof.
  intros Hadm.
  assert (Net.admitSelf selfId st = st) as Hself.
  { unfold Net.admitSelf. by rewrite Hadm. }
  split; [done|]. split.
  { simpl. by rewrite bool_decide_true. }
  cbv zeta.
  assert (Net.getKnock selfId (Net.MsgReply target true) from'
            (Net.getKnock selfId (Net.MsgReply target true) from st)
          = Net.getKnock selfId (Net.MsgReply target true) from st) as Heq.
  { simpl. case_bool_decide as Ht.
    - rewrite Hself. by rewrite Hself.
    - rewrite Hadm. simpl.
      assert (Net.admitted (Net.removeKnock target (Net.moveKnockToPeers target st)) = true)
        as ->.
      { unfold Net.removeKnock, Net.moveKnockToPeers.
        destruct (Net.has_peer _ _); reads; done. }
      rewrite (moveKnockToPeers_present target
                 (Net.removeKnock target (Net.moveKnockToPeers target st))).
      + apply removeKnock_idem.
      + unfold Net.removeKnock. reads. apply moveKnockToPeers_has. }
  by rewrite Heq.
Qed.

(** C4.  Switching knocking off admits everyone who is pending.  When the
    creator disables knocking with [toggleKnockMode], and when any client
    receives a ['mode'] message with [enabled = false], every pending
    knock becomes a roster entry (the old roster is kept, the new entries
    carry the knock's id and user name) and the pending list is emptied;
    the creator also sends an approving ['reply'] for each of them. *)
Theorem mode_off_admits_pending (selfId : string) (st : Net.State) :
  (Net.creatorId st = Some (Net.myPeerId st) → Net.knockEnabled st = true →
     Net.knocks_admitted st (Net.toggleKnockMode selfId st)
     ∧ (Net.actions st = true →
        ∀ k, k ∈ Net.pendingKnocks st →
          Net.SendKnock (Net.MsgReply (Net.Knock.peerId k) true) None
            ∈ Net.effects (Net.toggleKnockMode selfId st)))
  ∧ (∀ creator from,
       Net.knocks_admitted st (Net.getKnock selfId (Net.MsgMode false creator) from st)).
Proof.
  assert (∀ s s' : Net.State,
            Net.peers s = Net.peers st → Net.pendingKnocks s = Net.pendingKnocks st →
            Net.knocks_admitted s s' → Net.knocks_admitted st s') as Hfrom.
  { intros s s' Hp Hk. unfold Net.knocks_admitted. by rewrite Hp, Hk. }
  assert (∀ m t s s', Net.knocks_admitted s s' →
            Net.knocks_admitted s (Net.sendKnock m t s')) as Hsend.
  { intros m t s s'. unfold Net.knocks_admitted, Net.sendKnock, Net.emit.
    destruct (Net.actions s'); reads; done. }
  split.
  - intros Hcr Hen. unfold Net.toggleKnockMode. rewrite Hcr, bool_decide_true by done.
    rewrite Hen. simpl negb. cbv zeta. rewrite andb_true_l. split.
    + apply Hsend. apply (Hfrom (Net.set_knockEnabled false st)); [by reads..|].
      apply (drain_knocks
               (fun k s => Net.sendKnock (Net.MsgReply (Net.Knock.peerId k) true) None s)).
      * intros k s. unfold Net.sendKnock, Net.emit. destruct (Net.actions s); by destruct s.
      * by reads.
    + intros Hact k Hk.
      destruct (toggle_fold_sent (Net.pendingKnocks st) (Net.set_knockEnabled false st))
        as (Hact' & _ & Hsent); [by reads|].
      replace (Net.pendingKnocks (Net.set_knockEnabled false st))
        with (Net.pendingKnocks st) by (by reads).
      destruct (Net.pendingKnocks st) as [|k0 ks0] eqn:Hks;
        [by apply elem_of_nil in Hk|].
      rewrite <- Hks in *. replace (0 <? length (Net.pendingKnocks st))%nat with true
        by (rewrite Hks; done).
      unfold Net.sendKnock at 1, Net.emit. reads. rewrite Hact'. reads.
      apply elem_of_app. left. by apply Hsent.
  - intros creator from. simpl. unfold Net.moveAllKnocks.
    apply (Hfrom (Net.set_creatorId (Some creator) (Net.set_knockEnabled false st)));
      [by reads..|].
    apply (drain_knocks (fun _ s => s)).
    + intros k s. by destruct s.
    + by reads.
Qed.

Lemma mode_off_admits_pending_witness :
  let st := Net.run "me" [Net.EvCreateRoom (0, 0, 0, 0)%Z true; Net.EvToggleKnockMode;
                          Net.EvPeerJoin "B"; Net.EvPeerJoin "C"] (Net.init "u") in
  Net.knocks_admitted st (Net.toggleKnockMode "me" st)
  ∧ (∀ k, k ∈ Net.pendingKnocks st →
       Net.SendKnock (Net.MsgReply (Net.Knock.peerId k) true) None
         ∈ Net.effects (Net.toggleKnockMode "me" st)).
Proof.
  intros st.
  destruct (mode_off_admits_pending "me" st) as [H _].
  destruct (H eq_refl eq_refl) as [H1 H2].
  split; [exact H1 | exact (H2 eq_refl)].
Defined.

Lemma admission_idempotent_witness :
  let st := Net.run "me" [Net.EvCreateRoom (0, 0, 0, 0)%Z true; Net.EvToggleKnockMode;
                          Net.EvPeerJoin "B"] (Net.init "u") in
  Net.getKnock "me" Net.MsgAdmitted "B" st = st
  ∧ Net.getKnock "me" (Net.MsgReply "me" true) "B" st = st
  ∧ (let once := Net.getKnock "me" (Net.MsgReply "B" true) "B" st in
     let twice := Net.getKnock "me" (Net.MsgReply "B" true) "D" once in
     twice = once
     ∧ Net.peers twice = Net.peers once
     ∧ Net.pendingKnocks twice = Net.pendingKnocks once).
Proof.
  intros st. apply (admission_idempotent "me" st "B" "B" "D"). reflexivity.
Defined.

(** C10.  [resolveKnock] does not ask for a pending knock.  For an id that
    is not pending it still sends the ['reply'] (over the bound actions of
    the session), and an approval of an id that is not in the roster
    appends a peer whose user name is the bare id; the pending list is
    left as it was. *)
Theorem resolveKnock_without_knock (st : Net.State) (peerId : string) (approved : bool) :
  peerId ∉ Net.knock_ids (Net.pendingKnocks st) →
  let st' := Net.resolveKnock peerId approved st in
  (Net.actions st = true →
     Net.effects st' = Net.effects st ++ [Net.SendKnock (Net.MsgReply peerId approved) None])
  ∧ (approved = true → peerId ∉ Net.ids (Net.peers st) →
     Net.peers st' = Net.peers st ++ [Net.Peer.mk peerId peerId false false None])
  ∧ Net.pendingKnocks st' = Net.pendingKnocks st.
Proof.
  intros Hk. cbv zeta. unfold Net.resolveKnock.
  set (st1 := Net.sendKnock _ _ st).
  assert (Net.peers st1 = Net.peers st ∧ Net.pendingKnocks st1 = Net.pendingKnocks st
          ∧ (Net.actions st = true →
             Net.effects st1 = Net.effects st ++ [Net.SendKnock (Net.MsgReply peerId approved) None]))
    as (Hp & Hpk & He).
  { unfold st1, Net.sendKnock, Net.emit. destruct (Net.actions st); reads; done. }
  assert (Net.pendingKnocks (if approved then Net.moveKnockToPeers peerId st1 else st1)
          = Net.pendingKnocks st) as Hpk'.
  { destruct approved; [|done].
    unfold Net.moveKnockToPeers. destruct (Net.has_peer _ _); reads; done. }
  split; [|split].
  - intros Hact. unfold Net.removeKnock. reads. destruct approved; [|by apply He].
    unfold Net.moveKnockToPeers. destruct (Net.has_peer _ _); reads; by apply He.
  - intros -> Hnot. unfold Net.removeKnock. reads.
    rewrite moveKnockToPeers_peers, Hp.
    apply has_peer_false in Hnot. rewrite Hnot, Hpk.
    by rewrite find_knock_None.
  - rewrite removeKnock_absent; [done|]. by rewrite Hpk'.
Qed.

Lemma resolveKnock_without_knock_witness :
  let st := Net.run "me" [Net.EvCreateRoom (0, 0, 0, 0)%Z true; Net.EvPeerJoin "B"]
              (Net.init "u") in
  let st' := Net.resolveKnock "Z" true st in
  (Net.effects st' = Net.effects st ++ [Net.SendKnock (Net.MsgReply "Z" true) None])
  ∧ Net.peers st' = Net.peers st ++ [Net.Peer.mk "Z" "Z" false false None]
  ∧ Net.pendingKnocks st' = Net.pendingKnocks st.
Proof.
  intros st.
  destruct (resolveKnock_without_knock st "Z" true) as (H1 & H2 & H3).
  - vm_compute. apply not_elem_of_nil.
  - split; [exact (H1 eq_refl)|]. split; [|exact H3].
    apply H2; [reflexivity|]. vm_compute.
    intros H. apply elem_of_cons in H as [H|H]; [discriminate|].
    apply elem_of_cons in H as [H|H]; [discriminate|].
    by apply elem_of_nil in H.
Defined.

(** The room module never writes [knockWaiting]. *)
Lemma knockWaiting_untouched (selfId : string) (ev : Net.Event) (st : Net.State) :
  Net.knockWaiting (Net.handle selfId ev st) = Net.knockWaiting st.
Proof.
  assert (∀ A (f : Net.State → A → Net.State) (l : list A) s,
            (∀ s a, Net.knockWaiting (f s a) = Net.knockWaiting s) →
            Net.knockWaiting (fold_left f l s) = Net.knockWaiting s) as Hfold.
  { intros A f l. induction l as [|a l IH]; intros s Hf; simpl; [done|].
    by rewrite IH, Hf. }
  assert (∀ id s, Net.knockWaiting (Net.moveKnockToPeers id s) = Net.knockWaiting s) as Hmove.
  { intros id s. unfold Net.moveKnockToPeers. split_conds; reads; done. }
  assert (∀ m t s, Net.knockWaiting (Net.sendKnock m t s) = Net.knockWaiting s) as Hsend.
  { intros m t s. unfold Net.sendKnock, Net.emit. split_conds; reads; done. }
  assert (∀ s, Net.knockWaiting (Net.clearAdmitTimeout s) = Net.knockWaiting s) as Hclr.
  { intros s. unfold Net.clearAdmitTimeout, Net.clearTimeout. split_conds; reads; done. }
  assert (∀ s, Net.knockWaiting (Net.admitSelf selfId s) = Net.knockWaiting s) as Hadmit.
  { intros s. destruct (Net.admitted s) eqn:E.
    - unfold Net.admitSelf. by rewrite E.
    - rewrite admitSelf_not_admitted by done. cbv zeta.
      split_conds; reads; apply Hclr. }
  assert (∀ s, Net.knockWaiting (Net.leaveRoom s) = Net.knockWaiting s) as Hleave.
  { intros s. destruct s. unfold Net.leaveRoom, Net.clearAdmitTimeout. simpl.
    split_conds; reads; done. }
  assert (∀ c s, Net.knockWaiting (Net.setupRoom selfId c s) = Net.knockWaiting s) as Hsetup.
  { intros c s. unfold Net.setupRoom, Net.emit. cbv zeta. split_conds; reads; done. }
  assert (∀ m s, Net.knockWaiting (Net.initAudio m s) = Net.knockWaiting s) as Hinit.
  { intros m s. unfold Net.initAudio. split_conds; reads; done. }
  assert (∀ d m s, Net.knockWaiting (Net.createRoom selfId d m s) = Net.knockWaiting s)
    as Hcreate.
  { intros d m s. unfold Net.createRoom. cbv zeta. reads. rewrite Hsetup, Hinit. by reads. }
  assert (∀ id u s, Net.knockWaiting (Net.updatePeer id u s) = Net.knockWaiting s) as Hupd.
  { intros id u s. unfold Net.updatePeer. by reads. }
  destruct ev; simpl.
  - apply Hcreate.
  - unfold Net.joinRoom, Net.setTimeout. cbv zeta. destruct (negb _); [done|]. reads.
    rewrite Hsetup, Hinit. by reads.
  - apply Hleave.
  - unfold Net.onPeerJoin, Net.emit. cbv zeta.
    split_conds; reads; rewrite ?Hsend; reads; rewrite ?Hsend; reads; done.
  - unfold Net.onPeerLeave, Net.removeKnock. cbv zeta. split_conds; reads; done.
  - unfold Net.onPeerStream. by reads.
  - unfold Net.getUsername. cbv zeta. split_conds; reads; apply Hupd.
  - apply Hupd.
  - apply Hupd.
  - apply Hupd.
  - apply Hupd.
  - destruct msg; simpl; [done| |apply Hadmit|].
    + destruct (_ && _); reads; [|done]. unfold Net.moveAllKnocks.
      rewrite Hfold; [by reads|]. intros; apply Hmove.
    + case_bool_decide.
      * destruct approved; [apply Hadmit|]. unfold Net.setTimeout. by reads.
      * destruct (Net.admitted st); [|done]. unfold Net.removeKnock. reads.
        destruct approved; [apply Hmove|done].
  - unfold Net.fireTimer. destruct (Net.timer_of st id) as [[[] ?]|]; [| |done].
    + unfold Net.admitTimerFired, Net.clearTimeout. split_conds; reads; [|done].
      rewrite Hadmit. by reads.
    + unfold Net.rejectTimerFired. rewrite Hcreate, Hleave.
      unfold Net.clearTimeout. by reads.
  - unfold Net.whisperStart. destruct (Net.noMic st); [done|].
    destruct (_ || _); [done|]. unfold Net.startWhisper, Net.emit.
    destruct (Net.cannot_route _); reads; [done|].
    rewrite Hfold; [by reads|]. intros s0 p0. unfold Net.routeForWhisper, Net.emit.
    split_conds; reads; done.
  - unfold Net.whisperStop. destruct (Net.whisperTarget st); [|done].
    destruct (Net.truthy _); [|done]. unfold Net.stopWhisper, Net.emit.
    destruct (Net.cannot_route _); reads; [done|].
    rewrite Hfold; [by reads|]. intros s0 p0. unfold Net.routeBack, Net.emit.
    split_conds; reads; done.
  - unfold Net.pttStart, Net.sendTalkingState, Net.setTalking, Net.emit.
    split_conds; reads; done.
  - unfold Net.pttStop, Net.sendTalkingState, Net.setTalking, Net.emit.
    split_conds; reads; done.
  - unfold Net.toggleKnockMode. cbv zeta. destruct (negb _); [done|].
    rewrite Hsend. destruct (_ && _); reads; [|done].
    rewrite Hfold; [by reads|]. intros s0 k0. by rewrite Hmove, Hsend.
  - unfold Net.resolveKnock, Net.removeKnock. cbv zeta. reads.
    destruct approved; by rewrite ?Hmove, Hsend.
  - unfold Net.sendRename, Net.emit. split_conds; reads; done.
  - unfold Net.visibilityChange, Net.emit. destruct (negb _); [done|].
    rewrite Hupd. by reads.
Qed.

(** C8.  The roster holds at most one entry per id.  Every event of the
    event loop keeps the roster invariant; joining, [moveKnockToPeers] and
    [updatePeer] keep a roster free of repetitions whatever the state;
    [admitSelf] builds one from the peers seen before admission; hence no
    run from the initial state leads to two roster entries with one id. *)
Theorem roster_has_one_entry_per_id (selfId name : string) :
  (∀ st ev, Net.roster_unique selfId st → Net.enabled selfId st ev = true →
            Net.roster_unique selfId (Net.handle selfId ev st))
  ∧ (∀ st id u, NoDup (Net.ids (Net.peers st)) →
       NoDup (Net.ids (Net.peers (Net.onPeerJoin selfId id st)))
       ∧ NoDup (Net.ids (Net.peers (Net.moveKnockToPeers id st)))
       ∧ NoDup (Net.ids (Net.peers (Net.updatePeer id u st))))
  ∧ (∀ st, Net.roster_unique selfId st →
       NoDup (Net.ids (Net.peers (Net.admitSelf selfId st))))
  ∧ (∀ evs, Net.admissible selfId evs (Net.init name) = true →
       NoDup (Net.ids (Net.peers (Net.run selfId evs (Net.init name))))).
Proof.
  split; [|split; [|split]].
  - intros st ev. apply handle_roster_unique.
  - intros st id u Hnd. split; [|split].
    + rewrite onPeerJoin_peers.
      destruct (Net.admitted st), (Net.knockEnabled st); simpl; try done.
      destruct (Net.has_peer (Net.peers st) id) eqn:E; simpl; [done|].
      apply has_peer_false in E. rewrite ids_app.
      apply NoDup_app. split; [done|]. split; [|apply NoDup_singleton].
      intros x Hx Hx'. apply list_elem_of_singleton in Hx'. by subst.
    + by apply moveKnockToPeers_NoDup.
    + by rewrite updatePeer_ids.
  - intros st Hinv. by apply admitSelf_roster_unique in Hinv as [? _].
  - intros evs Hadm.
    by destruct (run_roster_unique selfId evs (Net.init name)
                   (init_roster_unique selfId name) Hadm) as [? _].
Qed.

Lemma roster_has_one_entry_per_id_witness :
  let evs := [Net.EvJoinRoom "abcd" true; Net.EvPeerJoin "A"; Net.EvPeerJoin "A";
              Net.EvUsername "ann" "A"; Net.EvKnock Net.MsgAdmitted "A";
              Net.EvPeerJoin "A"; Net.EvKnock (Net.MsgReply "A" true) "B";
              Net.EvPeerJoin "B"] in
  NoDup (Net.ids (Net.peers (Net.run "me" evs (Net.init "u")))).
Proof.
  intros evs.
  destruct (roster_has_one_entry_per_id "me" "u") as (_ & _ & _ & H).
  apply (H evs). vm_compute. reflexivity.
Defined.




(* ================================================================== *)
(** * The presence store: subscriptions, silent and nested batches *)
(* ================================================================== *)

Section StoreMore.
Import Store.

Lemma store_eta s : mkStore (target s) (subscribers s) (batching s) (pendingChanges s) = s.
Proof. by destruct s. Qed.

Lemma set_store p v s :
  target (set p v s).1
  = (if strict_eq (read (target s) p) v then target s else <[p := v]> (target s))
  ∧ subscribers (set p v s).1 = subscribers s
  ∧ batching (set p v s).1 = batching s.
Proof.
  destruct s as [t subs b pend]. unfold set, get, notify. simpl.
  destruct (strict_eq _ _); [done|]. by destruct b.
Qed.

(** What a body leaves in the fields does not depend on batching. *)
Lemma assign_all_target ws : ∀ s,
  target (assign_all ws s).1 = target_after (target s) ws
  ∧ subscribers (assign_all ws s).1 = subscribers s
  ∧ batching (assign_all ws s).1 = batching s.
Proof.
  induction ws as [|[p v] ws IH]; intros s; simpl; [done|].
  destruct (set_store p v s) as (H1 & H2 & H3).
  destruct (set p v s) as [s1 c1]. specialize (IH s1).
  destruct (assign_all ws s1) as [s2 c2]. simpl in *.
  rewrite H1, H2, H3 in IH. by destruct (strict_eq _ _).
Qed.

Lemma batch_store ws s :
  target (batch ws s).1 = target_after (target s) ws
  ∧ subscribers (batch ws s).1 = subscribers s
  ∧ batching (batch ws s).1 = false
  ∧ pendingChanges (batch ws s).1 = [].
Proof.
  unfold batch.
  destruct (assign_all_target ws (with_batching true s)) as (H1 & H2 & H3).
  destruct (assign_all ws (with_batching true s)) as [s2 c2]. simpl in *. done.
Qed.

Lemma target_after_unchanged t ws : effective t ws = [] → target_after t ws = t.
Proof.
  revert t. induction ws as [|[p v] ws IH]; intros t; simpl; [done|].
  destruct (strict_eq (read t p) v); [apply IH|done].
Qed.

(** A subscriber is called once per time it is listed. *)
Lemma received_fire_listed g subs c :
  received g (fire subs c) = map (fun _ => c) (filter (fun h => h = g) subs).
Proof.
  unfold received, fire. induction subs as [|h subs IH]; [done|].
  cbn [map]. rewrite !filter_cons. cbn [fst].
  destruct (decide (h = g)); cbn [map snd]; [f_equal|]; apply IH.
Qed.

Lemma filter_unsubscribed fn g (subs : list nat) :
  g ≠ fn → filter (fun h => h = g) (filter (fun h => h ≠ fn) subs) = filter (fun h => h = g) subs.
Proof.
  intros Hne. induction subs as [|h subs IH]; [done|].
  rewrite !filter_cons. destruct (decide (h ≠ fn)) as [Hh|Hh].
  - rewrite filter_cons. by rewrite IH.
  - apply dec_stable in Hh. subst h. by rewrite decide_False by congruence.
Qed.

Lemma received_fire_filter fn g subs c :
  g ≠ fn → received g (fire (filter (fun h => h ≠ fn) subs) c) = received g (fire subs c).
Proof. intros Hne. by rewrite !received_fire_listed, filter_unsubscribed. Qed.

Lemma received_fire_absent fn subs c : fn ∉ subs → received fn (fire subs c) = [].
Proof.
  intros Hin. rewrite received_fire_listed.
  induction subs as [|h subs IH]; [done|].
  apply not_elem_of_cons in Hin as [Hne Hin].
  rewrite filter_cons, decide_False by congruence. by apply IH.
Qed.

Lemma received_deliver_filter fn g subs m :
  g ≠ fn →
  received g (deliver (filter (fun h => h ≠ fn) subs) m) = received g (deliver subs m).
Proof.
  intros Hne. unfold deliver. induction m as [|c m IH]; simpl; [done|].
  by rewrite !received_app, received_fire_filter, IH.
Qed.

Lemma received_deliver_absent fn subs m : fn ∉ subs → received fn (deliver subs m) = [].
Proof.
  intros Hin. unfold deliver. induction m as [|c m IH]; simpl; [done|].
  by rewrite received_app, received_fire_absent, IH.
Qed.

Lemma not_elem_of_unsubscribed fn (subs : list nat) : fn ∉ filter (fun g => g ≠ fn) subs.
Proof. by intros [? ?]%list_elem_of_filter. Qed.

(** The calls of a batch, whatever was pending before. *)
Lemma batch_calls ws s :
  (batch ws s).2
  = deliver (subscribers s) (coalesce (pendingChanges s ++ recorded (target s) ws)).
Proof.
  destruct s as [t subs b pend]. unfold batch, with_batching. simpl.
  rewrite assign_all_batching. simpl. done.
Qed.

Lemma set_changed p v s :
  batching s = false → read (target s) p ≠ v →
  (set p v s).2 = fire (subscribers s) (mkChange p v (read (target s) p)).
Proof.
  destruct s as [t subs b pend]. simpl. intros -> Hne.
  unfold set, get, notify. simpl. by rewrite (proj2 (strict_eq_false _ _)).
Qed.

Lemma subscribe_NoDup fns : ∀ s,
  NoDup (subscribers s) →
  let s' := fold_left (fun s f => subscribe f s) fns s in
  NoDup (subscribers s')
  ∧ (∀ f, f ∈ subscribers s' ↔ (f ∈ subscribers s) ∨ (f ∈ fns))
  ∧ target s' = target s ∧ batching s' = batching s ∧ pendingChanges s' = pendingChanges s.
Proof.
  induction fns as [|f fns IH]; intros s Hnd; simpl.
  - split; [done|]. split; [set_solver|done].
  - assert (NoDup (subscribers (subscribe f s))
            ∧ (∀ g, g ∈ subscribers (subscribe f s) ↔ (g ∈ subscribers s) ∨ g = f)
            ∧ target (subscribe f s) = target s ∧ batching (subscribe f s) = batching s
            ∧ pendingChanges (subscribe f s) = pendingChanges s) as (H1 & H2 & H3 & H4 & H5).
    { unfold subscribe. case_bool_decide as Hin; simpl.
      - split; [done|]. split; [set_solver|done].
      - split; [|split; [set_solver|done]].
        apply NoDup_app. split; [done|]. split; [|apply NoDup_singleton].
        intros x Hx Hx'. apply list_elem_of_singleton in Hx'. by subst. }
    destruct (IH _ H1) as (I1 & I2 & I3 & I4 & I5).
    split; [done|]. split; [|by rewrite I3, I4, I5].
    intros g. rewrite I2, H2. set_solver.
Qed.

End StoreMore.

Section NestedBatch.
Import Store.

Lemma exec_all_flat ws s : exec_all (flat ws) s = assign_all ws s.
Proof.
  revert s. induction ws as [|[p v] ws IH]; intros s; simpl; [done|].
  destruct (set p v s) as [s1 c1]. by rewrite IH.
Qed.

Lemma exec_all_app b1 b2 s :
  exec_all (b1 ++ b2) s
  = ((exec_all b2 (exec_all b1 s).1).1,
     (exec_all b1 s).2 ++ (exec_all b2 (exec_all b1 s).1).2).
Proof.
  revert s. induction b1 as [|c b1 IH]; intros s; simpl.
  - by destruct (exec_all b2 s).
  - destruct (exec c s) as [s1 c1]. rewrite IH.
    destruct (exec_all b1 s1) as [s2 c2]. simpl. by rewrite app_assoc.
Qed.

Lemma exec_all_cons c body s :
  exec_all (c :: body) s
  = ((exec_all body (exec c s).1).1, (exec c s).2 ++ (exec_all body (exec c s).1).2).
Proof.
  simpl. destruct (exec c s) as [s1 c1]. simpl. by destruct (exec_all body s1).
Qed.

Lemma exec_Batch body s :
  exec (Batch body) s
  = let r := exec_all body (with_batching true s) in
    let s3 := with_batching false r.1 in
    (with_pending [] s3, r.2 ++ deliver (subscribers s3) (coalesce (pendingChanges s3))).
Proof.
  cbn [exec]. cbv zeta.
  assert (∀ s0,
    (fix exec_all (body0 : list stmt) (s1 : store) {struct body0} : store * list call :=
       match body0 with
       | [] => (s1, [])
       | c :: body' =>
           let '(s2, c1) := exec c s1 in
           let '(s3, c2) := exec_all body' s2 in (s3, c1 ++ c2)
       end) body s0 = exec_all body s0) as ->.
  { induction body as [|c body IH]; intros s0; [done|].
    cbn [exec_all]. destruct (exec c s0) as [s1 c1]. by rewrite IH. }
  by destruct (exec_all body _).
Qed.

Lemma batch_of_flat ws s : exec (Batch (flat ws)) s = batch ws s.
Proof.
  rewrite exec_Batch. cbv zeta. rewrite exec_all_flat. unfold batch.
  by destruct (assign_all ws _).
Qed.

Lemma batch_explicit ws t subs b pend :
  batch ws (mkStore t subs b pend)
  = (mkStore (target_after t ws) subs false [],
     deliver subs (coalesce (pend ++ recorded t ws))).
Proof. unfold batch, with_batching. simpl. by rewrite assign_all_batching. Qed.

Lemma target_after_app ws1 ws2 : ∀ t,
  target_after t (ws1 ++ ws2) = target_after (target_after t ws1) ws2.
Proof.
  induction ws1 as [|[p v] ws1 IH]; intros t; simpl; [done|].
  by destruct (strict_eq _ _).
Qed.

Lemma recorded_app ws1 ws2 : ∀ t,
  recorded t (ws1 ++ ws2) = recorded t ws1 ++ recorded (target_after t ws1) ws2.
Proof.
  induction ws1 as [|[p v] ws1 IH]; intros t; simpl; [done|].
  destruct (strict_eq _ _); [done|]. simpl. by rewrite IH.
Qed.

(** Outside a batch a body queues nothing. *)
Lemma assign_all_idle ws : ∀ s,
  batching s = false →
  batching (assign_all ws s).1 = false
  ∧ pendingChanges (assign_all ws s).1 = pendingChanges s.
Proof.
  induction ws as [|[p v] ws IH]; intros s Hb; simpl; [done|].
  assert (batching (set p v s).1 = false
          ∧ pendingChanges (set p v s).1 = pendingChanges s) as [H1 H2].
  { destruct s as [t subs b pend]. simpl in Hb. subst b.
    unfold set, get, notify. simpl. by destruct (strict_eq _ _). }
  destruct (set p v s) as [s1 c1]. specialize (IH s1 H1).
  destruct (assign_all ws s1) as [s2 c2]. simpl in *. by rewrite <- H2.
Qed.

End NestedBatch.

(** X1.  A batch only defers the notifications: whatever the store was
    doing, the fields end with the contents the same assignments leave
    without a batch, every field holding the last value assigned to it (or
    what it held, if none was); and the store is left not batching, with
    nothing pending and the same subscribers. *)
Theorem batch_leaves_last_values (ws : Store.writes) (s : Store.store) (p : string) :
  Store.get (Store.batch ws s).1 p = Store.get (Store.assign_all ws s).1 p
  ∧ Store.get (Store.batch ws s).1 p
    = default (Store.get s p) (last (Store.assigned_to p ws))
  ∧ Store.batching (Store.batch ws s).1 = false
  ∧ Store.pendingChanges (Store.batch ws s).1 = []
  ∧ Store.subscribers (Store.batch ws s).1 = Store.subscribers s.
Proof.
  destruct (batch_store ws s) as (H1 & H2 & H3 & H4).
  destruct (assign_all_target ws s) as (H5 & _).
  unfold Store.get. rewrite H1, H5, target_after_last. done.
Qed.

(** X2.  A batch in which every assignment gives a field the value it holds
    at that moment calls nobody and leaves the store as it was. *)
Theorem batch_without_change_is_silent (ws : Store.writes) (s : Store.store) :
  Store.batching s = false → Store.pendingChanges s = [] →
  Store.effective (Store.target s) ws = [] →
  Store.batch ws s = (s, []).
Proof.
  intros Hb Hp He. rewrite batch_closed_form by done.
  unfold Store.first_changed. rewrite He, target_after_unchanged by done. simpl.
  f_equal. destruct s; simpl in *. by subst.
Qed.

Lemma batch_without_change_is_silent_witness :
  let s := Store.mkStore (<["peers" := Store.VRef 1]> (<["isTalking" := Store.VBool false]> ∅))
                         [3; 4] false [] in
  Store.batch [("isTalking", Store.VBool false); ("peers", Store.VRef 1);
               ("isTalking", Store.VBool false)] s = (s, []).
Proof.
  intros s.
  apply (batch_without_change_is_silent
           [("isTalking", Store.VBool false); ("peers", Store.VRef 1);
            ("isTalking", Store.VBool false)] s); reflexivity.
Defined.

(** X3.  The subscribers are a set: however often and in whatever order
    functions subscribe, each of them is called exactly once by an
    assignment outside a batch that changes a field, with the new and the
    old value, and exactly once per changed field by a batch. *)
Theorem subscribers_called_once (fns : list nat) (t : gmap string Store.value)
    (fn : nat) (p : string) (v : Store.value) (ws : Store.writes) :
  fn ∈ fns →
  let s := fold_left (fun s f => Store.subscribe f s) fns (Store.mkStore t [] false []) in
  NoDup (Store.subscribers s)
  ∧ (Store.read t p ≠ v →
     Store.received fn (Store.set p v s).2 = [Store.mkChange p v (Store.read t p)])
  ∧ map Store.c_prop (Store.received fn (Store.batch ws s).2)
    = Store.first_occurrences [] (map fst (Store.effective t ws)).
Proof.
  intros Hin. cbv zeta.
  destruct (subscribe_NoDup fns (Store.mkStore t [] false []) (NoDup_nil_2))
    as (H1 & H2 & H3 & H4 & H5).
  set (s := fold_left _ _ _) in *. simpl in *.
  assert (fn ∈ Store.subscribers s) as Hfn by (apply H2; by right).
  split; [done|]. split.
  - intros Hne. rewrite set_changed by (by rewrite ?H3).
    rewrite H3. by apply received_fire.
  - rewrite batch_closed_form by done. simpl. rewrite received_deliver by done.
    rewrite map_map. simpl. rewrite map_id. unfold Store.first_changed. by rewrite H3.
Qed.

Lemma subscribers_called_once_witness :
  let s := fold_left (fun s f => Store.subscribe f s) [5; 6; 5; 5]
             (Store.mkStore (<["view" := Store.VStr "loading"]> ∅) [] false []) in
  Store.subscribers s = [5; 6]
  ∧ Store.received 5 (Store.set "view" (Store.VStr "room") s).2
    = [Store.mkChange "view" (Store.VStr "room") (Store.VStr "loading")].
Proof.
  intros s. split; [reflexivity|].
  destruct (subscribers_called_once [5; 6; 5; 5] (<["view" := Store.VStr "loading"]> ∅)
              5 "view" (Store.VStr "room") []) as (_ & H & _); [left|].
  apply H. vm_compute. discriminate.
Defined.

(** X4.  The function [subscribe] hands back ends the subscription: after
    it ran, the subscriber is called by no assignment and no batch, every
    other subscriber is called exactly as before, and the fields are not
    touched; for a subscriber that was not subscribed before, subscribing
    and unsubscribing leaves the store as it was. *)
Theorem unsubscribe_ends_notifications (fn : nat) (s : Store.store) :
  let s' := Store.unsubscribe fn s in
  (∀ p v, Store.received fn (Store.set p v s').2 = [])
  ∧ (∀ ws, Store.received fn (Store.batch ws s').2 = [])
  ∧ (∀ g p v, g ≠ fn →
       Store.received g (Store.set p v s').2 = Store.received g (Store.set p v s).2)
  ∧ (∀ g ws, g ≠ fn →
       Store.received g (Store.batch ws s').2 = Store.received g (Store.batch ws s).2)
  ∧ Store.target s' = Store.target s
  ∧ (fn ∉ Store.subscribers s → Store.unsubscribe fn (Store.subscribe fn s) = s).
Proof.
  cbv zeta. destruct s as [t subs b pend].
  unfold Store.unsubscribe, Store.with_subscribers. simpl.
  split; [|split; [|split; [|split; [|split]]]].
  - intros p v. unfold Store.set, Store.get, Store.notify. simpl.
    destruct (Store.strict_eq _ _); [done|]. destruct b; simpl; [done|].
    apply received_fire_absent, not_elem_of_unsubscribed.
  - intros ws. rewrite batch_calls. simpl.
    apply received_deliver_absent, not_elem_of_unsubscribed.
  - intros g p v Hne. unfold Store.set, Store.get, Store.notify. simpl.
    destruct (Store.strict_eq _ _); [done|]. destruct b; simpl; [done|].
    by apply received_fire_filter.
  - intros g ws Hne. rewrite !batch_calls. simpl. by apply received_deliver_filter.
  - done.
  - intros Hin. unfold Store.subscribe. simpl. rewrite bool_decide_false by done. simpl.
    f_equal. rewrite filter_app, filter_cons, decide_False by (by intros ?).
    rewrite filter_nil, app_nil_r.
    clear -Hin. induction subs as [|h subs IH]; [done|].
    apply not_elem_of_cons in Hin as [Hne Hin].
    rewrite filter_cons, decide_True by congruence. by rewrite IH.
Qed.

Lemma unsubscribe_ends_notifications_witness :
  let s := Store.mkStore (<["view" := Store.VStr "loading"]> ∅) [1] false [] in
  Store.unsubscribe 2 (Store.subscribe 2 s) = s
  ∧ Store.received 2 (Store.set "view" (Store.VStr "room") (Store.subscribe 2 s)).2
    = [Store.mkChange "view" (Store.VStr "room") (Store.VStr "loading")]
  ∧ Store.received 2 (Store.set "view" (Store.VStr "room")
                        (Store.unsubscribe 2 (Store.subscribe 2 s))).2 = [].
Proof.
  intros s.
  destruct (unsubscribe_ends_notifications 2 s) as (_ & _ & _ & _ & _ & H).
  destruct (unsubscribe_ends_notifications 2 (Store.subscribe 2 s)) as (H1 & _).
  split; [|split; [reflexivity|apply H1]].
  apply H. vm_compute. intros [E|E]%elem_of_cons; [discriminate|by apply elem_of_nil in E].
Defined.

(** X5.  Batches do not nest.  A body that calls [batch] again is one batch
    up to the end of the inner call: the inner call delivers, coalesced,
    everything the body assigned so far together with its own
    assignments, and switches batching off; what the body assigns after
    it is notified assignment by assignment, as outside any batch, and the
    end of the outer batch has nothing left to deliver. *)
Theorem inner_batch_ends_the_batch (ws1 inner ws2 : Store.writes) (s : Store.store) :
  Store.exec
    (Store.Batch (Store.flat ws1 ++ [Store.Batch (Store.flat inner)] ++ Store.flat ws2)) s
  = (let '(s1, c1) := Store.batch (ws1 ++ inner) s in
     let '(s2, c2) := Store.assign_all ws2 s1 in
     (s2, c1 ++ c2)).
Proof.
  rewrite exec_Batch. cbv zeta.
  rewrite exec_all_app. cbn [app].
  rewrite exec_all_cons, !exec_all_flat, batch_of_flat.
  destruct s as [t subs b pend]. unfold Store.with_batching. simpl.
  rewrite assign_all_batching. simpl.
  rewrite !batch_explicit. simpl.
  rewrite target_after_app, recorded_app, app_assoc.
  set (s1 := Store.mkStore _ subs false []).
  destruct (assign_all_idle ws2 s1 eq_refl) as [H1 H2].
  destruct (Store.assign_all ws2 s1) as [s2 c2]. simpl in *.
  rewrite H2. simpl. rewrite !app_nil_r.
  f_equal. destruct s2; simpl in *. by subst.
Qed.


(* ================================================================== *)
(** * The audio module *)
(* ================================================================== *)

Section AudioFacts.
Import Audio.

Lemma entry_None ra peerId : entry ra peerId = None ↔ peerId ∉ map fst ra.
Proof.
  unfold entry. induction ra as [|[k v] ra IH]; simpl.
  - split; [intros _; apply not_elem_of_nil|done].
  - case_bool_decide as Hk; simpl in *.
    + subst k. split; [done|]. intros H. exfalso. apply H. left.
    + rewrite IH. rewrite not_elem_of_cons. naive_solver.
Qed.

Lemma entry_filter_ne ra peerId other :
  other ≠ peerId → entry (filter (fun e => fst e ≠ peerId) ra) other = entry ra other.
Proof.
  intros Hne. unfold entry. induction ra as [|[k v] ra IH]; [done|].
  rewrite filter_cons. simpl. destruct (decide (k ≠ peerId)) as [Hk|Hk]; simpl.
  - case_bool_decide; [done|apply IH].
  - apply dec_stable in Hk. subst k. rewrite bool_decide_false by congruence. apply IH.
Qed.

Lemma entry_filter_eq ra peerId : entry (filter (fun e => fst e ≠ peerId) ra) peerId = None.
Proof.
  apply entry_None. intros (e & -> & He)%list_elem_of_fmap.
  by apply list_elem_of_filter in He as [He _].
Qed.

Lemma entry_app_absent ra peerId v :
  peerId ∉ map fst ra → entry (ra ++ [(peerId, v)]) peerId = Some v.
Proof.
  unfold entry. induction ra as [|[k w] ra IH]; simpl; intros Hin.
  - by rewrite bool_decide_true.
  - apply not_elem_of_cons in Hin as [Hne Hin].
    rewrite bool_decide_false by congruence. by apply IH.
Qed.

Lemma entry_app_ne ra peerId other v :
  other ≠ peerId → entry (ra ++ [(peerId, v)]) other = entry ra other.
Proof.
  intros Hne. unfold entry. induction ra as [|[k w] ra IH]; simpl.
  - by rewrite bool_decide_false by congruence.
  - case_bool_decide; [done|apply IH].
Qed.

Lemma keys_filter_NoDup (ra : list (string * (nat * nat))) peerId :
  NoDup (map fst ra) → NoDup (map fst (filter (fun e => fst e ≠ peerId) ra)).
Proof.
  induction ra as [|[k v] ra IH]; simpl; [done|].
  intros [Hk Hnd]%NoDup_cons. rewrite filter_cons. simpl.
  destruct (decide (k ≠ peerId)); [|by apply IH].
  simpl. apply NoDup_cons. split; [|by apply IH].
  intros (e & -> & He)%list_elem_of_fmap. apply list_elem_of_filter in He as [_ He].
  apply Hk. by apply list_elem_of_fmap_2.
Qed.

Lemma keys_filter_absent (ra : list (string * (nat * nat))) peerId :
  peerId ∉ map fst (filter (fun e => fst e ≠ peerId) ra).
Proof.
  intros (e & -> & He)%list_elem_of_fmap. by apply list_elem_of_filter in He as [He _].
Qed.

Lemma removeRemoteAnalyser_spec peerId a :
  let a' := removeRemoteAnalyser peerId a in
  remoteAnalysers a' = filter (fun e => fst e ≠ peerId) (remoteAnalysers a)
  ∧ audioCtx a' = audioCtx a ∧ silentTrack a' = silentTrack a ∧ analyser a' = analyser a
  ∧ localStream a' = localStream a ∧ enabled a' = enabled a ∧ fresh a' = fresh a
  ∧ calls a' = calls a ++ match entry (remoteAnalysers a) peerId with
                         | Some (source, _) => [Disconnect source]
                         | None => []
                         end.
Proof.
  destruct a as [ls en cx an si ip ra fr cs]. cbv zeta. unfold removeRemoteAnalyser. simpl.
  destruct (entry ra peerId) as [[source an']|] eqn:He; simpl; [done|].
  rewrite app_nil_r. repeat (split; [|done]).
  apply entry_None in He. clear -He.
  induction ra as [|[k v] ra IH]; [done|]. simpl in He.
  apply not_elem_of_cons in He as [Hne He].
  rewrite filter_cons, decide_True by (simpl; congruence). by rewrite <- IH.
Qed.

Lemma removed_has_none peerId a :
  getRemoteAnalyser peerId (removeRemoteAnalyser peerId a) = None.
Proof.
  unfold getRemoteAnalyser.
  destruct (removeRemoteAnalyser_spec peerId a) as (-> & _). by rewrite entry_filter_eq.
Qed.

Lemma remove_without_analyser peerId a :
  getRemoteAnalyser peerId a = None → removeRemoteAnalyser peerId a = a.
Proof.
  destruct a as [ls en cx an si ip ra fr cs]. unfold getRemoteAnalyser, removeRemoteAnalyser.
  simpl. by destruct (entry ra peerId) as [[s0 a0]|].
Qed.

Lemma step_backed o a : backed a → backed (step o a).
Proof.
  intros (H1 & H2 & H3 & H4).
  destruct o; simpl.
  - destruct a as [ls en [cx|] an si ip ra fr cs]; unfold backed in *; simpl in *; eauto.
  - destruct a as [ls en cx an si [] ra fr cs]; unfold backed in *; simpl in *; eauto.
  - destruct a as [ls en cx an si ip ra fr cs]; unfold backed in *; simpl in *; eauto.
  - destruct a as [ls en cx an si ip ra fr cs]; unfold backed in *; simpl in *; eauto.
  - unfold createRemoteAnalyser.
    destruct (removeRemoteAnalyser_spec peerId a) as (E1 & E2 & E3 & E4 & _).
    destruct (removeRemoteAnalyser peerId a) as [ls en cx an si ip ra fr cs].
    simpl in *. subst. unfold backed.
    destruct (audioCtx a) as [c|] eqn:Hc; simpl.
    + split; [eauto|]. split; [eauto|]. split; [eauto|].
      rewrite map_app. simpl. apply NoDup_app. split; [by apply keys_filter_NoDup|].
      split; [|apply NoDup_singleton].
      intros x Hx Hx'. apply list_elem_of_singleton in Hx' as ->.
      by apply keys_filter_absent in Hx.
    + split; [done|]. split; [done|]. split; [|by apply keys_filter_NoDup].
      intros Hne. apply H3. intros Hnil. apply Hne. by rewrite Hnil.
  - destruct (removeRemoteAnalyser_spec peerId a) as (E1 & E2 & E3 & E4 & _).
    unfold backed. rewrite E1, E2, E3, E4.
    split; [done|]. split; [done|]. split; [|by apply keys_filter_NoDup].
    intros Hne. apply H3. intros Hnil. apply Hne. by rewrite Hnil.
  - destruct a as [ls en [c|] an [tr|] ip ra fr cs]; unfold backed in *; simpl in *; eauto.
  - destruct a as [[s|] en cx an si ip ra fr cs]; unfold backed in *; simpl in *; eauto.
  - destruct a as [ls en cx an si ip ra fr cs]; unfold backed; simpl.
    split; [by intros [? ?]|]. split; [by intros [? ?]|]. split; [done|constructor].
Qed.

Lemma run_backed ops : ∀ a, backed a → backed (run ops a).
Proof.
  induction ops as [|o ops IH]; intros a Ha; simpl; [done|]. by apply IH, step_backed.
Qed.

Lemma init_backed : backed init.
Proof.
  unfold backed; simpl. split; [by intros [? ?]|]. split; [by intros [? ?]|].
  split; [done|constructor].
Qed.

End AudioFacts.

Section SourceFacts.
Import Audio.

Lemma disconnected_sources (ra : list (string * (nat * nat))) :
  disconnected (map (fun e => Disconnect (fst (snd e))) ra) = map (fun e => fst (snd e)) ra.
Proof. induction ra as [|e ra IH]; simpl; [done|]. by rewrite <- IH. Qed.

Lemma disconnected_app cs1 cs2 :
  disconnected (cs1 ++ cs2) = disconnected cs1 ++ disconnected cs2.
Proof. unfold disconnected. apply omap_app. Qed.

Lemma held_filter ra peerId :
  NoDup (map fst ra) →
  map (fun e : string * (nat * nat) => fst (snd e)) ra
  ≡ₚ match entry ra peerId with Some (source, _) => [source] | None => [] end
     ++ map (fun e => fst (snd e)) (filter (fun e => fst e ≠ peerId) ra).
Proof.
  unfold entry. induction ra as [|[k [s an]] ra IH]; simpl; [done|].
  intros [Hk Hnd]%NoDup_cons. rewrite filter_cons. simpl.
  case_bool_decide as Hkp; simpl.
  - subst k. rewrite decide_False by (by intros ?). constructor.
    assert (filter (fun e : string * (nat * nat) => fst e ≠ peerId) ra = ra) as ->; [|done].
    clear -Hk. induction ra as [|[k v] ra IH]; [done|]. simpl in Hk.
    apply not_elem_of_cons in Hk as [Hne Hk].
    rewrite filter_cons, decide_True by (simpl; congruence). by rewrite IH.
  - rewrite decide_True by done. simpl. rewrite (IH Hnd).
    destruct (snd <$> List.find _ ra) as [[s0 a0]|]; simpl; [|done].
    apply Permutation_swap.
Qed.

Lemma step_fresh o a : (fresh a ≤ fresh (step o a))%nat.
Proof.
  destruct o; simpl;
    try (destruct a as [[?|] ? [?|] ? [?|] [] ? ? ?]; simpl; lia).
  - unfold createRemoteAnalyser.
    destruct (removeRemoteAnalyser_spec peerId a) as (_ & E2 & _ & _ & _ & _ & E7 & _).
    destruct (removeRemoteAnalyser peerId a) as [ls en cx an si ip ra fr cs]. simpl in *.
    subst. destruct (audioCtx a); simpl; lia.
  - destruct (removeRemoteAnalyser_spec peerId a) as (_ & _ & _ & _ & _ & _ & E7 & _). lia.
Qed.

(** One step: what was disconnected and what is held, together, grow by
    exactly the source the step makes. *)
Lemma step_sources o a :
  backed a → fresh_above a →
  disconnected (calls (step o a)) ++ held (step o a)
  ≡ₚ (disconnected (calls a) ++ held a) ++ made [o] a
  ∧ fresh_above (step o a).
Proof.
  intros (_ & _ & _ & Hnd) Hfr. unfold fresh_above, held in *. simpl. rewrite app_nil_r.
  assert (∀ peerId,
    disconnected (calls (removeRemoteAnalyser peerId a))
      ++ map (fun e => fst (snd e)) (remoteAnalysers (removeRemoteAnalyser peerId a))
    ≡ₚ disconnected (calls a) ++ map (fun e => fst (snd e)) (remoteAnalysers a)) as Hrm.
  { intros peerId.
    destruct (removeRemoteAnalyser_spec peerId a) as (E1 & _ & _ & _ & _ & _ & _ & E8).
    rewrite E1, E8, disconnected_app, (held_filter (remoteAnalysers a) peerId Hnd).
    destruct (entry _ _) as [[s0 a0]|]; simpl; by rewrite <- ?app_assoc, ?app_nil_r. }
  assert (∀ peerId,
    Forall (fun s => (s < fresh a)%nat)
      (map (fun e => fst (snd e)) (remoteAnalysers (removeRemoteAnalyser peerId a)))) as Hrf.
  { intros peerId.
    destruct (removeRemoteAnalyser_spec peerId a) as (E1 & _). rewrite E1.
    apply Forall_forall. intros s (e & -> & He)%list_elem_of_fmap.
    apply list_elem_of_filter in He as [_ He].
    rewrite Forall_forall in Hfr. apply Hfr. apply list_elem_of_fmap. by exists e. }
  destruct o; simpl; rewrite ?app_nil_r;
    try (destruct a as [[?|] ? [?|] ? [?|] [] ? ? ?]; simpl in *;
          rewrite ?disconnected_app; simpl; rewrite ?app_nil_r;
          (split; [done|]); try done;
          (eapply Forall_impl; [exact Hfr|simpl; intros; lia])).
  - unfold createRemoteAnalyser.
    specialize (Hrm peerId). specialize (Hrf peerId).
    destruct (removeRemoteAnalyser_spec peerId a) as (_ & E2 & _ & _ & _ & _ & E7 & _).
    destruct (removeRemoteAnalyser peerId a) as [ls en cx an si ip ra fr cs]. simpl in *.
    subst cx fr. destruct (audioCtx a); simpl.
    + split.
      * rewrite map_app. simpl. rewrite app_assoc. by rewrite Hrm.
      * rewrite map_app. apply Forall_app. split.
        -- eapply Forall_impl; [exact Hrf|simpl; intros; lia].
        -- repeat constructor. simpl. lia.
    + rewrite app_nil_r. done.
  - split; [apply Hrm|].
    destruct (removeRemoteAnalyser_spec peerId a) as (_ & _ & _ & _ & _ & _ & E7 & _).
    rewrite E7. apply Hrf.
  - destruct a as [ls en cx an si ip ra fr cs]. simpl in *.
    split; [|constructor].
    destruct ls, si, cx; simpl; rewrite ?disconnected_app, ?disconnected_sources; simpl;
      rewrite ?app_nil_r; done.
Qed.

Lemma made_above ops : ∀ a, Forall (fun s => (fresh a ≤ s)%nat) (made ops a).
Proof.
  induction ops as [|o ops IH]; intros a; simpl; [constructor|].
  apply Forall_app. split.
  - destruct o; try constructor. destruct (audioCtx a); repeat constructor; lia.
  - eapply Forall_impl; [apply IH|]. simpl. intros s Hs.
    pose proof (step_fresh o a). lia.
Qed.

Lemma made_NoDup ops : ∀ a, NoDup (made ops a).
Proof.
  induction ops as [|o ops IH]; intros a; simpl; [constructor|].
  apply NoDup_app. split; [|split; [|apply IH]].
  - destruct o; try constructor. destruct (audioCtx a); [apply NoDup_singleton|constructor].
  - intros s Hs Hs'.
    assert (s = fresh a ∧ (fresh a < fresh (step o a))%nat) as [-> Hlt].
    { destruct o; try (by apply elem_of_nil in Hs).
      destruct (audioCtx a) eqn:Hc; [|by apply elem_of_nil in Hs].
      apply list_elem_of_singleton in Hs. split; [done|]. simpl.
      unfold createRemoteAnalyser.
      destruct (removeRemoteAnalyser_spec peerId a) as (_ & E2 & _ & _ & _ & _ & E7 & _).
      destruct (removeRemoteAnalyser peerId a) as [ls en cx an si ip ra fr cs]. simpl in *.
      subst. rewrite Hc. simpl. lia. }
    pose proof (made_above ops (step o a)) as Hab. rewrite Forall_forall in Hab.
    specialize (Hab _ Hs'). lia.
Qed.

Lemma run_sources ops : ∀ a,
  backed a → fresh_above a →
  disconnected (calls (run ops a)) ++ held (run ops a)
  ≡ₚ (disconnected (calls a) ++ held a) ++ made ops a.
Proof.
  induction ops as [|o ops IH]; intros a Hb Hf; simpl.
  - by rewrite app_nil_r.
  - destruct (step_sources o a Hb Hf) as [Hs Hf'].
    rewrite (IH _ (step_backed o a Hb) Hf'). rewrite Hs. simpl.
    rewrite app_nil_r. by rewrite <- !app_assoc.
Qed.

End SourceFacts.

(** X6.  The analysers and the silent track never outlive the audio
    context: whatever the module has been asked to do, the silent track,
    the local analyser and the remote analysers exist only while a context
    does, no peer has two analysers, and [getSilentTrack()] returns a
    track exactly when a context exists.  The silent track is made once:
    a second [getSilentTrack()] returns the same track and starts no
    oscillator. *)
Theorem audio_objects_need_context (ops : list Audio.Op) :
  let a := Audio.run ops Audio.init in
  Audio.backed a
  ∧ (is_Some (Audio.getSilentTrack a).1 ↔ is_Some (Audio.audioCtx a))
  ∧ Audio.getSilentTrack (Audio.getSilentTrack a).2
    = ((Audio.getSilentTrack a).1, (Audio.getSilentTrack a).2).
Proof.
  cbv zeta. pose proof (run_backed ops _ init_backed) as Hb.
  split; [done|]. destruct Hb as (H1 & _).
  destruct (Audio.run ops Audio.init) as [ls en [c|] an [tr|] ip ra fr cs]; simpl in *.
  - split; [|done]. split; by eexists.
  - split; [|done]. split; by eexists.
  - destruct H1 as [? ?]; [by eexists|done].
  - split; [|done]. split; by intros [? ?].
Qed.

(** X7.  Remote analysers.  With a context, [createRemoteAnalyser] gives
    the peer a new analyser, which [getRemoteAnalyser] returns from then
    on; the source of the analyser the peer had before is disconnected,
    and the analysers of the other peers stay.  Without a context it
    returns nothing and leaves the peer without analyser.
    [removeRemoteAnalyser] takes the analyser away again, and does nothing
    for a peer that has none. *)
Theorem remote_analyser_round_trip (peerId : string) (a : Audio.t) :
  let r := Audio.createRemoteAnalyser peerId a in
  (is_Some (Audio.audioCtx a) →
     r.1 = Some (S (Audio.fresh a))
     ∧ Audio.getRemoteAnalyser peerId r.2 = r.1)
  ∧ (Audio.audioCtx a = None → r.1 = None ∧ Audio.getRemoteAnalyser peerId r.2 = None)
  ∧ (∀ other, other ≠ peerId →
       Audio.getRemoteAnalyser other r.2 = Audio.getRemoteAnalyser other a)
  ∧ Audio.calls r.2
    = Audio.calls a ++ match Audio.entry (Audio.remoteAnalysers a) peerId with
                       | Some (source, _) => [Audio.Disconnect source]
                       | None => []
                       end
  ∧ Audio.getRemoteAnalyser peerId (Audio.removeRemoteAnalyser peerId r.2) = None
  ∧ (Audio.getRemoteAnalyser peerId a = None → Audio.removeRemoteAnalyser peerId a = a).
Proof.
  cbv zeta.
  split; [|split; [|split; [|split; [|split; [apply removed_has_none
                                             |apply remove_without_analyser]]]]];
    unfold Audio.createRemoteAnalyser, Audio.getRemoteAnalyser;
    destruct (removeRemoteAnalyser_spec peerId a) as (E1 & E2 & _ & _ & _ & _ & E7 & E8);
    destruct (Audio.removeRemoteAnalyser peerId a) as [ls en cx an si ip ra fr cs];
    simpl in *; subst ra cx fr cs;
    destruct (Audio.audioCtx a) as [c|] eqn:Hc; simpl.
  - intros _. split; [done|]. by rewrite entry_app_absent by apply keys_filter_absent.
  - by intros [? ?].
  - done.
  - intros _. split; [done|]. by rewrite entry_filter_eq.
  - intros other Hne. by rewrite entry_app_ne, entry_filter_ne by done.
  - intros other Hne. by rewrite entry_filter_ne by done.
  - done.
  - done.
Qed.

Lemma remote_analyser_round_trip_witness :
  let a := Audio.run [Audio.Granted; Audio.CreateRemoteAnalyser "A";
                      Audio.CreateRemoteAnalyser "B"] Audio.init in
  let r := Audio.createRemoteAnalyser "A" a in
  Audio.getRemoteAnalyser "A" a = Some 5
  ∧ Audio.getRemoteAnalyser "A" r.2 = Some 9
  ∧ Audio.getRemoteAnalyser "B" r.2 = Audio.getRemoteAnalyser "B" a
  ∧ Audio.calls r.2 = [Audio.Disconnect 4].
Proof.
  intros a r.
  destruct (remote_analyser_round_trip "A" a) as (H1 & _ & H3 & H4 & _).
  split; [reflexivity|]. split.
  - destruct H1 as [H1 H1']; [by eexists|]. exact (eq_trans H1' (eq_trans H1 eq_refl)).
  - split; [apply H3; discriminate|exact (eq_trans H4 eq_refl)].
Defined.

(** X8.  No source of a remote analyser is leaked and none is disconnected
    twice.  In every run of the module, the sources disconnected so far
    together with the sources of the analysers held are exactly the
    sources [createRemoteAnalyser] has made, each once; so once
    [destroyAudio] has run, every source ever made has been disconnected
    exactly once. *)
Theorem remote_sources_are_released (ops : list Audio.Op) :
  let a := Audio.run ops Audio.init in
  Audio.disconnected (Audio.calls a) ++ Audio.held a ≡ₚ Audio.made ops Audio.init
  ∧ NoDup (Audio.disconnected (Audio.calls a) ++ Audio.held a)
  ∧ Audio.disconnected (Audio.calls (Audio.destroyAudio a)) ≡ₚ Audio.made ops Audio.init.
Proof.
  cbv zeta.
  assert (Audio.disconnected (Audio.calls (Audio.run ops Audio.init))
            ++ Audio.held (Audio.run ops Audio.init) ≡ₚ Audio.made ops Audio.init) as H.
  { rewrite (run_sources ops Audio.init init_backed); [done|constructor]. }
  split; [done|]. split; [rewrite H; apply made_NoDup|].
  rewrite <- H.
  destruct (Audio.run ops Audio.init) as [ls en cx an si ip ra fr cs]. unfold Audio.held. simpl.
  destruct ls, si, cx; simpl; rewrite ?disconnected_app, ?disconnected_sources; simpl;
    rewrite ?app_nil_r; done.
Qed.

(** X9.  [destroyAudio] gives everything up: afterwards there is no stream,
    no real track, no analyser, no remote analyser and no silent track
    (and asking for one creates none); the tracks of the stream and the
    silent track were stopped, the source of every remote analyser
    disconnected, in the order the analysers were made, and the context
    closed; a second [destroyAudio] asks nothing of the browser. *)
Theorem destroyAudio_releases (a : Audio.t) (peerId : string) :
  let a' := Audio.destroyAudio a in
  (Audio.getStream a' = None ∧ Audio.getRealTrack a' = None
   ∧ Audio.getAnalyser a' = None ∧ Audio.getRemoteAnalyser peerId a' = None
   ∧ Audio.getSilentTrack a' = (None, a'))
  ∧ Audio.calls a'
    = Audio.calls a
      ++ match Audio.localStream a with Some s => [Audio.StopTracks s] | None => [] end
      ++ match Audio.silentTrack a with Some tr => [Audio.StopTrack tr] | None => [] end
      ++ map (fun e => Audio.Disconnect (fst (snd e))) (Audio.remoteAnalysers a)
      ++ match Audio.audioCtx a with Some c => [Audio.Close c] | None => [] end
  ∧ Audio.destroyAudio a' = a'.
Proof.
  destruct a as [[s|] en [c|] an [tr|] ip ra fr cs]; cbv zeta; simpl;
    rewrite <- ?app_assoc, ?app_nil_r; simpl; rewrite ?app_nil_r; done.
Qed.

(** X10.  The room module is modelled with three flags in place of the
    audio module; they are exact.  When the flags stand for a state of
    the audio module in which the silent track has a context, the three
    getters of the room model answer as the getters of the audio module
    do, and every operation of the room model on the flags leads to the
    flags of what the audio module does: a granted and a refused
    [initAudio] (the latter followed by [initAudioContext], as in the
    [catch] of [createRoom] and [joinRoom]), [setTalking], [destroyAudio],
    and [getSilentTrack], which changes no flag. *)
Theorem audio_flags_are_exact (a : Audio.t) (st : Net.State) (talking : bool) :
  Audio.backed a → Audio.seen_as a st →
  (Net.getStream st = bool_decide (is_Some (Audio.getStream a))
   ∧ Net.getRealTrack st = bool_decide (is_Some (Audio.getRealTrack a))
   ∧ Net.getSilentTrack st = bool_decide (is_Some (Audio.getSilentTrack a).1))
  ∧ Audio.seen_as (Audio.initAudio_granted a) (Net.initAudio true st)
  ∧ Audio.seen_as (Audio.initAudioContext (Audio.initAudio_refused a))
      (Net.initAudio false st)
  ∧ Audio.seen_as (Audio.setTalking talking a) (Net.setTalking talking st)
  ∧ Audio.seen_as (Audio.destroyAudio a) (Net.destroyAudio st)
  ∧ Audio.seen_as (Audio.getSilentTrack a).2 st.
Proof.
  intros (H1 & _) (S1 & S2 & S3).
  unfold Audio.seen_as, Net.getStream, Net.getRealTrack, Net.getSilentTrack,
    Net.initAudio, Net.setTalking, Net.destroyAudio.
  destruct a as [[s|] en [c|] an [tr|] ip ra fr cs]; simpl in *;
    rewrite ?S1, ?S2; simpl; reads; rewrite ?S1, ?S2; simpl;
    try (destruct H1 as [? ?]; [by eexists|done]);
    repeat split; try done; try (intros; by apply S3); by intros [? ?].
Qed.

Lemma audio_flags_are_exact_witness :
  let a := Audio.run [Audio.Granted; Audio.GetSilentTrack] Audio.init in
  let st := Net.initAudio true (Net.init "u") in
  Net.getSilentTrack st = bool_decide (is_Some (Audio.getSilentTrack a).1)
  ∧ Audio.seen_as (Audio.destroyAudio a) (Net.destroyAudio st).
Proof.
  intros a st.
  destruct (audio_flags_are_exact a st true) as ((_ & _ & H1) & _ & _ & _ & H2 & _).
  - unfold Audio.backed. simpl. repeat split; try (intros _; by eexists). constructor.
  - unfold Audio.seen_as. simpl. split; [reflexivity|]. split; [reflexivity|]. done.
  - split; [exact H1|exact H2].
Defined.


(* ================================================================== *)
(** * The room module and the page: further facts *)
(* ================================================================== *)

Section LinkFacts.
Import Net Page.

Lemma pick_char m :
  (0 ≤ m < 2 ^ 53)%Z → ∃ c, pick m = String c EmptyString ∧ code_char c.
Proof.
  intros Hm. unfold pick.
  assert (Z.to_nat (m * Z.of_nat (String.length chars) / 2 ^ 53) < 32)%nat as Hlt.
  { change (Z.of_nat (String.length chars)) with 32%Z.
    assert (0 ≤ m * 32 / 2 ^ 53 < 32)%Z; [|lia].
    split; [apply Z.div_pos; lia|]. apply Z.div_lt_upper_bound; lia. }
  revert Hlt. generalize (Z.to_nat (m * Z.of_nat (String.length chars) / 2 ^ 53)).
  intros n Hn.
  do 32 (destruct n as [|n]; [eexists; split; [reflexivity|]; unfold code_char; simpl; tauto|]).
  lia.
Qed.

Lemma genCode_chars m0 m1 m2 m3 :
  (0 ≤ m0 < 2 ^ 53)%Z → (0 ≤ m1 < 2 ^ 53)%Z →
  (0 ≤ m2 < 2 ^ 53)%Z → (0 ≤ m3 < 2 ^ 53)%Z →
  ∃ c0 c1 c2 c3,
    genCode (m0, m1, m2, m3) = String c0 (String c1 (String c2 (String c3 EmptyString)))
    ∧ code_char c0 ∧ code_char c1 ∧ code_char c2 ∧ code_char c3.
Proof.
  intros H0 H1 H2 H3. unfold genCode.
  destruct (pick_char m0 H0) as (c0 & -> & ?), (pick_char m1 H1) as (c1 & -> & ?),
           (pick_char m2 H2) as (c2 & -> & ?), (pick_char m3 H3) as (c3 & -> & ?).
  by exists c0, c1, c2, c3.
Qed.

Lemma code_char_plain c :
  code_char c → is_alnum c = true ∧ upper_ascii c = c ∧ is_space c = false.
Proof.
  unfold code_char. simpl. intros H.
  repeat (destruct H as [<-|H]; [by vm_compute|]). done.
Qed.

Lemma upper_ascii_facts c :
  upper_ascii (upper_ascii c) = upper_ascii c
  ∧ is_space (upper_ascii c) = is_space c
  ∧ is_alnum (upper_ascii c) = is_alnum c
  ∧ (is_alnum c = true → is_space c = false).
Proof. destruct c as [[] [] [] [] [] [] [] []]; vm_compute; auto. Qed.

Lemma toUpperCase_idem s : toUpperCase (toUpperCase s) = toUpperCase s.
Proof.
  induction s as [|c s IH]; simpl; [done|].
  rewrite IH. by destruct (upper_ascii_facts c) as (-> & _).
Qed.

Lemma toUpperCase_length s : String.length (toUpperCase s) = String.length s.
Proof. induction s as [|c s IH]; simpl; [done|]. by rewrite IH. Qed.

Lemma toUpperCase_trim_start s : toUpperCase (trim_start s) = trim_start (toUpperCase s).
Proof.
  induction s as [|c s IH]; simpl; [done|].
  destruct (upper_ascii_facts c) as (_ & -> & _). by destruct (is_space c).
Qed.

Lemma toUpperCase_trim_end s : toUpperCase (trim_end s) = trim_end (toUpperCase s).
Proof.
  induction s as [|c s IH]; simpl; [done|].
  rewrite <- IH. destruct (upper_ascii_facts c) as (_ & -> & _).
  destruct (trim_end s); simpl; [|done]. by destruct (is_space c).
Qed.

(** Upper-casing what [joinRoom] normalised changes nothing. *)
Lemma normalised_upper code :
  toUpperCase (trim (toUpperCase code)) = trim (toUpperCase code).
Proof.
  unfold trim. by rewrite toUpperCase_trim_end, toUpperCase_trim_start, toUpperCase_idem.
Qed.

Lemma trim_end_plain s :
  forallb (fun c => negb (is_space c)) (String.list_ascii_of_string s) = true →
  trim_end s = s.
Proof.
  induction s as [|c s IH]; simpl; [done|].
  intros [Hc Hs]%andb_true_iff. rewrite (IH Hs).
  destruct s; [|done]. by destruct (is_space c).
Qed.

Lemma trim_plain s :
  forallb (fun c => negb (is_space c)) (String.list_ascii_of_string s) = true →
  trim s = s.
Proof.
  intros H. unfold trim.
  assert (trim_start s = s) as ->; [|by apply trim_end_plain].
  destruct s as [|c s]; simpl in *; [done|].
  apply andb_true_iff in H as [Hc _]. by destruct (is_space c).
Qed.

Lemma alnum_plain s :
  forallb is_alnum (String.list_ascii_of_string s) = true →
  forallb (fun c => negb (is_space c)) (String.list_ascii_of_string s) = true.
Proof.
  induction s as [|c s IH]; simpl; [done|].
  intros [Hc Hs]%andb_true_iff. rewrite (IH Hs), andb_true_r.
  destruct (upper_ascii_facts c) as (_ & _ & _ & H). by rewrite (H Hc).
Qed.

Lemma alnum_upper s :
  forallb is_alnum (String.list_ascii_of_string (toUpperCase s))
  = forallb is_alnum (String.list_ascii_of_string s).
Proof.
  induction s as [|c s IH]; simpl; [done|].
  rewrite IH. by destruct (upper_ascii_facts c) as (_ & _ & -> & _).
Qed.

Lemma strip_written code : strip_nocase "#room=" (written_hash code) = Some code.
Proof. reflexivity. Qed.

(** What [getRoomFromHash] accepts, and what it makes of it. *)
Lemma getRoomFromHash_Some hash code :
  getRoomFromHash hash = Some code →
  ∃ typed, strip_nocase "#room=" hash = Some typed
           ∧ String.length typed = 4%nat
           ∧ forallb is_alnum (String.list_ascii_of_string typed) = true
           ∧ code = toUpperCase typed.
Proof.
  unfold getRoomFromHash. destruct (strip_nocase _ _) as [typed|]; [|done].
  destruct (_ =? _)%nat eqn:Hl; simpl; [|done].
  destruct (forallb _ _) eqn:Ha; [|done].
  intros [= <-]. exists typed. by apply Nat.eqb_eq in Hl.
Qed.

Lemma getRoomFromHash_written code :
  String.length code = 4%nat →
  forallb is_alnum (String.list_ascii_of_string code) = true →
  getRoomFromHash (written_hash code) = Some (toUpperCase code).
Proof.
  intros Hl Ha. unfold getRoomFromHash. rewrite strip_written, Hl, Ha. done.
Qed.

Lemma truthy_length s : (0 < String.length s)%nat → truthy s = true.
Proof. destruct s; simpl; [lia|done]. Qed.

(** The code read from a link is in the form [joinRoom] keeps. *)
Lemma link_code_normal hash code :
  getRoomFromHash hash = Some code →
  String.length code = 4%nat ∧ toUpperCase code = code
  ∧ trim (toUpperCase code) = code ∧ truthy code = true
  ∧ getRoomFromHash (written_hash code) = Some code.
Proof.
  intros (typed & Hs & Hl & Ha & ->)%getRoomFromHash_Some.
  assert (String.length (toUpperCase typed) = 4%nat) as Hl'
    by (by rewrite toUpperCase_length).
  split; [done|]. split; [apply toUpperCase_idem|]. split.
  - rewrite toUpperCase_idem. apply trim_plain, alnum_plain. by rewrite alnum_upper.
  - split; [apply truthy_length; lia|].
    rewrite getRoomFromHash_written; [by rewrite toUpperCase_idem|done|by rewrite alnum_upper].
Qed.

End LinkFacts.

Section PageFacts.
Import Net Page.

Variable selfId : string.

(** [leaveRoom], field by field. *)
Lemma leaveRoom_closed st :
  leaveRoom st =
  mkState (view st) (roomCode st) (myPeerId st) (username st) [] false (whisperTarget st)
    (noMic st) false true (knockWaiting st) [] (isCreator st) None
    None false ∅ None ∅ [] None false false (trackEnabled st)
    (match admitTimeout st with
     | Some id => filter (fun e => fst e ≠ id) (timers st)
     | None => timers st
     end)
    (nextTimer st)
    (match room st with Some _ => effects st ++ [RoomLeave] | None => effects st end).
Proof.
  destruct st as [? ? ? ? ? ? ? ? ? ? ? ? ? ? rm ? ? ? ? ? tmo ? ? ? ? ? ?].
  unfold leaveRoom, clearAdmitTimeout. destruct tmo, rm; reflexivity.
Qed.

(** What [createRoom] and [joinRoom] do to the fields the page reads. *)
Lemma createRoom_page draws mic st :
  let st' := createRoom selfId draws mic st in
  isTalking st' = isTalking st ∧ whisperTarget st' = whisperTarget st
  ∧ localStream st' = (if mic then true else localStream st)
  ∧ trackEnabled st' = (if mic then false else trackEnabled st)
  ∧ activeWhisperTarget st' = activeWhisperTarget st
  ∧ roomCode st' = genCode draws
  ∧ pendingKnocks st' = pendingKnocks st.
Proof.
  cbv zeta. unfold createRoom, setupRoom, initAudio, emit. cbv zeta.
  destruct st, mic; simpl; done.
Qed.

Lemma joinRoom_page code mic st :
  truthy (trim (toUpperCase code)) = true →
  let st' := joinRoom selfId code mic st in
  isTalking st' = isTalking st ∧ whisperTarget st' = whisperTarget st
  ∧ localStream st' = (if mic then true else localStream st)
  ∧ trackEnabled st' = (if mic then false else trackEnabled st)
  ∧ activeWhisperTarget st' = activeWhisperTarget st
  ∧ roomCode st' = trim (toUpperCase code)
  ∧ pendingKnocks st' = pendingKnocks st.
Proof.
  intros Hc. cbv zeta. unfold joinRoom. rewrite Hc.
  unfold setTimeout, setupRoom, initAudio, emit. cbv zeta.
  destruct st, mic; simpl; done.
Qed.

Ltac same_page_frame := unfold same_page; split_conds; reads; done.

Lemma same_page_refl st : same_page st st.
Proof. by unfold same_page. Qed.

Lemma same_page_trans st1 st2 st3 :
  same_page st1 st2 → same_page st2 st3 → same_page st1 st3.
Proof.
  unfold same_page.
  intros (-> & -> & -> & -> & -> & -> & H) (-> & -> & -> & -> & -> & -> & H'). auto 10.
Qed.

Lemma same_page_fold {A} (f : State → A → State) l :
  (∀ s a, same_page s (f s a)) → ∀ s, same_page s (fold_left f l s).
Proof.
  intros Hf. induction l as [|a l IH]; intros s; simpl; [apply same_page_refl|].
  eapply same_page_trans; [apply Hf|apply IH].
Qed.

Lemma page_inv_same st st' : same_page st st' → page_inv st → page_inv st'.
Proof.
  unfold same_page, page_inv, hash_settled.
  intros (-> & -> & -> & -> & -> & -> & H) (? & ? & ? & ?). auto.
Qed.

Lemma emit_page e st : same_page st (emit e st).
Proof. unfold emit. same_page_frame. Qed.

Lemma moveKnockToPeers_page id st : same_page st (moveKnockToPeers id st).
Proof. unfold moveKnockToPeers. same_page_frame. Qed.

Lemma sendKnock_page m t st : same_page st (sendKnock m t st).
Proof. unfold sendKnock, emit. same_page_frame. Qed.

Lemma updatePeer_page id u st : same_page st (updatePeer id u st).
Proof. unfold updatePeer. same_page_frame. Qed.

Lemma knock_ids_filter (P : Knock.t → Prop) `{∀ k, Decision (P k)} ks :
  NoDup (knock_ids ks) → NoDup (knock_ids (filter P ks)).
Proof.
  unfold knock_ids. induction ks as [|k ks IH]; simpl; [done|].
  intros [Hk Hnd]%NoDup_cons. rewrite filter_cons. destruct (decide (P k)); [|by apply IH].
  simpl. apply NoDup_cons. split; [|by apply IH].
  intros Hin. apply Hk. apply list_elem_of_fmap in Hin as (k' & -> & Hk').
  apply list_elem_of_filter in Hk' as [_ Hk']. by apply list_elem_of_fmap_2.
Qed.

Lemma removeKnock_page id st : same_page st (removeKnock id st).
Proof.
  unfold removeKnock, same_page. reads. repeat (split; [done|]).
  apply knock_ids_filter.
Qed.

Lemma admitSelf_page st : same_page st (admitSelf selfId st).
Proof.
  destruct (admitted st) eqn:E.
  { unfold admitSelf. rewrite E. apply same_page_refl. }
  rewrite admitSelf_not_admitted by done. cbv zeta.
  assert (same_page st (clearAdmitTimeout st)) as Hclr.
  { unfold clearAdmitTimeout, clearTimeout. same_page_frame. }
  eapply same_page_trans; [exact Hclr|]. same_page_frame.
Qed.

Lemma onPeerJoin_page id st : same_page st (onPeerJoin selfId id st).
Proof.
  unfold onPeerJoin. cbv zeta.
  assert (∀ (b : bool) s s', same_page s s' →
            same_page s (if b then emit (AddStream id) s' else s')) as Hif.
  { intros b s s' H. destruct b; [|done].
    eapply same_page_trans; [exact H|apply emit_page]. }
  destruct (admitted st) eqn:Ha; [destruct (knockEnabled st) eqn:Hk|].
  - eapply same_page_trans; [|apply emit_page]. apply Hif.
    eapply same_page_trans; [|apply sendKnock_page].
    eapply same_page_trans; [|apply sendKnock_page].
    case_bool_decide as Hin; [apply same_page_refl|].
    unfold same_page. reads. repeat (split; [done|]).
    intros Hnd. unfold knock_ids. rewrite map_app. simpl.
    apply NoDup_app. split; [done|]. split; [|apply NoDup_singleton].
    intros x Hx Hx'. apply list_elem_of_singleton in Hx'. by subst.
  - set (st1 := if has_peer (peers st) id then st else _).
    assert (same_page st st1) as H1.
    { unfold st1. destruct (has_peer _ _); [apply same_page_refl|]. same_page_frame. }
    set (st2 := emit _ (sendKnock _ _ st1)).
    assert (same_page st st2) as H2.
    { eapply same_page_trans; [exact H1|].
      eapply same_page_trans; [apply sendKnock_page|apply emit_page]. }
    destruct (getStream st2); [|done].
    destruct (whisper_excludes _ _); [|by eapply same_page_trans; [exact H2|apply emit_page]].
    destruct (_ && _); [|by eapply same_page_trans; [exact H2|apply emit_page]].
    eapply same_page_trans; [exact H2|]. unfold emit. same_page_frame.
  - unfold emit. same_page_frame.
Qed.

Lemma knock_ids_rename id name ks :
  knock_ids (map (fun k => if bool_decide (Knock.peerId k = id)
                           then Knock.mk (Knock.peerId k) name else k) ks)
  = knock_ids ks.
Proof.
  unfold knock_ids. rewrite map_map. apply map_ext. intros k. by case_bool_decide.
Qed.

Lemma getUsername_page name id st : same_page st (getUsername name id st).
Proof.
  unfold getUsername. cbv zeta.
  set (st1 := updatePeer id (UpdUsername name) st).
  assert (same_page st st1) as H1 by apply updatePeer_page.
  set (st2 := if bool_decide (id ∈ knock_ids (pendingKnocks st1)) then _ else st1).
  assert (same_page st1 st2) as H2.
  { unfold st2. case_bool_decide; [|apply same_page_refl].
    unfold same_page. reads. repeat (split; [done|]). by rewrite knock_ids_rename. }
  eapply same_page_trans; [exact H1|]. eapply same_page_trans; [exact H2|].
  same_page_frame.
Qed.

Lemma getKnock_page msg from st : same_page st (getKnock selfId msg from st).
Proof.
  destruct msg as [|en cr| |target approved]; simpl.
  - apply same_page_refl.
  - destruct (_ && _); [|same_page_frame].
    set (s1 := moveAllKnocks _).
    assert (same_page st s1) as H1.
    { unfold s1, moveAllKnocks.
      eapply same_page_trans;
        [|apply same_page_fold; intros; apply moveKnockToPeers_page].
      same_page_frame. }
    eapply same_page_trans; [exact H1|].
    unfold same_page. reads. repeat (split; [done|]). intros _. constructor.
  - apply admitSelf_page.
  - case_bool_decide.
    + destruct approved; [apply admitSelf_page|]. unfold setTimeout. same_page_frame.
    + destruct (admitted st); [|apply same_page_refl].
      eapply same_page_trans; [|apply removeKnock_page].
      destruct approved; [apply moveKnockToPeers_page|apply same_page_refl].
Qed.

Lemma toggleKnockMode_page st : same_page st (toggleKnockMode selfId st).
Proof.
  unfold toggleKnockMode. cbv zeta. destruct (negb _); [apply same_page_refl|].
  eapply same_page_trans; [|apply sendKnock_page].
  destruct (_ && _); [|same_page_frame].
  set (s1 := fold_left _ _ _).
  assert (same_page st s1) as H1.
  { unfold s1. eapply same_page_trans;
      [|apply same_page_fold; intros s k;
        eapply same_page_trans; [apply sendKnock_page|apply moveKnockToPeers_page]].
    same_page_frame. }
  eapply same_page_trans; [exact H1|].
  unfold same_page. reads. repeat (split; [done|]). intros _. constructor.
Qed.

(** The events of the room module that leave the page's flags alone. *)
Lemma plain_event_page ev st :
  match ev with
  | EvCreateRoom _ _ | EvJoinRoom _ _ | EvLeaveRoom | EvTimer _ _ _
  | EvWhisperStart _ | EvWhisperStop | EvPttStart | EvPttStop => True
  | _ => same_page st (handle selfId ev st)
  end.
Proof.
  destruct ev; try done; simpl.
  - apply onPeerJoin_page.
  - unfold onPeerLeave. cbv zeta.
    set (s1 := removeKnock _ _).
    assert (same_page st s1) as H1.
    { unfold s1. eapply same_page_trans; [|apply removeKnock_page]. same_page_frame. }
    eapply same_page_trans; [exact H1|]. same_page_frame.
  - unfold onPeerStream. same_page_frame.
  - apply getUsername_page.
  - apply updatePeer_page.
  - apply updatePeer_page.
  - apply updatePeer_page.
  - apply updatePeer_page.
  - apply getKnock_page.
  - apply toggleKnockMode_page.
  - unfold resolveKnock. cbv zeta.
    eapply same_page_trans; [|apply removeKnock_page].
    destruct approved.
    + eapply same_page_trans; [apply sendKnock_page|apply moveKnockToPeers_page].
    + apply sendKnock_page.
  - unfold sendRename, emit. same_page_frame.
  - unfold visibilityChange. destruct (negb _); [apply same_page_refl|].
    eapply same_page_trans; [|apply updatePeer_page]. apply emit_page.
Qed.

(** *** The room code and the hash *)

Lemma pick_cases m :
  (∃ c, pick m = String c EmptyString ∧ code_char c) ∨ pick m = "undefined".
Proof.
  unfold pick.
  generalize (Z.to_nat (m * Z.of_nat (String.length chars) / 2 ^ 53)). intros n.
  do 32 (destruct n as [|n];
         [left; eexists; split; [reflexivity|]; unfold code_char; simpl; tauto|]).
  by right.
Qed.

Lemma hash_settled_upper st :
  toUpperCase (roomCode st) = roomCode st → hash_settled st.
Proof.
  intros Hup code Hc. apply getRoomFromHash_Some in Hc as (typed & Hs & _ & _ & ->).
  rewrite strip_written in Hs. injection Hs as <-. done.
Qed.

Lemma genCode_upper draws :
  String.length (genCode draws) = 4%nat → toUpperCase (genCode draws) = genCode draws.
Proof.
  destruct draws as [[[m0 m1] m2] m3]. unfold genCode.
  rewrite !string_length_append.
  destruct (pick_cases m0) as [(c0 & -> & H0) | -> ], (pick_cases m1) as [(c1 & -> & H1) | -> ],
           (pick_cases m2) as [(c2 & -> & H2) | -> ], (pick_cases m3) as [(c3 & -> & H3) | -> ];
    simpl; try lia.
  intros _.
  destruct (code_char_plain _ H0) as (_ & -> & _), (code_char_plain _ H1) as (_ & -> & _),
           (code_char_plain _ H2) as (_ & -> & _), (code_char_plain _ H3) as (_ & -> & _).
  done.
Qed.

Lemma hash_settled_genCode st draws : roomCode st = genCode draws → hash_settled st.
Proof.
  intros Hrc code Hc. rewrite Hrc in *.
  apply getRoomFromHash_Some in Hc as (typed & Hs & Hl & _ & ->).
  rewrite strip_written in Hs. injection Hs as <-. by apply genCode_upper.
Qed.

(** *** Operations that touch the page's flags *)

Lemma leaveRoom_page_inv st : page_inv st → page_inv (leaveRoom st).
Proof.
  intros (_ & _ & _ & H4). rewrite leaveRoom_closed.
  unfold page_inv, hash_settled; simpl. split; [constructor|].
  split; [by intros [? _]|]. done.
Qed.

Lemma createRoom_page_inv draws mic st :
  page_inv st → page_inv (createRoom selfId draws mic st).
Proof.
  intros (H1 & H2 & H3 & H4).
  destruct (createRoom_page draws mic st) as (E1 & E2 & E3 & E4 & E5 & E6 & E7).
  unfold page_inv. rewrite E1, E2, E3, E4, E5, E7.
  split; [done|]. split; [done|]. split; [|by eapply hash_settled_genCode].
  by destruct mic.
Qed.

Lemma joinRoom_page_inv code mic st :
  page_inv st → page_inv (joinRoom selfId code mic st).
Proof.
  intros Hinv. destruct (truthy (trim (toUpperCase code))) eqn:Hc.
  2:{ unfold joinRoom. by rewrite Hc. }
  destruct Hinv as (H1 & H2 & H3 & H4).
  destruct (joinRoom_page code mic st Hc) as (E1 & E2 & E3 & E4 & E5 & E6 & E7).
  unfold page_inv. rewrite E1, E2, E3, E4, E5, E7.
  split; [done|]. split; [done|]. split; [by destruct mic|].
  apply hash_settled_upper. rewrite E6. apply normalised_upper.
Qed.

Lemma routeForWhisper_page t st p : same_page st (routeForWhisper selfId t st p).
Proof. unfold routeForWhisper, emit. same_page_frame. Qed.

Lemma routeBack_page st p : same_page st (routeBack selfId st p).
Proof. unfold routeBack, emit. same_page_frame. Qed.

Lemma startWhisper_page t st :
  cannot_route st = false →
  same_page (set_trackEnabled true (set_activeWhisperTarget (Some t) st))
            (startWhisper selfId t st).
Proof.
  intros Hr. unfold startWhisper. rewrite Hr. cbv zeta.
  eapply same_page_trans; [|apply emit_page].
  apply same_page_fold. apply routeForWhisper_page.
Qed.

Lemma stopWhisper_page t st :
  cannot_route st = false →
  same_page (set_trackEnabled false (set_activeWhisperTarget None st))
            (stopWhisper selfId t st).
Proof.
  intros Hr. unfold stopWhisper. rewrite Hr. cbv zeta.
  eapply same_page_trans; [|apply emit_page].
  apply same_page_fold. apply routeBack_page.
Qed.

Lemma whisperStart_page_inv id st : page_inv st → page_inv (whisperStart selfId id st).
Proof.
  intros Hinv. unfold whisperStart. destruct (noMic st); [done|].
  destruct (isTalking st) eqn:Htk; [done|].
  destruct (truthy_opt (whisperTarget st)) eqn:Hwt; [done|]. simpl.
  set (s1 := set_whisperTarget (Some id) st).
  assert (page_inv s1) as Hs1.
  { destruct Hinv as (H1 & H2 & H3 & H4). unfold page_inv, hash_settled, s1. reads.
    split; [done|]. split; [rewrite Htk; by intros [? _]|]. done. }
  destruct (cannot_route s1) eqn:Hr.
  { unfold startWhisper. by rewrite Hr. }
  eapply page_inv_same; [by apply startWhisper_page|].
  destruct Hs1 as (H1 & H2 & H3 & H4). unfold page_inv, hash_settled in *.
  revert H1 H2 H3 H4. reads. intros H1 H2 H3 H4.
  split; [done|]. split; [done|]. split; [|done]. intros _ _. right. by eexists.
Qed.

Lemma whisperStop_page_inv st : page_inv st → page_inv (whisperStop selfId st).
Proof.
  intros Hinv. unfold whisperStop. destruct (whisperTarget st) as [t|] eqn:Hwt; [|done].
  destruct (truthy t) eqn:Ht; [|done].
  set (s1 := set_whisperTarget None st).
  assert (page_inv s1) as Hs1.
  { destruct Hinv as (H1 & H2 & H3 & H4). unfold page_inv, hash_settled, s1. reads.
    split; [done|]. split; [by intros [_ ?]|]. done. }
  destruct (cannot_route s1) eqn:Hr.
  { unfold stopWhisper. by rewrite Hr. }
  eapply page_inv_same; [by apply stopWhisper_page|].
  destruct Hs1 as (H1 & H2 & H3 & H4). unfold page_inv, hash_settled in *.
  revert H1 H2 H3 H4. reads. intros H1 H2 H3 H4.
  split; [done|]. split; [done|]. split; [|done]. by intros _ ?.
Qed.

Lemma setTalking_page b st :
  let st' := setTalking b (set_isTalking b st) in
  isTalking st' = b ∧ whisperTarget st' = whisperTarget st
  ∧ localStream st' = localStream st
  ∧ trackEnabled st' = (if localStream st then b else trackEnabled st)
  ∧ activeWhisperTarget st' = activeWhisperTarget st
  ∧ roomCode st' = roomCode st
  ∧ pendingKnocks st' = pendingKnocks st.
Proof. cbv zeta. unfold setTalking. destruct st as [? ? ? ? ? ? ? ? ? ? ? ? ? ? ? ? ? ? ? ? ? [] ? ? ? ? ?]; done. Qed.

Lemma sendTalkingState_page b st : same_page st (sendTalkingState b st).
Proof. unfold sendTalkingState, emit. same_page_frame. Qed.

(** Talking starts the same way from the mouth button and from the space
    bar, and stops the same way. *)
Lemma talk_on_page_inv st :
  page_inv st → truthy_opt (whisperTarget st) = false →
  page_inv (sendTalkingState true (setTalking true (set_isTalking true st))).
Proof.
  intros (H1 & H2 & H3 & H4) Hwt.
  eapply page_inv_same; [apply sendTalkingState_page|].
  destruct (setTalking_page true st) as (E1 & E2 & E3 & E4 & E5 & E6 & E7).
  unfold page_inv, hash_settled. rewrite E1, E2, E3, E4, E5, E6, E7, Hwt.
  split; [done|]. split; [by intros [_ ?]|]. split; [|done]. auto.
Qed.

Lemma talk_off_page_inv st :
  page_inv st →
  page_inv (sendTalkingState false (setTalking false (set_isTalking false st))).
Proof.
  intros (H1 & H2 & H3 & H4).
  eapply page_inv_same; [apply sendTalkingState_page|].
  destruct (setTalking_page false st) as (E1 & E2 & E3 & E4 & E5 & E6 & E7).
  unfold page_inv, hash_settled. rewrite E1, E2, E3, E4, E5, E6, E7.
  split; [done|]. split; [by intros [? _]|]. split; [|done].
  intros ->. done.
Qed.

Lemma fireTimer_page_inv id draws mic st :
  page_inv st → page_inv (fireTimer selfId id draws mic st).
Proof.
  intros Hinv. unfold fireTimer.
  assert (page_inv (clearTimeout id st)) as Hclr.
  { eapply page_inv_same; [|exact Hinv]. unfold clearTimeout. same_page_frame. }
  destruct (timer_of st id) as [[[] ?]|]; [| |done].
  - unfold admitTimerFired. destruct (negb _); [|done].
    eapply page_inv_same; [apply admitSelf_page|].
    eapply page_inv_same; [|exact Hclr]. same_page_frame.
  - unfold rejectTimerFired. by apply createRoom_page_inv, leaveRoom_page_inv.
Qed.

Lemma handle_page_inv ev st : page_inv st → page_inv (handle selfId ev st).
Proof.
  intros Hinv. pose proof (plain_event_page ev st) as Hplain.
  destruct ev; simpl in *; try (by eapply page_inv_same; [exact Hplain|exact Hinv]).
  - by apply createRoom_page_inv.
  - by apply joinRoom_page_inv.
  - by apply leaveRoom_page_inv.
  - by apply fireTimer_page_inv.
  - by apply whisperStart_page_inv.
  - by apply whisperStop_page_inv.
  - unfold pttStart. destruct (isTalking st) eqn:Htk; [done|].
    destruct (truthy_opt (whisperTarget st)) eqn:Hwt; [done|]. by apply talk_on_page_inv.
  - unfold pttStop. destruct (negb _); [done|]. by apply talk_off_page_inv.
Qed.

Lemma saveName_page currentName input st :
  same_page st (saveName currentName input st).
Proof.
  unfold saveName. cbv zeta. case_bool_decide; [|apply same_page_refl].
  unfold sendRename, emit. same_page_frame.
Qed.

Lemma react_page_inv i st : page_inv st → page_inv (react selfId i st).
Proof.
  intros Hinv. destruct i; simpl.
  - by apply handle_page_inv.
  - unfold handleHashChange. destruct (getRoomFromHash hash); [|done].
    destruct (_ && _); [|done]. by apply joinRoom_page_inv, leaveRoom_page_inv.
  - unfold transitionToNewRoom. by apply createRoom_page_inv, leaveRoom_page_inv.
  - eapply page_inv_same; [apply saveName_page|done].
  - unfold keyDown. destruct (_ || _); [done|]. destruct (noMic st); [done|].
    destruct (isTalking st) eqn:Htk; [done|].
    destruct (truthy_opt (whisperTarget st)) eqn:Hwt; [done|]. by apply talk_on_page_inv.
  - unfold keyUp. destruct (_ || _); [done|]. destruct (isTalking st); [|done].
    by apply talk_off_page_inv.
Qed.

Lemma init_page_inv name : page_inv (init name).
Proof.
  unfold page_inv; simpl. split; [constructor|]. split; [by intros [? _]|].
  split; [done|]. by intros code.
Qed.

Lemma play_page_inv inputs : ∀ st, page_inv st → page_inv (play selfId inputs st).
Proof.
  induction inputs as [|i inputs IH]; intros st Hinv; simpl; [done|].
  by apply IH, react_page_inv.
Qed.

End PageFacts.

Section MoreOperationFacts.
Import Net Page.

Variable selfId : string.

Lemma updatePeer_absent id u st : id ∉ ids (peers st) → updatePeer id u st = st.
Proof.
  intros Hid. unfold updatePeer.
  assert (map (fun p => if bool_decide (Peer.peerId p = id) then merge p u else p) (peers st)
          = peers st) as ->.
  { revert Hid. unfold ids. induction (peers st) as [|p ps IH]; simpl; [done|].
    intros Hid. apply not_elem_of_cons in Hid as [Hp Hps].
    rewrite bool_decide_false by done. by rewrite IH. }
  by destruct st.
Qed.

Lemma filter_ids_elem (ps : list Peer.t) id :
  id ∉ ids (filter (fun p => Peer.peerId p ≠ id) ps).
Proof.
  unfold ids. intros (p & -> & Hp)%list_elem_of_fmap.
  by apply list_elem_of_filter in Hp as [Hp _].
Qed.

(** What [joinRoom] sets up, whatever the state it starts from. *)
Lemma joinRoom_spec code mic st :
  truthy (trim (toUpperCase code)) = true →
  let st' := joinRoom selfId code mic st in
  room st' = Some (trim (toUpperCase code)) ∧ roomCode st' = trim (toUpperCase code)
  ∧ admitted st' = false ∧ view st' = Knocking ∧ peers st' = []
  ∧ myPeerId st' = selfId.
Proof.
  intros Hc. cbv zeta. unfold joinRoom. rewrite Hc.
  unfold setTimeout, setupRoom, initAudio, emit. cbv zeta.
  destruct st, mic; simpl; done.
Qed.

(** A generated code, character by character. *)
Lemma genCode_normal m0 m1 m2 m3 :
  (0 ≤ m0 < 2 ^ 53)%Z → (0 ≤ m1 < 2 ^ 53)%Z →
  (0 ≤ m2 < 2 ^ 53)%Z → (0 ≤ m3 < 2 ^ 53)%Z →
  let code := genCode (m0, m1, m2, m3) in
  Forall code_char (String.list_ascii_of_string code)
  ∧ trim (toUpperCase code) = code
  ∧ getRoomFromHash (written_hash code) = Some code.
Proof.
  intros H0 H1 H2 H3. cbv zeta.
  destruct (genCode_chars m0 m1 m2 m3 H0 H1 H2 H3)
    as (c0 & c1 & c2 & c3 & -> & A0 & A1 & A2 & A3).
  destruct (code_char_plain _ A0) as (B0 & U0 & S0), (code_char_plain _ A1) as (B1 & U1 & S1),
           (code_char_plain _ A2) as (B2 & U2 & S2), (code_char_plain _ A3) as (B3 & U3 & S3).
  split; [by do 4 (constructor; [done|])|].
  assert (toUpperCase (String c0 (String c1 (String c2 (String c3 EmptyString))))
          = String c0 (String c1 (String c2 (String c3 EmptyString)))) as Hup.
  { simpl. by rewrite U0, U1, U2, U3. }
  split.
  - rewrite Hup. apply trim_plain. simpl. by rewrite S0, S1, S2, S3.
  - rewrite getRoomFromHash_written; [by rewrite Hup|done|]. simpl. by rewrite B0, B1, B2, B3.
Qed.

End MoreOperationFacts.

Section PageMore.
Import Net Page.

Lemma substring_length n s : (String.length (String.substring 0 n s) ≤ n)%nat.
Proof.
  revert s. induction n as [|n IH]; intros [|c s]; simpl; try lia.
  specialize (IH s). lia.
Qed.

End PageMore.

Section AdmissionFacts.
Import Net Page.

Variable selfId : string.

Lemma info_set_names m id name :
  NoDup (map fst m) → truthy name = true →
  map (fun info => makePeer info.1 (Some info.2))
      (if info_has m id then info_set m id name else m)
  = map (fun p => if bool_decide (Peer.peerId p = id) then merge p (UpdUsername name) else p)
        (map (fun info => makePeer info.1 (Some info.2)) m).
Proof.
  intros Hnd Hname. unfold info_set, info_has.
  case_bool_decide as Hin.
  - clear Hin. induction m as [|[k v] m IH]; simpl in *; [done|].
    apply NoDup_cons in Hnd as [Hk Hnd].
    case_bool_decide as Hkid.
    + subst k. simpl. f_equal.
      * unfold makePeer, or_else. simpl. by rewrite Hname.
      * clear IH. induction m as [|[k' v'] m IH]; simpl in *; [done|].
        apply not_elem_of_cons in Hk as [Hne Hk]. apply NoDup_cons in Hnd as [_ Hnd].
        rewrite bool_decide_false by done. f_equal. by apply IH.
    + simpl. f_equal. by apply IH.
  - induction m as [|[k v] m IH]; simpl in *; [done|].
    apply NoDup_cons in Hnd as [Hk Hnd]. apply not_elem_of_cons in Hin as [Hne Hin].
    rewrite bool_decide_false by done. f_equal. by apply IH.
Qed.

Lemma info_set_same_keys m id name :
  map fst (if info_has m id then info_set m id name else m) = map fst m.
Proof.
  unfold info_set. destruct (info_has m id); [|done]. apply info_replace_keys.
Qed.

(** [getUsername] and [admitSelf], field by field. *)
Lemma getUsername_closed name id st :
  getUsername name id st =
  mkState (view st) (roomCode st) (myPeerId st) (username st)
    (map (fun p => if bool_decide (Peer.peerId p = id) then merge p (UpdUsername name) else p)
         (peers st))
    (isTalking st) (whisperTarget st) (noMic st) (knockEnabled st) (admitted st)
    (knockWaiting st)
    (if bool_decide (id ∈ knock_ids (pendingKnocks st))
     then map (fun k => if bool_decide (Knock.peerId k = id)
                        then Knock.mk (Knock.peerId k) name else k) (pendingKnocks st)
     else pendingKnocks st)
    (isCreator st) (creatorId st) (room st) (actions st) (peerTrackState st)
    (activeWhisperTarget st) (audioEls st)
    (if info_has (pendingPeerInfo st) id
     then info_set (pendingPeerInfo st) id name else pendingPeerInfo st)
    (admitTimeout st) (localStream st) (audioCtx st) (trackEnabled st) (timers st)
    (nextTimer st) (effects st).
Proof.
  destruct st. unfold getUsername, updatePeer. simpl.
  destruct (bool_decide _); simpl; destruct (info_has _ _); reflexivity.
Qed.

Lemma admitSelf_closed st :
  admitted st = false →
  admitSelf selfId st =
  mkState Room (roomCode st) (myPeerId st) (username st)
    (makePeer selfId (Some (username st))
     :: map (fun info => makePeer info.1 (Some info.2)) (pendingPeerInfo st))
    (isTalking st) (whisperTarget st) (noMic st) (knockEnabled st) true
    (knockWaiting st) (pendingKnocks st) (isCreator st) (creatorId st) (room st)
    (actions st) (peerTrackState st) (activeWhisperTarget st) (audioEls st) [] None
    (localStream st) (audioCtx st) (trackEnabled st)
    (match admitTimeout st with
     | Some id => filter (fun e => fst e ≠ id) (timers st)
     | None => timers st
     end)
    (nextTimer st)
    (if localStream st && bool_decide (is_Some (room st))
     then effects st
          ++ map AddStream (filter (fun id => id ≠ selfId) (map fst (pendingPeerInfo st)))
     else effects st).
Proof.
  intros Hadm. rewrite admitSelf_not_admitted by done.
  destruct st as [? ? ? ? ? ? ? ? ? ? ? ? ? ? rm ? ? ? ? ? tmo ls ? ? ? ? ?].
  unfold clearAdmitTimeout. simpl. destruct tmo, (ls && _); reflexivity.
Qed.

End AdmissionFacts.

Section HandshakeFacts.
Import Net Page.

Variable selfId : string.

(** [onPeerJoin] at a member of a room with knocking on. *)
Lemma onPeerJoin_knocking id st :
  admitted st = true → knockEnabled st = true → actions st = true →
  id ∉ knock_ids (pendingKnocks st) →
  onPeerJoin selfId id st
  = set_effects
      (effects st
       ++ [SendKnock MsgRequired (Some id);
           SendKnock (MsgMode true (or_else (creatorId st) selfId)) (Some id)]
       ++ (if localStream st then [AddStream id] else [])
       ++ [SendUsername (username st) (Some id)])
      (set_pendingKnocks (pendingKnocks st ++ [Knock.mk id id]) st).
Proof.
  intros Ha Hk Hact Hid. unfold onPeerJoin. rewrite Ha, Hk. cbv zeta.
  rewrite bool_decide_false by done.
  destruct st as [? ? ? ? ? ? ? ? ? ? ? ? ? ? ? ac ? ? ? ? ? ls ? ? ? ? ?].
  simpl in *. subst ac. unfold sendKnock, emit, getStream. simpl.
  destruct ls; simpl; by rewrite <- !app_assoc.
Qed.

(** [onPeerJoin] at a client that is not admitted yet. *)
Lemma onPeerJoin_waiting id st :
  admitted st = false →
  onPeerJoin selfId id st
  = set_effects (effects st ++ [SendUsername (username st) (Some id)])
      (set_pendingPeerInfo (info_set (pendingPeerInfo st) id id) st).
Proof. intros Ha. unfold onPeerJoin, emit. rewrite Ha. by destruct st. Qed.

Lemma find_knock_last ks id name :
  id ∉ knock_ids ks → find_knock (ks ++ [Knock.mk id name]) id = Some (Knock.mk id name).
Proof.
  unfold find_knock, knock_ids. induction ks as [|k ks IH]; simpl; intros Hid.
  - by rewrite bool_decide_true.
  - apply not_elem_of_cons in Hid as [Hne Hid].
    rewrite bool_decide_false by done. by apply IH.
Qed.

Lemma knocks_filter_absent ks id :
  id ∉ knock_ids ks → filter (fun k => Knock.peerId k ≠ id) ks = ks.
Proof.
  unfold knock_ids. induction ks as [|k ks IH]; simpl; intros Hid; [done|].
  apply not_elem_of_cons in Hid as [Hne Hid].
  rewrite filter_cons, decide_True by done. by rewrite IH.
Qed.

Lemma knocks_rename_absent ks id name :
  id ∉ knock_ids ks →
  map (fun k => if bool_decide (Knock.peerId k = id)
                then Knock.mk (Knock.peerId k) name else k) ks = ks.
Proof.
  unfold knock_ids. induction ks as [|k ks IH]; simpl; intros Hid; [done|].
  apply not_elem_of_cons in Hid as [Hne Hid].
  rewrite bool_decide_false by done. by rewrite IH.
Qed.

Lemma peers_rename_absent ps id name :
  id ∉ ids ps →
  map (fun p => if bool_decide (Peer.peerId p = id) then merge p (UpdUsername name) else p) ps
  = ps.
Proof.
  unfold ids. induction ps as [|p ps IH]; simpl; intros Hid; [done|].
  apply not_elem_of_cons in Hid as [Hne Hid].
  rewrite bool_decide_false by done. f_equal. by apply IH.
Qed.

(** Approving a pending knock of a peer that is not in the roster. *)
Lemma resolveKnock_approve id k st :
  actions st = true → id ∉ ids (peers st) →
  find_knock (pendingKnocks st) id = Some k →
  let st' := resolveKnock id true st in
  peers st' = peers st ++ [makePeer id (Some (Knock.username k))]
  ∧ pendingKnocks st' = filter (fun k => Knock.peerId k ≠ id) (pendingKnocks st)
  ∧ effects st' = effects st ++ [SendKnock (MsgReply id true) None].
Proof.
  intros Hact Hid Hk. cbv zeta.
  unfold resolveKnock, sendKnock, emit, moveKnockToPeers, removeKnock. rewrite Hact.
  reads. rewrite (proj2 (has_peer_false _ _)) by done. reads. by rewrite Hk.
Qed.

(** A peer seen once before admission, then named. *)
Lemma info_seen_then_named id name :
  (if info_has (info_set [] id id) id
   then info_set (info_set [] id id) id name else info_set [] id id)
  = [(id, name)].
Proof.
  assert (info_set [] id id = [(id, id)]) as -> by done.
  unfold info_set, info_has.
  rewrite (bool_decide_true (id ∈ _)) by (simpl; left).
  simpl. by rewrite (bool_decide_true (id = id)).
Qed.

End HandshakeFacts.

Section SeatFacts.
Import Net Page.

Variable selfId : string.

Ltac same_seat_frame := unfold same_seat; split_conds; reads; done.

Lemma same_seat_refl st : same_seat selfId st st.
Proof. by unfold same_seat. Qed.

Lemma same_seat_trans st1 st2 st3 :
  same_seat selfId st1 st2 → same_seat selfId st2 st3 → same_seat selfId st1 st3.
Proof.
  unfold same_seat. intros (-> & -> & -> & -> & H) (-> & -> & -> & -> & H'). auto 10.
Qed.

Lemma same_seat_fold {A} (f : State → A → State) l :
  (∀ s a, same_seat selfId s (f s a)) → ∀ s, same_seat selfId s (fold_left f l s).
Proof.
  intros Hf. induction l as [|a l IH]; intros s; simpl; [apply same_seat_refl|].
  eapply same_seat_trans; [apply Hf|apply IH].
Qed.

Lemma seated_same st st' : same_seat selfId st st' → seated selfId st → seated selfId st'.
Proof.
  unfold same_seat, seated. intros (-> & -> & -> & -> & H).
  destruct (room st); [|done]. intros (? & ? & ?). auto.
Qed.

Lemma emit_seat e st : same_seat selfId st (emit e st).
Proof. unfold emit. same_seat_frame. Qed.

Lemma sendKnock_seat m t st : same_seat selfId st (sendKnock m t st).
Proof.
  unfold sendKnock. destruct (actions st) eqn:E; [apply emit_seat|apply same_seat_refl].
Qed.

Lemma sendTalkingState_seat b st : same_seat selfId st (sendTalkingState b st).
Proof.
  unfold sendTalkingState. destruct (actions st) eqn:E; [apply emit_seat|apply same_seat_refl].
Qed.

Lemma updatePeer_seat id u st : same_seat selfId st (updatePeer id u st).
Proof.
  unfold same_seat. rewrite updatePeer_ids. unfold updatePeer. reads. done.
Qed.

Lemma removeKnock_seat id st : same_seat selfId st (removeKnock id st).
Proof. unfold removeKnock. same_seat_frame. Qed.

Lemma moveKnockToPeers_seat id st : same_seat selfId st (moveKnockToPeers id st).
Proof.
  unfold same_seat. rewrite moveKnockToPeers_peers.
  unfold moveKnockToPeers. destruct (has_peer (peers st) id); reads; [done|].
  repeat (split; [done|]). rewrite ids_app. set_solver.
Qed.

Lemma onPeerJoin_seat id st : same_seat selfId st (onPeerJoin selfId id st).
Proof.
  unfold onPeerJoin. cbv zeta.
  assert (∀ (b : bool) s s', same_seat selfId s s' →
            same_seat selfId s (if b then emit (AddStream id) s' else s')) as Hif.
  { intros b s s' H. destruct b; [|done].
    eapply same_seat_trans; [exact H|apply emit_seat]. }
  destruct (admitted st) eqn:Ha; [destruct (knockEnabled st) eqn:Hk|].
  - eapply same_seat_trans; [|apply emit_seat]. apply Hif.
    eapply same_seat_trans; [|apply sendKnock_seat].
    eapply same_seat_trans; [|apply sendKnock_seat].
    case_bool_decide as Hin; [apply same_seat_refl|]. same_seat_frame.
  - set (st1 := if has_peer (peers st) id then st else _).
    assert (same_seat selfId st st1) as H1.
    { unfold st1. destruct (has_peer _ _); [apply same_seat_refl|].
      unfold same_seat. reads. repeat (split; [done|]). rewrite ids_app. set_solver. }
    set (st2 := emit _ (sendKnock _ _ st1)).
    assert (same_seat selfId st st2) as H2.
    { eapply same_seat_trans; [exact H1|].
      eapply same_seat_trans; [apply sendKnock_seat|apply emit_seat]. }
    destruct (getStream st2); [|done].
    destruct (whisper_excludes _ _); [|by eapply same_seat_trans; [exact H2|apply emit_seat]].
    destruct (_ && _); [|by eapply same_seat_trans; [exact H2|apply emit_seat]].
    eapply same_seat_trans; [exact H2|]. unfold emit. same_seat_frame.
  - unfold emit. same_seat_frame.
Qed.

Lemma startWhisper_seat t st : same_seat selfId st (startWhisper selfId t st).
Proof.
  unfold startWhisper. cbv zeta. destruct (cannot_route st); [apply same_seat_refl|].
  eapply same_seat_trans; [|apply emit_seat].
  eapply same_seat_trans;
    [|apply same_seat_fold; intros; unfold routeForWhisper, emit; same_seat_frame].
  same_seat_frame.
Qed.

Lemma stopWhisper_seat t st : same_seat selfId st (stopWhisper selfId t st).
Proof.
  unfold stopWhisper. cbv zeta. destruct (cannot_route st); [apply same_seat_refl|].
  eapply same_seat_trans; [|apply emit_seat].
  eapply same_seat_trans;
    [|apply same_seat_fold; intros; unfold routeBack, emit; same_seat_frame].
  same_seat_frame.
Qed.

(** The events that neither take nor give up a room nor admit the
    client. *)
Lemma plain_event_seat ev st :
  match ev with
  | EvCreateRoom _ _ | EvJoinRoom _ _ | EvLeaveRoom | EvTimer _ _ _
  | EvKnock MsgAdmitted _ | EvKnock (MsgReply _ _) _ | EvPeerLeave _ => True
  | _ => same_seat selfId st (handle selfId ev st)
  end.
Proof.
  destruct ev; try done; simpl.
  - apply onPeerJoin_seat.
  - unfold onPeerStream. same_seat_frame.
  - unfold getUsername. cbv zeta.
    set (st1 := updatePeer _ _ st).
    assert (same_seat selfId st st1) as H1 by apply updatePeer_seat.
    eapply same_seat_trans; [exact H1|]. same_seat_frame.
  - apply updatePeer_seat.
  - apply updatePeer_seat.
  - apply updatePeer_seat.
  - apply updatePeer_seat.
  - destruct msg; try done; simpl. unfold moveAllKnocks.
    destruct (_ && _); [|same_seat_frame].
    set (s1 := fold_left _ _ _).
    assert (same_seat selfId st s1) as H1.
    { unfold s1. eapply same_seat_trans;
        [|apply same_seat_fold; intros; apply moveKnockToPeers_seat].
      same_seat_frame. }
    eapply same_seat_trans; [exact H1|]. same_seat_frame.
  - unfold whisperStart. destruct (noMic st); [apply same_seat_refl|].
    destruct (_ || _); [apply same_seat_refl|].
    eapply same_seat_trans; [|apply startWhisper_seat]. same_seat_frame.
  - unfold whisperStop. destruct (whisperTarget st); [|apply same_seat_refl].
    destruct (truthy _); [|apply same_seat_refl].
    eapply same_seat_trans; [|apply stopWhisper_seat]. same_seat_frame.
  - unfold pttStart. destruct (_ || _); [apply same_seat_refl|].
    eapply same_seat_trans; [|apply sendTalkingState_seat].
    unfold setTalking. same_seat_frame.
  - unfold pttStop. destruct (negb _); [apply same_seat_refl|].
    eapply same_seat_trans; [|apply sendTalkingState_seat].
    unfold setTalking. same_seat_frame.
  - unfold toggleKnockMode. cbv zeta. destruct (negb _); [apply same_seat_refl|].
    eapply same_seat_trans; [|apply sendKnock_seat].
    destruct (_ && _); [|same_seat_frame].
    set (s1 := fold_left _ _ _).
    assert (same_seat selfId st s1) as H1.
    { unfold s1. eapply same_seat_trans;
        [|apply same_seat_fold; intros s k;
          eapply same_seat_trans; [apply sendKnock_seat|apply moveKnockToPeers_seat]].
      same_seat_frame. }
    eapply same_seat_trans; [exact H1|]. same_seat_frame.
  - unfold resolveKnock. cbv zeta.
    eapply same_seat_trans; [|apply removeKnock_seat].
    destruct approved.
    + eapply same_seat_trans; [apply sendKnock_seat|apply moveKnockToPeers_seat].
    + apply sendKnock_seat.
  - unfold sendRename. destruct (actions st) eqn:E; [apply emit_seat|apply same_seat_refl].
  - unfold visibilityChange. destruct (negb _); [apply same_seat_refl|].
    eapply same_seat_trans; [|apply updatePeer_seat]. apply emit_seat.
Qed.

Lemma leaveRoom_seated st : seated selfId (leaveRoom st).
Proof. rewrite leaveRoom_closed. by unfold seated. Qed.

Lemma createRoom_seated draws mic st : seated selfId (createRoom selfId draws mic st).
Proof.
  unfold seated, createRoom, setupRoom, initAudio, emit. cbv zeta.
  destruct st, mic; simpl; (split; [done|]); (split; [done|]); intros _;
    unfold ids; simpl; left.
Qed.

Lemma joinRoom_seated code mic st :
  seated selfId st → seated selfId (joinRoom selfId code mic st).
Proof.
  intros Hs. unfold joinRoom. destruct (negb _); [done|].
  unfold seated, setTimeout, setupRoom, initAudio, emit. cbv zeta.
  destruct st, mic; simpl; done.
Qed.

Lemma admitSelf_seated st : seated selfId st → seated selfId (admitSelf selfId st).
Proof.
  intros Hs. destruct (admitted st) eqn:Ha.
  { unfold admitSelf. by rewrite Ha. }
  rewrite admitSelf_closed by done. revert Hs. unfold seated. simpl.
  destruct (room st); [|done]. intros (? & ? & _). repeat (split; [done|]).
  intros _. unfold ids. simpl. left.
Qed.

Lemma handle_seated ev st :
  seated selfId st → enabled selfId st ev = true → seated selfId (handle selfId ev st).
Proof.
  intros Hs Hen. pose proof (plain_event_seat ev st) as Hplain.
  destruct ev; simpl in *; try (by eapply seated_same; [exact Hplain|exact Hs]).
  - apply createRoom_seated.
  - by apply joinRoom_seated.
  - apply leaveRoom_seated.
  - apply andb_true_iff in Hen as [_ Hne%bool_decide_eq_true].
    eapply seated_same; [|exact Hs]. unfold onPeerLeave, removeKnock. cbv zeta.
    unfold same_seat. split_conds; reads; repeat (split; [done|]);
      intros (p & -> & Hp)%list_elem_of_fmap; apply list_elem_of_fmap;
      exists p; (split; [done|]); apply list_elem_of_filter; split; congruence.
  - destruct msg as [|en cr| |target approved]; simpl;
      try (by eapply seated_same; [exact Hplain|exact Hs]).
    + by apply admitSelf_seated.
    + case_bool_decide.
      * destruct approved; [by apply admitSelf_seated|].
        eapply seated_same; [|exact Hs]. unfold setTimeout. same_seat_frame.
      * destruct (admitted st); [|done].
        eapply seated_same; [|exact Hs].
        eapply same_seat_trans; [|apply removeKnock_seat].
        destruct approved; [apply moveKnockToPeers_seat|apply same_seat_refl].
  - unfold fireTimer. destruct (timer_of st id) as [[[] ?]|]; [| |done].
    + unfold admitTimerFired. destruct (negb _).
      * apply admitSelf_seated. eapply seated_same; [|exact Hs].
        unfold clearTimeout. same_seat_frame.
      * eapply seated_same; [|exact Hs]. unfold clearTimeout. same_seat_frame.
    + unfold rejectTimerFired. apply createRoom_seated.
Qed.

Lemma run_seated evs : ∀ st,
  seated selfId st → admissible selfId evs st = true → seated selfId (run selfId evs st).
Proof.
  induction evs as [|ev evs IH]; intros st Hs Hadm; simpl in *; [done|].
  apply andb_true_iff in Hadm as [Hen Hadm]. by apply IH; [apply handle_seated|].
Qed.

End SeatFacts.

Section HashFacts.
Import Page.
Open Scope Z_scope.

Lemma to_int32_range x : - 2 ^ 31 ≤ to_int32 x < 2 ^ 31.
Proof.
  unfold to_int32. pose proof (Z.mod_pos_bound (x + 2 ^ 31) (2 ^ 32) ltac:(lia)). lia.
Qed.

Lemma to_int32_congr x y k : y = x + k * 2 ^ 32 → to_int32 y = to_int32 x.
Proof.
  intros ->. unfold to_int32. f_equal.
  replace (x + k * 2 ^ 32 + 2 ^ 31) with (x + 2 ^ 31 + k * 2 ^ 32) by lia.
  apply Z_mod_plus_full.
Qed.

Lemma to_int32_wrap x : ∃ k, to_int32 x = x + k * 2 ^ 32.
Proof.
  exists (- ((x + 2 ^ 31) / 2 ^ 32)). unfold to_int32.
  pose proof (Z.div_mod (x + 2 ^ 31) (2 ^ 32) ltac:(lia)). lia.
Qed.

(** One round of the loop is a multiplication by 31 and an addition,
    cut to 32 bits. *)
Lemma hash_round z c :
  to_int32 (to_int32 (Z.shiftl (to_int32 z) 5) - to_int32 z + c) = to_int32 (31 * z + c).
Proof.
  rewrite Z.shiftl_mul_pow2 by lia.
  destruct (to_int32_wrap z) as [k1 ->].
  destruct (to_int32_wrap ((z + k1 * 2 ^ 32) * 2 ^ 5)) as [k2 ->].
  apply (to_int32_congr _ _ (31 * k1 + k2)). lia.
Qed.

Lemma hash_loop str : ∀ z,
  fold_left (fun hash c => to_int32 (to_int32 (Z.shiftl hash 5) - hash + c)) str (to_int32 z)
  = to_int32 (fold_left (fun h c => 31 * h + c) str z).
Proof.
  induction str as [|c str IH]; intros z; simpl; [done|].
  rewrite hash_round. apply IH.
Qed.

End HashFacts.


(* ================================================================== *)
(** * The room module: leaving, joining, knocking *)
(* ================================================================== *)

(** X11.  A second [leaveRoom] changes nothing and sends nothing. *)
Theorem leaveRoom_idempotent (st : Net.State) :
  Net.leaveRoom (Net.leaveRoom st) = Net.leaveRoom st.
Proof.
  rewrite (leaveRoom_closed (Net.leaveRoom st)). rewrite !leaveRoom_closed. reflexivity.
Qed.

(** X12.  When a peer leaves, nothing of it stays behind: it is in neither
    the roster, the pending knocks nor the peers seen before admission,
    it has no audio element and no entry in the track table; the entries
    of all other peers are kept as they were; nothing is sent. *)
Theorem onPeerLeave_forgets (peerId : string) (st : Net.State) :
  let st' := Net.onPeerLeave peerId st in
  ((peerId ∉ Net.ids (Net.peers st'))
   ∧ (peerId ∉ Net.knock_ids (Net.pendingKnocks st'))
   ∧ (peerId ∉ map fst (Net.pendingPeerInfo st'))
   ∧ (peerId ∉ Net.audioEls st')
   ∧ Net.peerTrackState st' !! peerId = None)
  ∧ (Net.peers st' = filter (fun p => Net.Peer.peerId p ≠ peerId) (Net.peers st)
     ∧ Net.pendingKnocks st'
       = filter (fun k => Net.Knock.peerId k ≠ peerId) (Net.pendingKnocks st)
     ∧ Net.pendingPeerInfo st' = filter (fun e => fst e ≠ peerId) (Net.pendingPeerInfo st)
     ∧ (∀ other, other ≠ peerId →
          (other ∈ Net.audioEls st' ↔ other ∈ Net.audioEls st)
          ∧ Net.peerTrackState st' !! other = Net.peerTrackState st !! other))
  ∧ Net.effects st' = Net.effects st.
Proof.
  cbv zeta.
  assert (∀ s, let s' := Net.onPeerLeave peerId s in
    Net.peers s' = filter (fun p => Net.Peer.peerId p ≠ peerId) (Net.peers s)
    ∧ Net.pendingKnocks s'
      = filter (fun k => Net.Knock.peerId k ≠ peerId) (Net.pendingKnocks s)
    ∧ Net.pendingPeerInfo s' = filter (fun e => fst e ≠ peerId) (Net.pendingPeerInfo s)
    ∧ Net.audioEls s' = Net.audioEls s ∖ {[peerId]}
    ∧ Net.peerTrackState s' = delete peerId (Net.peerTrackState s)
    ∧ Net.effects s' = Net.effects s) as H.
  { intros s. cbv zeta. unfold Net.onPeerLeave, Net.removeKnock, Net.info_delete. cbv zeta.
    split_conds; reads; done. }
  destruct (H st) as (E1 & E2 & E3 & E4 & E5 & E6).
  rewrite E1, E2, E3, E4, E5, E6. split; [|split; [|done]].
  - split; [apply filter_ids_elem|]. split.
    { unfold Net.knock_ids. intros (k & -> & Hk)%list_elem_of_fmap.
      by apply list_elem_of_filter in Hk as [Hk _]. }
    split.
    { intros (e & -> & He)%list_elem_of_fmap.
      by apply list_elem_of_filter in He as [He _]. }
    split; [set_solver|]. apply lookup_delete_eq.
  - repeat (split; [done|]). intros other Hne. split; [set_solver|].
    by apply lookup_delete_ne.
Qed.

(** X13.  Presence messages from a peer that is not in the roster are
    dropped: [talking], [whisper], [rename] and [idle] leave the state as
    it is, and so does [username] unless the sender is a pending knock or
    was seen before admission. *)
Theorem unknown_peer_updates_dropped (peerId : string) (st : Net.State) :
  peerId ∉ Net.ids (Net.peers st) →
  (∀ b, Net.getTalking b peerId st = st)
  ∧ (∀ b, Net.getWhisper b peerId st = st)
  ∧ (∀ name, Net.getRename name peerId st = st)
  ∧ (∀ b, Net.getIdle b peerId st = st)
  ∧ (∀ name, peerId ∉ Net.knock_ids (Net.pendingKnocks st) →
       peerId ∉ map fst (Net.pendingPeerInfo st) →
       Net.getUsername name peerId st = st).
Proof.
  intros Hid. repeat split; intros; try by apply updatePeer_absent.
  unfold Net.getUsername. cbv zeta. rewrite updatePeer_absent by done.
  rewrite bool_decide_false by done. unfold Net.info_has.
  by rewrite bool_decide_false by done.
Qed.

Lemma unknown_peer_updates_dropped_witness :
  let st := Net.createRoom "me" (0, 0, 0, 0)%Z true (Net.init "u") in
  Net.getTalking true "stranger" st = st
  ∧ Net.getUsername "eve" "stranger" st = st.
Proof.
  intros st.
  assert ("stranger" ∉ Net.ids (Net.peers st)) as H.
  { vm_compute. intros [E|E]%elem_of_cons; [discriminate|by apply elem_of_nil in E]. }
  destruct (unknown_peer_updates_dropped "stranger" st H) as (H1 & _ & _ & _ & H5).
  split; [apply H1|]. apply H5.
  - vm_compute. apply not_elem_of_nil.
  - vm_compute. apply not_elem_of_nil.
Defined.

(** X14.  When the creator leaves, knocking is switched off and the creator
    forgotten, yet nobody is promoted: the knocks of the other peers stay
    pending; and from then on [toggleKnockMode] does nothing, since the
    client is not the creator. *)
Theorem creator_departure (selfId creator : string) (st : Net.State) :
  Net.creatorId st = Some creator →
  let st' := Net.onPeerLeave creator st in
  Net.knockEnabled st' = false ∧ Net.creatorId st' = None
  ∧ Net.peers st' = filter (fun p => Net.Peer.peerId p ≠ creator) (Net.peers st)
  ∧ Net.pendingKnocks st'
    = filter (fun k => Net.Knock.peerId k ≠ creator) (Net.pendingKnocks st)
  ∧ Net.toggleKnockMode selfId st' = st'.
Proof.
  intros Hc. cbv zeta.
  assert (Net.knockEnabled (Net.onPeerLeave creator st) = false
          ∧ Net.creatorId (Net.onPeerLeave creator st) = None
          ∧ Net.peers (Net.onPeerLeave creator st)
            = filter (fun p => Net.Peer.peerId p ≠ creator) (Net.peers st)
          ∧ Net.pendingKnocks (Net.onPeerLeave creator st)
            = filter (fun k => Net.Knock.peerId k ≠ creator) (Net.pendingKnocks st))
    as (E1 & E2 & E3 & E4).
  { unfold Net.onPeerLeave, Net.removeKnock. cbv zeta. reads.
    rewrite bool_decide_true by done. by reads. }
  repeat (split; [done|]).
  unfold Net.toggleKnockMode. by rewrite E2.
Qed.

Lemma creator_departure_witness :
  let st := Net.run "me" [Net.EvJoinRoom "abcd" true; Net.EvPeerJoin "A";
                          Net.EvKnock (Net.MsgMode true "A") "A";
                          Net.EvKnock Net.MsgAdmitted "A"; Net.EvPeerJoin "B"]
                    (Net.init "u") in
  Net.knockEnabled st = true
  ∧ Net.knock_ids (Net.pendingKnocks (Net.onPeerLeave "A" st)) = ["B"]
  ∧ Net.knockEnabled (Net.onPeerLeave "A" st) = false
  ∧ Net.toggleKnockMode "me" (Net.onPeerLeave "A" st) = Net.onPeerLeave "A" st.
Proof.
  intros st.
  destruct (creator_departure "me" "A" st eq_refl) as (H1 & _ & _ & H4 & H5).
  split; [reflexivity|]. split; [|split; [exact H1|exact H5]].
  exact (eq_trans (f_equal Net.knock_ids H4) eq_refl).
Defined.

(** X15.  A user name that arrives before the client is admitted and one that
    arrives after it lead to the same state: [admitSelf] builds the roster
    entry from the name kept in [pendingPeerInfo], [getUsername] after
    admission renames the entry already built. *)
Theorem username_before_or_after_admission
    (selfId name peerId : string) (st : Net.State) :
  Net.admitted st = false → Net.truthy name = true → peerId ≠ selfId →
  NoDup (map fst (Net.pendingPeerInfo st)) →
  Net.admitSelf selfId (Net.getUsername name peerId st)
  = Net.getUsername name peerId (Net.admitSelf selfId st).
Proof.
  intros Hadm Hname Hne Hnd.
  rewrite (getUsername_closed name peerId st).
  rewrite (admitSelf_closed selfId st Hadm).
  rewrite admitSelf_closed by done.
  rewrite getUsername_closed. simpl.
  rewrite (bool_decide_false (selfId = peerId)) by congruence.
  rewrite info_set_same_keys, info_set_names by done.
  reflexivity.
Qed.

Lemma username_before_or_after_admission_witness :
  let st := Net.run "me" [Net.EvJoinRoom "abcd" true; Net.EvPeerJoin "A";
                          Net.EvPeerJoin "B"] (Net.init "u") in
  Net.admitSelf "me" (Net.getUsername "ann" "A" st)
  = Net.getUsername "ann" "A" (Net.admitSelf "me" st)
  ∧ map Net.Peer.username (Net.peers (Net.admitSelf "me" (Net.getUsername "ann" "A" st)))
    = ["u"; "ann"; "B"].
Proof.
  intros st. split; [|reflexivity].
  apply (username_before_or_after_admission "me" "ann" "A" st).
  - reflexivity.
  - reflexivity.
  - discriminate.
  - vm_compute. apply NoDup_cons_2.
    + intros [E|E]%elem_of_cons; [discriminate|by apply elem_of_nil in E].
    + apply NoDup_singleton.
Defined.

(** X16.  The knock handshake between a member [a] of a room with knocking
    on and a newcomer [b].  When each has processed the other's join and
    user name, and [b] the ['required'] and ['mode'] messages [a] sent to
    it: [a] lists [b] as a pending knock under [b]'s user name and not in
    its roster, and [b] is still not admitted but knows that knocking is
    on and who the creator is.  When [a] then approves and [b] processes
    the reply [a] broadcast: [a] has [b] as the last entry of its roster
    and no longer pending, and [b] is admitted, shows the room and lists
    itself and [a], each under its user name. *)
Theorem knock_handshake (a b : string) (stA stB : Net.State) :
  a ≠ b →
  Net.admitted stA = true → Net.knockEnabled stA = true → Net.actions stA = true →
  b ∉ Net.ids (Net.peers stA) → b ∉ Net.knock_ids (Net.pendingKnocks stA) →
  Net.admitted stB = false → Net.pendingPeerInfo stB = [] →
  let creator := Net.or_else (Net.creatorId stA) a in
  let A1 := Net.getUsername (Net.username stB) b (Net.onPeerJoin a b stA) in
  let B1 := Net.getKnock b (Net.MsgMode true creator) a
              (Net.getKnock b Net.MsgRequired a
                 (Net.getUsername (Net.username stA) a (Net.onPeerJoin b a stB))) in
  let A2 := Net.resolveKnock b true A1 in
  let B2 := Net.getKnock b (Net.MsgReply b true) a B1 in
  (Net.effects A1
   = Net.effects stA
     ++ [Net.SendKnock Net.MsgRequired (Some b);
         Net.SendKnock (Net.MsgMode true creator) (Some b)]
     ++ (if Net.localStream stA then [Net.AddStream b] else [])
     ++ [Net.SendUsername (Net.username stA) (Some b)]
   ∧ Net.effects B1 = Net.effects stB ++ [Net.SendUsername (Net.username stB) (Some a)]
   ∧ Net.effects A2 = Net.effects A1 ++ [Net.SendKnock (Net.MsgReply b true) None])
  ∧ (Net.peers A1 = Net.peers stA
     ∧ Net.pendingKnocks A1 = Net.pendingKnocks stA ++ [Net.Knock.mk b (Net.username stB)]
     ∧ Net.admitted B1 = false
     ∧ Net.knockEnabled B1 = true ∧ Net.creatorId B1 = Some creator)
  ∧ (Net.peers A2 = Net.peers stA ++ [Net.makePeer b (Some (Net.username stB))]
     ∧ Net.pendingKnocks A2 = Net.pendingKnocks stA
     ∧ Net.admitted B2 = true ∧ Net.view B2 = Net.Room
     ∧ Net.peers B2 = [Net.makePeer b (Some (Net.username stB));
                       Net.makePeer a (Some (Net.username stA))]
     ∧ Net.admitTimeout B2 = None).
Proof.
  intros Hab HaA HkA HactA HbP HbK HaB HiB. cbv zeta.
  set (creator := Net.or_else (Net.creatorId stA) a).
  (* the member *)
  set (A0 := Net.onPeerJoin a b stA).
  assert (Net.peers A0 = Net.peers stA
          ∧ Net.pendingKnocks A0 = Net.pendingKnocks stA ++ [Net.Knock.mk b b]
          ∧ Net.actions A0 = true
          ∧ Net.effects A0
            = Net.effects stA
              ++ [Net.SendKnock Net.MsgRequired (Some b);
                  Net.SendKnock (Net.MsgMode true creator) (Some b)]
              ++ (if Net.localStream stA then [Net.AddStream b] else [])
              ++ [Net.SendUsername (Net.username stA) (Some b)])
    as (A01 & A02 & A03 & A04).
  { unfold A0. rewrite (onPeerJoin_knocking a b stA) by done. by reads. }
  set (A1 := Net.getUsername (Net.username stB) b A0).
  assert (Net.peers A1 = Net.peers stA
          ∧ Net.pendingKnocks A1
            = Net.pendingKnocks stA ++ [Net.Knock.mk b (Net.username stB)]
          ∧ Net.actions A1 = true ∧ Net.effects A1 = Net.effects A0)
    as (A11 & A12 & A13 & A14).
  { unfold A1. rewrite getUsername_closed.
    cbn [Net.peers Net.pendingKnocks Net.actions Net.effects]. rewrite A01, A02.
    rewrite peers_rename_absent by done.
    rewrite bool_decide_true
      by (unfold Net.knock_ids; rewrite map_app; apply elem_of_app; right; left).
    rewrite map_app, knocks_rename_absent by done. simpl.
    by rewrite bool_decide_true. }
  destruct (resolveKnock_approve b (Net.Knock.mk b (Net.username stB)) A1)
    as (A21 & A22 & A23).
  { done. }
  { by rewrite A11. }
  { rewrite A12. by apply find_knock_last. }
  (* the newcomer *)
  set (B0 := Net.getUsername (Net.username stA) a (Net.onPeerJoin b a stB)).
  assert (Net.admitted B0 = false ∧ Net.pendingPeerInfo B0 = [(a, Net.username stA)]
          ∧ Net.username B0 = Net.username stB
          ∧ Net.effects B0
            = Net.effects stB ++ [Net.SendUsername (Net.username stB) (Some a)])
    as (B01 & B02 & B03 & B05).
  { unfold B0. rewrite (onPeerJoin_waiting b a stB) by done. rewrite HiB.
    rewrite getUsername_closed. simpl. reads. by rewrite info_seen_then_named. }
  clearbody B0.
  set (B1 := Net.getKnock b (Net.MsgMode true creator) a (Net.getKnock b Net.MsgRequired a B0)).
  assert (Net.admitted B1 = false ∧ Net.pendingPeerInfo B1 = [(a, Net.username stA)]
          ∧ Net.username B1 = Net.username stB ∧ Net.effects B1 = Net.effects B0
          ∧ Net.knockEnabled B1 = true ∧ Net.creatorId B1 = Some creator)
    as (B11 & B12 & B13 & B14 & B15 & B16).
  { unfold B1. simpl. by reads. }
  clearbody B1 A1 A0.
  assert (Net.getKnock b (Net.MsgReply b true) a B1 = Net.admitSelf b B1) as ->.
  { simpl. by rewrite bool_decide_true. }
  rewrite (admitSelf_closed b B1 B11). simpl. rewrite B12, B13, B14, B05. simpl.
  rewrite A21, A22, A23, A11, A12, A14, A04.
  rewrite filter_app, knocks_filter_absent by done.
  rewrite filter_cons, decide_False by (by intros ?). rewrite app_nil_r.
  done.
Qed.

Lemma knock_handshake_witness :
  let stA := Net.toggleKnockMode "a" (Net.createRoom "a" (0, 0, 0, 0)%Z true (Net.init "ann")) in
  let stB := Net.joinRoom "b" "AAAA" true (Net.init "bob") in
  let A2 := Net.resolveKnock "b" true
              (Net.getUsername "bob" "b" (Net.onPeerJoin "a" "b" stA)) in
  let B2 := Net.getKnock "b" (Net.MsgReply "b" true) "a"
              (Net.getKnock "b" (Net.MsgMode true "a") "a"
                 (Net.getKnock "b" Net.MsgRequired "a"
                    (Net.getUsername "ann" "a" (Net.onPeerJoin "b" "a" stB)))) in
  map Net.Peer.username (Net.peers A2) = ["ann"; "bob"]
  ∧ map Net.Peer.username (Net.peers B2) = ["bob"; "ann"]
  ∧ Net.view B2 = Net.Room.
Proof.
  intros stA stB A2 B2.
  destruct (knock_handshake "a" "b" stA stB) as (_ & _ & H1 & _ & _ & H4 & H5 & _).
  - discriminate.
  - reflexivity.
  - reflexivity.
  - reflexivity.
  - vm_compute. intros [E|E]%elem_of_cons; [discriminate|by apply elem_of_nil in E].
  - vm_compute. apply not_elem_of_nil.
  - reflexivity.
  - reflexivity.
  - split; [exact (eq_trans (f_equal (map Net.Peer.username) H1) eq_refl)|].
    split; [exact (eq_trans (f_equal (map Net.Peer.username) H5) eq_refl)|exact H4].
Defined.

(** X17.  An admitted client is in its own roster.  In every run, while the
    client holds a room it goes by the id the transport gave it, and once
    it is admitted the roster has an entry under that id - the entry the
    page draws the push-to-talk mouth from; the send functions are bound
    exactly while a room is held. *)
Theorem own_entry_in_roster (selfId name : string) (evs : list Net.Event) :
  Net.admissible selfId evs (Net.init name) = true →
  let st := Net.run selfId evs (Net.init name) in
  (is_Some (Net.room st) →
     Net.myPeerId st = selfId
     ∧ (Net.admitted st = true → Net.myPeerId st ∈ Net.ids (Net.peers st)))
  ∧ (Net.actions st = true ↔ is_Some (Net.room st)).
Proof.
  intros Hadm. cbv zeta.
  pose proof (run_seated selfId evs (Net.init name) eq_refl Hadm) as Hs.
  unfold Page.seated in Hs. destruct (Net.room _) as [c|].
  - destruct Hs as (H1 & H2 & H3). split; [|by split].
    intros _. split; [done|]. by rewrite H1.
  - split; [by intros [? ?]|]. rewrite Hs. split; [done|by intros [? ?]].
Qed.

Lemma own_entry_in_roster_witness :
  let st := Net.run "me" [Net.EvJoinRoom "abcd" true; Net.EvPeerJoin "A";
                          Net.EvKnock Net.MsgAdmitted "A"; Net.EvPeerLeave "A"]
                    (Net.init "u") in
  Net.myPeerId st = "me" ∧ Net.myPeerId st ∈ Net.ids (Net.peers st).
Proof.
  intros st.
  destruct (own_entry_in_roster "me" "u"
              [Net.EvJoinRoom "abcd" true; Net.EvPeerJoin "A";
               Net.EvKnock Net.MsgAdmitted "A"; Net.EvPeerLeave "A"] eq_refl) as (H & _).
  destruct H as [H1 H2]; [by eexists|]. split; [exact H1|]. apply H2. reflexivity.
Defined.

(** X18.  The pending knocks never list a peer twice, whatever the page
    went through. *)
Theorem pending_knocks_unique (selfId name : string) (inputs : list Page.Input) :
  NoDup (Net.knock_ids (Net.pendingKnocks (Page.play selfId inputs (Net.init name)))).
Proof.
  by destruct (play_page_inv selfId inputs _ (init_page_inv name)) as (H & _).
Qed.

(** X19.  A generated room code consists of four characters of the code
    alphabet; [joinRoom] would normalise it to itself; and the hash that
    [setupRoom] writes for it reads back, through [getRoomFromHash], as
    that very code. *)
Theorem generated_code_round_trip (m0 m1 m2 m3 : Z) :
  (0 ≤ m0 < 2 ^ 53)%Z → (0 ≤ m1 < 2 ^ 53)%Z →
  (0 ≤ m2 < 2 ^ 53)%Z → (0 ≤ m3 < 2 ^ 53)%Z →
  let code := Net.genCode (m0, m1, m2, m3) in
  String.length code = 4%nat
  ∧ Forall Page.code_char (String.list_ascii_of_string code)
  ∧ Net.trim (Net.toUpperCase code) = code
  ∧ Page.getRoomFromHash (Page.written_hash code) = Some code.
Proof.
  intros H0 H1 H2 H3. cbv zeta.
  split; [by apply genCode_length|]. by apply genCode_normal.
Qed.

Lemma generated_code_round_trip_witness :
  Page.getRoomFromHash (Page.written_hash (Net.genCode (0, 2 ^ 52, 2 ^ 53 - 1, 12345)%Z))
  = Some (Net.genCode (0, 2 ^ 52, 2 ^ 53 - 1, 12345)%Z).
Proof.
  destruct (generated_code_round_trip 0 (2 ^ 52) (2 ^ 53 - 1) 12345) as (_ & _ & _ & H);
    [lia..|exact H].
Defined.


(* ================================================================== *)
(** * The page: links, talking, names, colour *)
(* ================================================================== *)

(** X20.  A hash is a room link when it is [#room=] (in any case) followed
    by exactly four letters or digits.  The code read from a link has four
    characters, is in upper case, and is in the form [joinRoom] keeps: the
    room joined under it carries that code, and the hash written for that
    room reads as the same code again. *)
Theorem room_link_code_is_canonical (selfId hash code : string) (mic : bool) (st : Net.State) :
  Page.getRoomFromHash hash = Some code →
  String.length code = 4%nat
  ∧ Net.toUpperCase code = code
  ∧ Net.trim (Net.toUpperCase code) = code
  ∧ Net.roomCode (Net.joinRoom selfId code mic st) = code
  ∧ Net.room (Net.joinRoom selfId code mic st) = Some code
  ∧ Page.getRoomFromHash (Page.written_hash code) = Some code.
Proof.
  intros Hc. destruct (link_code_normal hash code Hc) as (Hl & Hu & Ht & Htr & Hw).
  repeat (split; [done|]).
  assert (Net.truthy (Net.trim (Net.toUpperCase code)) = true) as Htr' by (by rewrite Ht).
  destruct (joinRoom_spec selfId code mic st Htr') as (E1 & E2 & _).
  rewrite E1, E2, Ht. done.
Qed.

Lemma room_link_code_is_canonical_witness :
  Net.roomCode (Net.joinRoom "me" "AB1Z" true (Net.init "u")) = "AB1Z"
  ∧ Page.getRoomFromHash (Page.written_hash "AB1Z") = Some "AB1Z".
Proof.
  destruct (room_link_code_is_canonical "me" "#RooM=ab1z" "AB1Z" true (Net.init "u") eq_refl)
    as (_ & _ & _ & H1 & _ & H2).
  split; [exact H1|exact H2].
Defined.

(** X21.  The link a member copies leads into its room.  When a client has
    created a room and another page is opened on the link made of the
    room code ([#room=] and the code), that page joins instead of
    creating: it holds the room under the same code, is not admitted yet
    and shows the knocking view, while the first client is the admitted
    creator. *)
Theorem shared_link_leads_to_the_room
    (a b : string) (m0 m1 m2 m3 : Z) (draws : Z * Z * Z * Z) (micA micB : bool)
    (stA stB : Net.State) :
  (0 ≤ m0 < 2 ^ 53)%Z → (0 ≤ m1 < 2 ^ 53)%Z →
  (0 ≤ m2 < 2 ^ 53)%Z → (0 ≤ m3 < 2 ^ 53)%Z →
  let A := Net.createRoom a (m0, m1, m2, m3) micA stA in
  let B := Page.boot b (Page.written_hash (Net.roomCode A)) draws micB stB in
  (Net.admitted A = true ∧ Net.creatorId A = Some a ∧ Net.view A = Net.Room)
  ∧ Net.room B = Net.room A ∧ Net.roomCode B = Net.roomCode A
  ∧ Net.admitted B = false ∧ Net.view B = Net.Knocking ∧ Net.peers B = [].
Proof.
  intros H0 H1 H2 H3. cbv zeta.
  destruct (createRoom_spec a (m0, m1, m2, m3) micA stA) as (C1 & C2 & C3 & C4 & _ & C6 & _).
  destruct (genCode_normal m0 m1 m2 m3 H0 H1 H2 H3) as (_ & N2 & N3).
  rewrite C1, C2, C3, C4, C6. split; [done|].
  unfold Page.boot. rewrite N3.
  assert (Net.truthy (Net.genCode (m0, m1, m2, m3)) = true) as Htr.
  { apply truthy_length. rewrite genCode_length by done. lia. }
  rewrite Htr.
  destruct (joinRoom_spec b (Net.genCode (m0, m1, m2, m3)) micB stB) as (J1 & J2 & J3 & J4 & J5 & _).
  { by rewrite N2. }
  rewrite J1, J2, J3, J4, J5, N2. done.
Qed.

Lemma shared_link_leads_to_the_room_witness :
  let A := Net.createRoom "a" (0, 0, 0, 0)%Z true (Net.init "ann") in
  let B := Page.boot "b" (Page.written_hash (Net.roomCode A)) (1, 1, 1, 1)%Z true (Net.init "bob") in
  Net.room B = Some "AAAA" ∧ Net.view B = Net.Knocking.
Proof.
  intros A B.
  destruct (shared_link_leads_to_the_room "a" "b" 0 0 0 0 (1, 1, 1, 1)%Z true true
              (Net.init "ann") (Net.init "bob")) as (_ & H1 & _ & _ & H4 & _); [lia..|].
  split; [exact (eq_trans H1 eq_refl)|exact H4].
Defined.

(** X22.  The page never takes its own hash for a link to another room: in
    every state it reaches, the [hashchange] event for the hash that
    [setupRoom] wrote for the current room code changes nothing. *)
Theorem own_hash_is_ignored (selfId name : string) (inputs : list Page.Input) (mic : bool) :
  let st := Page.play selfId inputs (Net.init name) in
  Page.handleHashChange selfId (Page.written_hash (Net.roomCode st)) mic st = st.
Proof.
  cbv zeta.
  destruct (play_page_inv selfId inputs _ (init_page_inv name)) as (_ & _ & _ & H).
  unfold Page.handleHashChange.
  destruct (Page.getRoomFromHash _) as [code|] eqn:Hc; [|done].
  rewrite (H code Hc). rewrite bool_decide_false by (by intros ?). by rewrite andb_false_r.
Qed.



(** X24.  Push-to-talk and whisper exclude each other: in no state the page
    reaches is [isTalking] set while a whisper target is. *)
Theorem talk_and_whisper_exclusive (selfId name : string) (inputs : list Page.Input) :
  let st := Page.play selfId inputs (Net.init name) in
  Net.isTalking st && Net.truthy_opt (Net.whisperTarget st) = false.
Proof.
  cbv zeta.
  destruct (play_page_inv selfId inputs _ (init_page_inv name)) as (_ & H & _).
  destruct (Net.isTalking _), (Net.truthy_opt _); try done. by destruct H.
Qed.

(** X25.  The microphone is live only while the user talks or whispers: in
    every state the page reaches, if a stream is held and its track is
    enabled, then push-to-talk is on or a whisper is being routed. *)
Theorem microphone_live_only_when_speaking (selfId name : string) (inputs : list Page.Input) :
  let st := Page.play selfId inputs (Net.init name) in
  Net.localStream st = true → Net.trackEnabled st = true →
  Net.isTalking st = true ∨ is_Some (Net.activeWhisperTarget st).
Proof.
  by destruct (play_page_inv selfId inputs _ (init_page_inv name)) as (_ & _ & H & _).
Qed.

Lemma microphone_live_only_when_speaking_witness :
  let st := Page.play "me" [Page.NewRoom (0, 0, 0, 0)%Z true; Page.KeyDown "Space" false]
                      (Net.init "u") in
  Net.isTalking st = true ∨ is_Some (Net.activeWhisperTarget st).
Proof.
  intros st.
  apply (microphone_live_only_when_speaking "me" "u"
           [Page.NewRoom (0, 0, 0, 0)%Z true; Page.KeyDown "Space" false]);
    reflexivity.
Defined.

Section NameFacts.
Import Net Page.

Lemma trim_start_chars (P : ascii → Prop) s :
  Forall P (String.list_ascii_of_string s) →
  Forall P (String.list_ascii_of_string (trim_start s)).
Proof.
  induction s as [|c s IH]; simpl; [done|].
  intros H. destruct (is_space c); [|done]. apply IH. by inversion H.
Qed.

Lemma trim_end_chars (P : ascii → Prop) s :
  Forall P (String.list_ascii_of_string s) →
  Forall P (String.list_ascii_of_string (trim_end s)).
Proof.
  induction s as [|c s IH]; simpl; [done|].
  intros H. inversion H as [|? ? Hc Hs]; subst. specialize (IH Hs).
  destruct (trim_end s); simpl.
  - destruct (is_space c); simpl; [done|by constructor].
  - by constructor.
Qed.

Lemma substring_chars (P : ascii → Prop) n : ∀ s,
  Forall P (String.list_ascii_of_string s) →
  Forall P (String.list_ascii_of_string (String.substring 0 n s)).
Proof.
  induction n as [|n IH]; intros [|c s] H; simpl; try done.
  inversion H; subst. constructor; [done|]. by apply IH.
Qed.

(** Below 128 the white space of ECMAScript is the white space of the
    model. *)
Lemma js_space_ascii c :
  (nat_of_ascii c < 128)%nat → js_space (N.of_nat (nat_of_ascii c)) = is_space c.
Proof.
  destruct c as [b0 b1 b2 b3 b4 b5 b6 b7].
  destruct b7; [intros H; exfalso; revert H;
                destruct b0, b1, b2, b3, b4, b5, b6; vm_compute; lia|].
  intros _. destruct b0, b1, b2, b3, b4, b5, b6; vm_compute; reflexivity.
Qed.

Lemma units_trim_start s :
  ascii_text s → units (trim_start s) = js_trim_start (units s).
Proof.
  induction s as [|c s IH]; [done|].
  intros H. inversion H as [|? ? Hc Hs]; subst.
  cbn [trim_start]. unfold units in *. cbn [String.list_ascii_of_string map js_trim_start].
  rewrite js_space_ascii by done. destruct (is_space c); [by apply IH|done].
Qed.

Lemma units_trim_end s :
  ascii_text s → units (trim_end s) = js_trim_end (units s).
Proof.
  induction s as [|c s IH]; [done|].
  intros H. inversion H as [|? ? Hc Hs]; subst. specialize (IH Hs).
  cbn [trim_end]. unfold units in *. cbn [String.list_ascii_of_string map js_trim_end].
  rewrite <- IH, js_space_ascii by done.
  destruct (trim_end s); simpl; [|done]. by destruct (is_space c).
Qed.

Lemma units_substring n : ∀ s, units (String.substring 0 n s) = take n (units s).
Proof.
  induction n as [|n IH]; intros [|c s]; try done.
  unfold units in *. simpl. by rewrite IH.
Qed.

(** On ASCII text the model computes [input.trim().slice(0, 20)]. *)
Lemma units_typed input :
  ascii_text input →
  units (String.substring 0 20 (trim input)) = take 20 (js_trim (units input)).
Proof.
  intros H. unfold trim, js_trim.
  rewrite units_substring, units_trim_end, units_trim_start; [done|done|].
  by apply trim_start_chars.
Qed.

End NameFacts.

(** X26.  Saving the name edit, for a typed text of ASCII characters.  The
    new name is the typed text, trimmed and cut to 20 code units as
    [trim()] and [slice(0, 20)] do, or the old name when nothing is left
    of it.  An unchanged name changes nothing and sends nothing.  A
    changed name is never empty and never longer than 20 characters, and
    is ASCII text again; it becomes the user name and the name of the own
    roster entry, every other entry and the order of the roster stay, and
    it is sent as one [rename] when a room is held. *)
Theorem saveName_renames (input : string) (st : Net.State) :
  Page.ascii_text input →
  let st' := Page.saveName (Net.username st) input st in
  (Net.username st' = Net.username st → st' = st)
  ∧ (Net.username st' ≠ Net.username st →
       Page.units (Net.username st') = take 20 (Page.js_trim (Page.units input))
       ∧ Net.username st' = String.substring 0 20 (Net.trim input)
       ∧ Net.truthy (Net.username st') = true
       ∧ (String.length (Net.username st') ≤ 20)%nat
       ∧ Page.ascii_text (Net.username st')
       ∧ Net.peers st'
         = map (fun p => if bool_decide (Net.Peer.peerId p = Net.myPeerId st)
                         then Net.merge p (Net.UpdUsername (Net.username st')) else p)
               (Net.peers st)
       ∧ Net.effects st'
         = Net.effects st
           ++ (if Net.actions st then [Net.SendRename (Net.username st')] else []))
  ∧ (Net.truthy (Net.username st) = true → Net.truthy (Net.username st') = true).
Proof.
  intros Hascii. cbv zeta. unfold Page.saveName. cbv zeta.
  pose proof (units_typed input Hascii) as Hunits.
  set (typed := String.substring 0 20 (Net.trim input)) in *.
  assert (Page.ascii_text typed) as Htyped.
  { apply substring_chars, trim_end_chars, trim_start_chars, Hascii. }
  destruct (Net.truthy typed) eqn:Ht.
  - case_bool_decide as Hne.
    + assert (∀ s, Net.username (Net.sendRename typed s) = Net.username s
                   ∧ Net.peers (Net.sendRename typed s) = Net.peers s
                   ∧ Net.effects (Net.sendRename typed s)
                     = Net.effects s ++ (if Net.actions s then [Net.SendRename typed] else []))
        as Hsend.
      { intros s. unfold Net.sendRename, Net.emit. destruct (Net.actions s); reads;
          by rewrite ?app_nil_r. }
      set (s1 := Net.set_peers _ _).
      destruct (Hsend s1) as (E1 & E2 & E3). rewrite E1, E2, E3. unfold s1. reads.
      split; [done|]. split; [|done]. intros _.
      repeat (split; [done|]). split; [apply substring_length|done].
    + split; [done|]. split; [done|]. by rewrite <- Hne.
  - rewrite bool_decide_false by (by intros ?). done.
Qed.

Lemma saveName_renames_witness :
  let st := Net.createRoom "me" (0, 0, 0, 0)%Z true (Net.init "u") in
  let st' := Page.saveName "u" "  Grace Brewster Murray Hopper  " st in
  Page.ascii_text "  Grace Brewster Murray Hopper  "
  ∧ Net.username st' = "Grace Brewster Murra"
  ∧ map Net.Peer.username (Net.peers st') = ["Grace Brewster Murra"]
  ∧ Page.saveName "u" "   " st = st.
Proof.
  intros st st'.
  assert (∀ s, forallb (fun c => (nat_of_ascii c <? 128)%nat) (String.list_ascii_of_string s)
               = true → Page.ascii_text s) as Hdec.
  { intros s H. apply Forall_forall. intros c Hc.
    rewrite forallb_forall in H. apply Nat.ltb_lt, H. by apply list_elem_of_In. }
  assert (Page.ascii_text "  Grace Brewster Murray Hopper  ") as Ha by (apply Hdec; reflexivity).
  split; [exact Ha|].
  destruct (saveName_renames "  Grace Brewster Murray Hopper  " st Ha) as (_ & H & _).
  destruct H as (_ & H1 & _ & _ & _ & H4 & _).
  - vm_compute. discriminate.
  - split; [exact H1|]. split; [exact (eq_trans (f_equal (map Net.Peer.username) H4) eq_refl)|].
    destruct (saveName_renames "   " st (Hdec "   " eq_refl)) as (H & _). apply H. reflexivity.
Defined.

(** X27.  [hashCode] is the polynomial hash with multiplier 31 over the code
    units of the string, cut to a signed 32-bit number, in absolute
    value: shifting by five and subtracting is the multiplication, and
    cutting after every round is cutting once at the end.  It therefore
    lies between 0 and 2^31, and the hue taken from it between 0 and
    359 - without the absolute value the remainder could be negative. *)
Theorem hashCode_is_polynomial_hash (str : list Z) (code : string) :
  Page.hashCode str = Z.abs (Page.to_int32 (Page.polynomial31 str))
  ∧ (0 ≤ Page.hashCode str ≤ 2 ^ 31)%Z
  ∧ (0 ≤ Page.hue code < 360)%Z.
Proof.
  assert (∀ l, Page.hashCode l = Z.abs (Page.to_int32 (Page.polynomial31 l))) as H.
  { intros l. unfold Page.hashCode, Page.polynomial31.
    change 0%Z with (Page.to_int32 0) at 1. by rewrite hash_loop. }
  split; [apply H|]. split.
  - rewrite H. pose proof (to_int32_range (Page.polynomial31 str)). lia.
  - unfold Page.hue. apply Z.rem_bound_pos; [|lia].
    rewrite H. lia.
Qed.

(* ================================================================== *)
(** * Waiting for the microphone: timers across the turns *)
(* ================================================================== *)

Section AwaitFacts.
Import Net Await.

Variable selfId : string.

(** The loop of [Net.run] is the loop of turns in which every wait settles
    before anything else is started. *)
Lemma handle_as_turns ev st :
  settle selfId (outcome ev) (start selfId ev (st, [])) = (handle selfId ev st, []).
Proof.
  destruct ev; try reflexivity; unfold settle; simpl.
  - unfold joinRoom, joinRoom_begin. by destruct (negb _).
  - unfold fireTimer. by destruct (timer_of st id) as [[[] ?]|].
Qed.

Lemma run_as_turns evs : ∀ st,
  turns selfId (flat_map (fun ev => [Start ev; Settle (outcome ev)]) evs) (st, [])
  = (run selfId evs st, []).
Proof.
  induction evs as [|ev evs IH]; intros st; [done|].
  cbn [flat_map app turns turn run]. by rewrite handle_as_turns, IH.
Qed.

(** *** Handles *)

Lemma timing_session st st' : same_session st st' → timing st' = timing st.
Proof. unfold timing. by intros (-> & -> & _ & _ & _ & ->). Qed.

Lemma kept_refl id st : kept id st st.
Proof. by intros H. Qed.

Lemma kept_trans id st1 st2 st3 : kept id st1 st2 → kept id st2 st3 → kept id st1 st3.
Proof.
  intros H12 H23 H1. destruct (H12 H1) as [H2 K12]. destruct (H23 H2) as [H3 K23].
  split; [done|]. intros d Hd. by apply K23, K12.
Qed.

Lemma kept_timing id st st' : timing st' = timing st → kept id st st'.
Proof.
  unfold timing, kept, handles_wf, timer_of. intros [= -> -> ->]. done.
Qed.

Lemma kept_session id st st' : same_session st st' → kept id st st'.
Proof. intros H. by apply kept_timing, timing_session. Qed.

Lemma kept_fold {A} id (f : State → A → State) l :
  (∀ s a, kept id s (f s a)) → ∀ s, kept id s (fold_left f l s).
Proof.
  intros Hf. induction l as [|a l IH]; intros s; simpl; [apply kept_refl|].
  eapply kept_trans; [apply Hf|apply IH].
Qed.

Lemma timer_of_clear_eq id st : timer_of (clearTimeout id st) id = None.
Proof.
  unfold timer_of, clearTimeout. reads.
  induction (timers st) as [|[i e] l IH]; [done|].
  rewrite filter_cons. simpl. destruct (decide (i ≠ id)) as [Hi|Hi]; simpl; [|done].
  by rewrite bool_decide_false.
Qed.

Lemma timer_of_clear_None id id' st :
  timer_of st id' = None → timer_of (clearTimeout id st) id' = None.
Proof.
  intros H. destruct (decide (id = id')) as [->|Hne]; [apply timer_of_clear_eq|].
  by rewrite timer_of_clear_ne.
Qed.

Lemma timer_of_app_ne st id e :
  fst e ≠ id →
  snd <$> List.find (fun e => bool_decide (fst e = id)) (timers st ++ [e]) = timer_of st id.
Proof.
  intros Hne. unfold timer_of. induction (timers st) as [|e' l IH]; simpl.
  - by rewrite bool_decide_false.
  - destruct (bool_decide _); [done|]. apply IH.
Qed.

Lemma kept_clearTimeout id id' st : id' ≠ id → kept id st (clearTimeout id' st).
Proof.
  intros Hne [H1 H2]. split; [split|].
  - unfold clearTimeout. reads. intros e He.
    apply list_elem_of_filter in He as [_ He]. by apply H1.
  - intros a Ha.
    assert (admitTimeout st = Some a) as Ha' by (revert Ha; unfold clearTimeout; by reads).
    destruct (H2 a Ha') as [Hlt Hrej]. split; [unfold clearTimeout; by reads|].
    intros d. destruct (decide (id' = a)) as [->|Hne'].
    + by rewrite timer_of_clear_eq.
    + rewrite timer_of_clear_ne by done. apply Hrej.
  - intros d Hd. by rewrite timer_of_clear_ne.
Qed.

Lemma kept_clearAdmitTimeout id st : kept id st (clearAdmitTimeout st).
Proof.
  unfold clearAdmitTimeout. destruct (admitTimeout st) as [a|] eqn:Ha; [|apply kept_refl].
  intros Hwf. pose proof Hwf as [H1 H2]. destruct (H2 a Ha) as [Hlt Hrej].
  split; [split|].
  - unfold clearTimeout. reads. intros e He.
    apply list_elem_of_filter in He as [_ He]. by apply H1.
  - by reads.
  - intros d Hd.
    assert (a ≠ id) as Hne by (intros ->; by apply (Hrej d)).
    assert (timer_of (set_admitTimeout None (clearTimeout a st)) id
            = timer_of (clearTimeout a st) id) as -> by (unfold timer_of; by reads).
    by rewrite timer_of_clear_ne.
Qed.

Lemma kept_setTimeout id cb d st : kept id st (setTimeout cb d st).2.
Proof.
  intros [H1 H2]. unfold setTimeout. cbn [snd]. split; [split|].
  - reads. intros e [He|He]%elem_of_app.
    + pose proof (H1 e He). lia.
    + apply list_elem_of_singleton in He as ->. simpl. lia.
  - reads. intros a Ha. destruct (H2 a Ha) as [Hlt Hrej]. split; [lia|].
    intros d'. unfold timer_of. reads.
    rewrite timer_of_app_ne by (simpl; lia). apply Hrej.
  - intros d' Hd. unfold timer_of. reads. by apply timer_of_app_old.
Qed.

(** [admitTimeout = setTimeout(..., 3000)] *)
Lemma kept_arm id st :
  kept id st (let '(a, st') := setTimeout AdmitCb 3000 st in set_admitTimeout (Some a) st').
Proof.
  intros Hwf. destruct (kept_setTimeout id AdmitCb 3000 st Hwf) as [[H1 _] K].
  pose proof Hwf as [H0 _].
  unfold setTimeout in *. cbn [snd] in *. split; [split|].
  - revert H1. by reads.
  - reads. intros a [= <-]. split; [lia|]. intros d.
    unfold timer_of. reads. by rewrite (timer_of_fresh st).
  - intros d Hd. specialize (K d Hd). revert K. unfold timer_of. by reads.
Qed.

Lemma timing_leaveRoom st : timing (leaveRoom st) = timing (clearAdmitTimeout st).
Proof.
  destruct st as [? ? ? ? ? ? ? ? ? ? ? ? ? ? rm ? ? ? ? ? tmo ? ? ? ? ? ?].
  unfold timing, leaveRoom, clearAdmitTimeout, clearTimeout, emit. simpl.
  destruct tmo, rm; simpl; done.
Qed.

Lemma kept_leaveRoom id st : kept id st (leaveRoom st).
Proof.
  eapply kept_trans; [apply kept_clearAdmitTimeout|].
  apply kept_timing, timing_leaveRoom.
Qed.

Lemma kept_admitSelf id st : kept id st (admitSelf selfId st).
Proof.
  destruct (admitted st) eqn:Hadm.
  { unfold admitSelf. rewrite Hadm. apply kept_refl. }
  rewrite admitSelf_not_admitted by done. cbv zeta.
  eapply kept_trans; [apply kept_clearAdmitTimeout|].
  apply kept_timing. unfold timing. destruct (localStream st && _); by reads.
Qed.

Lemma kept_setupRoom id code st : kept id st (setupRoom selfId code st).
Proof.
  apply kept_timing. pose proof (setupRoom_session selfId code st) as H.
  cbv zeta in H. destruct H as (E1 & E2 & _ & _ & _ & E3).
  unfold timing. by rewrite E1, E2, E3.
Qed.

Lemma kept_resume id mic st k : kept id st (resume selfId mic st k).
Proof.
  destruct k as [code|code]; unfold resume; cbv zeta.
  - eapply kept_trans; [apply kept_session, initAudio_session|].
    eapply kept_trans; [apply kept_setupRoom|].
    apply kept_timing. unfold timing. by reads.
  - eapply kept_trans; [apply kept_session, initAudio_session|].
    eapply kept_trans; [apply kept_setupRoom|].
    apply kept_arm.
Qed.

Lemma kept_createRoom_begin id draws st : kept id st (createRoom_begin draws st).1.
Proof. apply kept_timing. unfold createRoom_begin, timing. by reads. Qed.

Lemma kept_joinRoom_begin id code st : kept id st (joinRoom_begin code st).1.
Proof.
  apply kept_timing. unfold joinRoom_begin, timing. cbv zeta.
  destruct (negb _); by reads.
Qed.

(** Every turn but the one in which the rejection timer [id] fires keeps
    it armed. *)
Lemma kept_turn id t tab : fires id t = false → kept id tab.1 (turn selfId t tab).1.
Proof.
  intros Hfire. destruct tab as [st waiting]. destruct t as [ev|mic]; cbn [turn fst].
  2: { unfold settle. cbn [fst snd]. apply kept_fold. intros; apply kept_resume. }
  pose proof (plain_event_session selfId ev st) as Hplain.
  destruct ev; try (by apply kept_session); cbn [start].
  - apply (kept_createRoom_begin id draws st).
  - pose proof (kept_joinRoom_begin id code st) as H.
    by destruct (joinRoom_begin code st) as [s [k|]].
  - cbn [fst handle]. apply kept_leaveRoom.
  - cbn [fst handle]. destruct msg; try (by apply kept_session); simpl.
    + apply kept_admitSelf.
    + case_bool_decide.
      * destruct approved; [apply kept_admitSelf|].
        eapply kept_trans; [|apply kept_setTimeout].
        apply kept_timing. unfold timing. by reads.
      * destruct (admitted st); [|apply kept_refl].
        apply kept_session.
        eapply same_session_trans; [|apply removeKnock_session].
        destruct approved; [apply moveKnockToPeers_session|apply same_session_refl].
  - simpl in Hfire. apply bool_decide_eq_false in Hfire.
    destruct (timer_of st id0) as [[[] d]|] eqn:Hid; cbn [fst]; [| |apply kept_refl].
    + eapply kept_trans; [by apply kept_clearTimeout|].
      unfold admitTimerFired. destruct (negb _); [|apply kept_refl].
      eapply kept_trans; [|apply kept_admitSelf].
      apply kept_timing. unfold timing. by reads.
    + eapply kept_trans; [by apply kept_clearTimeout|].
      eapply kept_trans; [apply kept_leaveRoom|].
      apply (kept_createRoom_begin id draws).
Qed.

Lemma kept_turns id ts : ∀ tab,
  forallb (fun t => negb (fires id t)) ts = true →
  kept id tab.1 (turns selfId ts tab).1.
Proof.
  induction ts as [|t ts IH]; intros tab Hts; simpl in *; [apply kept_refl|].
  apply andb_true_iff in Hts as [Ht%negb_true_iff Hts].
  eapply kept_trans; [by apply kept_turn|by apply IH].
Qed.

Lemma init_handles_wf name : handles_wf (init name).
Proof. split; simpl; [by intros e He%elem_of_nil|done]. Qed.

(** Handles stay well formed in every run, whatever its turns. *)
Lemma handles_wf_turn t tab : handles_wf tab.1 → handles_wf (turn selfId t tab).1.
Proof.
  intros Hwf. destruct tab as [st waiting]. cbn [fst] in Hwf.
  destruct t as [ev|mic].
  2: { by apply (kept_turn 1%positive (Settle mic) (st, waiting)). }
  assert (∃ id, fires id (Start ev) = false) as [id Hid].
  { destruct ev; try (by exists 1%positive).
    exists (Pos.succ id). simpl. apply bool_decide_eq_false. lia. }
  by apply (kept_turn id (Start ev) (st, waiting)).
Qed.

Lemma handles_wf_turns ts : ∀ tab, handles_wf tab.1 → handles_wf (turns selfId ts tab).1.
Proof.
  induction ts as [|t ts IH]; intros tab Hwf; simpl; [done|].
  by apply IH, handles_wf_turn.
Qed.

End AwaitFacts.

Section RejectionFacts.
Import Net Await.

Variable selfId : string.

(** What the callback of the rejection timer leaves behind when it has
    run up to the [await]. *)
Lemma reject_callback_leaves draws st :
  let left := leaveRoom st in
  let st' := (createRoom_begin draws left).1 in
  (effects st' = effects st ++ match room st with Some _ => [RoomLeave] | None => [] end
   ∧ room st' = None ∧ actions st' = false
   ∧ peers st' = [] ∧ pendingKnocks st' = [] ∧ pendingPeerInfo st' = []
   ∧ peerTrackState st' = ∅ ∧ activeWhisperTarget st' = None
   ∧ audioEls st' = ∅ ∧ localStream st' = false
   ∧ admitTimeout st' = None)
  ∧ timers st' = timers (clearAdmitTimeout st)
  ∧ username st' = username st
  ∧ admitted st' = true ∧ creatorId st' = None.
Proof.
  cbv zeta. unfold createRoom_begin. cbv zeta. cbn [fst].
  assert (timers (leaveRoom st) = timers (clearAdmitTimeout st)) as Ht.
  { pose proof (timing_leaveRoom st) as H. unfold timing in H. congruence. }
  split; [|split; [by reads|split; [|by reads]]].
  - rewrite leaveRoom_closed. reads. by destruct (room st); rewrite ?app_nil_r.
  - reads. apply leaveRoom_username.
Qed.

Lemma createRoom_begin_spec draws mic st :
  let b := createRoom_begin draws st in
  b.2 = AfterCreate (genCode draws)
  ∧ effects b.1 = effects st ∧ username b.1 = username st
  ∧ resume selfId mic b.1 b.2 = createRoom selfId draws mic st.
Proof. cbv zeta. unfold createRoom_begin. cbv zeta. cbn [fst snd]. by reads. Qed.

Lemma timer_of_timers st st' id : timers st' = timers st → timer_of st' id = timer_of st id.
Proof. unfold timer_of. by intros ->. Qed.

End RejectionFacts.

Section UndisturbedFacts.
Import Net Await.

Variable selfId : string.

Lemma timers_wf_idle st :
  timers_wf st → room st = None →
  admitted st = true ∧ admitTimeout st = None ∧ admit_timers st = []
  ∧ ∀ e, e ∈ timers st → (fst e < nextTimer st)%positive.
Proof.
  intros (H1 & _ & H3) Hroom. destruct (admitted st).
  - by destruct H3.
  - destruct H3 as (? & _ & _ & _ & [c Hc]). congruence.
Qed.

(** The first call that waits resumes into a well-formed state. *)
Lemma resume_timers_wf mic st k :
  tab_wf (st, [k]) → timers_wf (resume selfId mic st k).
Proof.
  unfold tab_wf. cbn [fst snd]. intros (H1 & Hroom & Hto & Hat & Hadm).
  pose proof (initAudio_session mic st) as (I1 & I2 & I3 & I4 & I5 & I6).
  pose proof (setupRoom_session selfId) as Hsetup. cbv zeta in Hsetup.
  destruct k as [code|code]; unfold resume; cbv zeta.
  - destruct (Hsetup code (initAudio mic st)) as (S1 & S2 & S3 & S4 & S5 & S6).
    unfold timers_wf, admit_timers in *. reads.
    rewrite S1, S2, S3, S4, S5, S6, I1, I2, I5, I6, Hadm, Hto, Hat.
    split; [done|]. split; [congruence|done].
  - destruct (Hsetup code (initAudio mic st)) as (S1 & S2 & S3 & S4 & S5 & S6).
    unfold setTimeout. reads.
    unfold timers_wf, admit_timers, timer_of in *. reads.
    rewrite S1, S2, S3, S4, S5, I1, I2, I5, Hadm.
    split; [|split; [congruence|]].
    + intros e [He|He]%elem_of_app.
      * pose proof (H1 e He). lia.
      * apply list_elem_of_singleton in He as ->. simpl. lia.
    + exists (nextTimer st). split; [done|]. split.
      * rewrite filter_app, map_app, Hat. done.
      * split; [|done]. by rewrite (timer_of_fresh st).
Qed.

Lemma tab_wf_begin st st' k :
  timers_wf st → room st = None →
  timers st' = timers st → nextTimer st' = nextTimer st → room st' = room st →
  admitTimeout st' = admitTimeout st →
  admitted st' = match k with AfterCreate _ => true | AfterJoin _ => false end →
  tab_wf (st', [k]).
Proof.
  intros Hwf Hroom Et En Er Ea Hadm.
  destruct (timers_wf_idle st Hwf Hroom) as (_ & Hto & Hat & H1).
  unfold tab_wf, admit_timers in *. cbn [fst snd]. rewrite Et, En, Er, Ea, Hat.
  done.
Qed.

Lemma tab_wf_session st st' k : same_session st st' → tab_wf (st, [k]) → tab_wf (st', [k]).
Proof.
  unfold same_session, tab_wf, admit_timers. cbn [fst snd].
  by intros (-> & -> & -> & _ & -> & ->).
Qed.

(** A turn that is ready, and is no interruption of a wait, keeps the
    timer invariant. *)
Lemma tab_wf_turn t tab :
  tab_wf tab → ready selfId tab t = true →
  match t with
  | Start ev => negb (interrupts tab.1 ev) || bool_decide (tab.2 = [])
  | Settle _ => true
  end = true →
  tab_wf (turn selfId t tab).
Proof.
  destruct tab as [st [|k [|k' waiting]]]; cbn [fst snd]; intros Hwf Hready Hcalm;
    [| |done].
  - (* nothing waits *)
    destruct t as [ev|mic]; [|done].
    cbn [ready fst] in Hready. clear Hcalm. unfold tab_wf in Hwf. cbn [fst snd] in Hwf.
    assert (tab_wf (handle selfId ev st, [])) as Hplain.
    { unfold tab_wf. cbn [fst snd]. by apply handle_timers_wf. }
    destruct ev; try exact Hplain; cbn [turn start].
    + apply bool_decide_eq_true in Hready. unfold createRoom_begin. cbv zeta.
      rewrite app_nil_l. by apply (tab_wf_begin st); reads.
    + apply bool_decide_eq_true in Hready. unfold joinRoom_begin. cbv zeta.
      destruct (negb _); [done|].
      rewrite app_nil_l. by apply (tab_wf_begin st); reads.
    + destruct (timer_of st id) as [[[] d]|] eqn:Hid; [| |done].
      * revert Hplain. cbn [handle]. unfold fireTimer. by rewrite Hid.
      * pose proof (clearReject_timers_wf id d st Hwf Hid) as Hc.
        apply leaveRoom_timers_wf in Hc.
        assert (room (leaveRoom (clearTimeout id st)) = None) as Hroom
          by (rewrite leaveRoom_closed; by reads).
        unfold createRoom_begin. cbv zeta. rewrite app_nil_l.
        revert Hc Hroom. generalize (leaveRoom (clearTimeout id st)). intros s Hc Hroom.
        by apply (tab_wf_begin s); reads.
  - (* one call waits *)
    destruct t as [ev|mic].
    2: { cbn [turn]. unfold settle, tab_wf. cbn [fst snd fold_left].
         by apply resume_timers_wf. }
    rewrite orb_false_r in Hcalm. apply negb_true_iff in Hcalm.
    cbn [ready fst] in Hready.
    pose proof Hwf as (H1 & Hroom & Hto & Hat & Hadm). cbn [fst snd] in *.
    assert (∀ p, from_transport selfId st p = true → False) as Hnone.
    { intros p [Hr%bool_decide_eq_true _]%andb_true_iff.
      rewrite Hroom in Hr. by destruct Hr. }
    pose proof (plain_event_session selfId ev st) as Hplain.
    destruct ev; try discriminate Hcalm; cbn [turn start];
      try (by apply (tab_wf_session st)).
    + by destruct (Hnone _ Hready).
    + cbn [interrupts] in Hcalm.
      destruct (timer_of st id) as [[[] d]|] eqn:Hid; [|done|done].
      apply timer_of_admit_timers in Hid. rewrite Hat in Hid.
      by apply elem_of_nil in Hid.
Qed.

Lemma tab_wf_turns ts : ∀ tab,
  tab_wf tab → possible selfId ts tab = true → undisturbed selfId ts tab = true →
  tab_wf (turns selfId ts tab).
Proof.
  induction ts as [|t ts IH]; intros tab Hwf Hp Hu; simpl in *; [done|].
  apply andb_true_iff in Hp as [Hready Hp]. apply andb_true_iff in Hu as [Hcalm Hu].
  apply IH; [|done|done]. by apply tab_wf_turn.
Qed.

Lemma init_tab_wf name : tab_wf (init name, []).
Proof. apply init_timers_wf. Qed.

Lemma leaveRoom_disarms st :
  let st' := leaveRoom st in
  admitted st' = true ∧ admitTimeout st' = None
  ∧ admit_timers st'
    = match admitTimeout st with
      | Some id => filter (fun x => x ≠ id) (admit_timers st)
      | None => admit_timers st
      end.
Proof.
  cbv zeta. destruct (clearAdmitTimeout_spec st) as (_ & C2 & _).
  rewrite <- C2. unfold admit_timers.
  pose proof (timing_leaveRoom st) as [= -> _ _].
  split; [|split; [|done]]; rewrite leaveRoom_closed; by reads.
Qed.

End UndisturbedFacts.

Section LeaveFacts.
Import Net Await.

Variable selfId : string.

Lemma knockWaiting_resume mic st k : knockWaiting (resume selfId mic st k) = knockWaiting st.
Proof.
  assert (∀ c s, knockWaiting (setupRoom selfId c s) = knockWaiting s) as Hsetup.
  { intros c s. unfold setupRoom, emit. cbv zeta. split_conds; reads; done. }
  assert (∀ m s, knockWaiting (initAudio m s) = knockWaiting s) as Hinit.
  { intros m s. unfold initAudio. split_conds; reads; done. }
  destruct k as [code|code]; unfold resume, setTimeout; cbv zeta; reads;
    by rewrite Hsetup, Hinit.
Qed.

Lemma knockWaiting_leaveRoom st : knockWaiting (leaveRoom st) = knockWaiting st.
Proof. rewrite leaveRoom_closed. by reads. Qed.

(** Nothing in the room module writes [knockWaiting]. *)
Lemma knockWaiting_turn t tab : knockWaiting (turn selfId t tab).1 = knockWaiting tab.1.
Proof.
  destruct tab as [st waiting]. destruct t as [ev|mic]; cbn [turn fst].
  2: { unfold settle. cbn [fst snd]. revert st.
       induction waiting as [|k waiting IH]; intros st; simpl; [done|].
       by rewrite IH, knockWaiting_resume. }
  pose proof (knockWaiting_untouched selfId ev st) as Hplain.
  destruct ev; try exact Hplain; cbn [start].
  - unfold createRoom_begin. cbv zeta. by reads.
  - unfold joinRoom_begin. cbv zeta. destruct (negb _); by reads.
  - destruct (timer_of st id) as [[[] d]|] eqn:Hid; cbn [fst]; [| |done].
    + revert Hplain. cbn [handle]. unfold fireTimer. by rewrite Hid.
    + unfold createRoom_begin. cbv zeta. cbn [fst]. reads.
      rewrite knockWaiting_leaveRoom. unfold clearTimeout. by reads.
Qed.

Lemma knockWaiting_turns ts : ∀ tab, knockWaiting (turns selfId ts tab).1 = knockWaiting tab.1.
Proof.
  induction ts as [|t ts IH]; intros tab; simpl; [done|].
  by rewrite IH, knockWaiting_turn.
Qed.

End LeaveFacts.

(** C5, as amended.  A ['reply'] addressed to the own id with
    [approved = false] puts the client in the rejected view and arms a
    2000 ms timer under a fresh handle.  Nothing disarms that timer:
    whatever turns follow, it stays armed until it fires.  When it fires
    the client leaves - the room is left if one is held, the send
    functions are unbound, roster, pending knocks, routing state, audio
    elements and stream are dropped and the self-promotion timer kept in
    [admitTimeout] is disarmed - and starts to create a room whose code is
    what [genCode] makes of four fresh draws; when the wait for the
    microphone settles (no other call waiting), the client is the admitted
    creator of the room with that code, four characters of the alphabet.  The new code is not compared with
    the code of the room that rejected the client: it is equal to it
    exactly when the draws spell it again. *)
Theorem rejection_recovery (selfId name from : string) (ts later : list Await.Turn) :
  let tab := Await.turns selfId ts (Net.init name, []) in
  let replied :=
    Await.turn selfId (Await.Start (Net.EvKnock (Net.MsgReply selfId false) from)) tab in
  let id := Net.nextTimer tab.1 in
  let tab' := Await.turns selfId later replied in
  forallb (fun t => negb (Await.fires id t)) later = true →
  (Net.view replied.1 = Net.Rejected ∧ Net.roomCode replied.1 = Net.roomCode tab.1
   ∧ Net.timer_of tab.1 id = None
   ∧ Net.timer_of replied.1 id = Some (Net.RejectCb, 2000%Z))
  ∧ Net.timer_of tab'.1 id = Some (Net.RejectCb, 2000%Z)
  ∧ ∀ draws mic,
      let fired := Await.turn selfId (Await.Start (Net.EvTimer id draws mic)) tab' in
      (Net.effects fired.1
       = Net.effects tab'.1
         ++ match Net.room tab'.1 with Some _ => [Net.RoomLeave] | None => [] end
       ∧ Net.room fired.1 = None ∧ Net.actions fired.1 = false
       ∧ Net.peers fired.1 = [] ∧ Net.pendingKnocks fired.1 = []
       ∧ Net.pendingPeerInfo fired.1 = []
       ∧ Net.peerTrackState fired.1 = ∅ ∧ Net.activeWhisperTarget fired.1 = None
       ∧ Net.audioEls fired.1 = ∅ ∧ Net.localStream fired.1 = false
       ∧ Net.admitTimeout fired.1 = None)
      ∧ ((∀ a, Net.admitTimeout tab'.1 = Some a → Net.timer_of fired.1 a = None)
         ∧ Net.timer_of fired.1 id = None)
      ∧ (Net.admitted fired.1 = true ∧ Net.creatorId fired.1 = None
         ∧ fired.2 = tab'.2 ++ [Await.AfterCreate (Net.genCode draws)])
      ∧ (tab'.2 = [] →
         let st2 := (Await.turn selfId (Await.Settle mic) fired).1 in
         Net.room st2 = Some (Net.genCode draws)
         ∧ Net.roomCode st2 = Net.genCode draws
         ∧ Net.admitted st2 = true ∧ Net.creatorId st2 = Some selfId
         ∧ Net.view st2 = Net.Room
         ∧ Net.peers st2 = [Net.makePeer selfId (Some (Net.username tab'.1))]
         ∧ Net.effects st2 = Net.effects fired.1 ++ [Net.TrysteroJoin (Net.genCode draws)]
         ∧ (Net.roomCode st2 = Net.roomCode tab.1 ↔ Net.genCode draws = Net.roomCode tab.1)
         ∧ (∀ m0 m1 m2 m3, draws = (m0, m1, m2, m3) →
              (0 ≤ m0 < 2 ^ 53)%Z → (0 ≤ m1 < 2 ^ 53)%Z →
              (0 ≤ m2 < 2 ^ 53)%Z → (0 ≤ m3 < 2 ^ 53)%Z →
              String.length (Net.roomCode st2) = 4%nat
              ∧ Forall Page.code_char (String.list_ascii_of_string (Net.roomCode st2)))).
Proof.
  cbv zeta. intros Hlater.
  pose proof (handles_wf_turns selfId ts (Net.init name, []) (init_handles_wf name)) as Hwf.
  destruct (Await.turns selfId ts (Net.init name, [])) as [st waiting]. cbn [fst] in *.
  set (id := Net.nextTimer st).
  set (replied := Await.turn selfId _ (st, waiting)).
  assert (replied = ((Net.setTimeout Net.RejectCb 2000 (Net.set_view Net.Rejected st)).2,
                     waiting)) as Hreplied.
  { unfold replied. cbn [Await.turn Await.start Net.handle Net.getKnock].
    by rewrite bool_decide_true. }
  assert (Net.timer_of replied.1 id = Some (Net.RejectCb, 2000%Z)) as Harmed.
  { rewrite Hreplied. unfold Net.setTimeout, Net.timer_of. cbn [snd fst]. reads.
    destruct Hwf as [H1 _]. by rewrite (timer_of_fresh st). }
  assert (Await.handles_wf replied.1) as Hwf1.
  { unfold replied.
    by apply (handles_wf_turn selfId (Await.Start _) (st, waiting)). }
  split.
  { rewrite Hreplied. unfold Net.setTimeout. cbn [snd fst].
    split; [by reads|]. split; [by reads|]. split; [|by rewrite Hreplied in Harmed].
    destruct Hwf as [H1 _]. unfold Net.timer_of.
    destruct (List.find _ (Net.timers st)) as [e|] eqn:Hf; [|done].
    apply find_some in Hf as [Hin Hid%bool_decide_eq_true].
    apply list_elem_of_In in Hin. pose proof (H1 e Hin). unfold id in Hid. lia. }
  destruct (kept_turns selfId id later replied Hlater Hwf1) as [Hwf2 Hkept].
  specialize (Hkept _ Harmed).
  destruct (Await.turns selfId later replied) as [s w]. cbn [fst snd] in *.
  split; [done|]. intros draws mic.
  cbn [Await.turn Await.start]. rewrite Hkept.
  set (cleared := Net.clearTimeout id s).
  destruct (reject_callback_leaves draws cleared)
    as (L & Ltimers & Luser & Ladm & Lcre).
  assert (Net.effects cleared = Net.effects s ∧ Net.room cleared = Net.room s
          ∧ Net.admitTimeout cleared = Net.admitTimeout s
          ∧ Net.username cleared = Net.username s) as (E1 & E2 & E3 & E4).
  { unfold cleared, Net.clearTimeout. by reads. }
  rewrite E1, E2 in L.
  destruct (createRoom_begin_spec selfId draws mic (Net.leaveRoom cleared))
    as (Bk & B1 & B2 & Bres).
  destruct (Await.createRoom_begin draws (Net.leaveRoom cleared)) as [begun k].
  cbn [fst snd] in *. subst k.
  split; [exact L|]. split; [|split; [done|]].
  - split.
    + intros a Ha. rewrite (timer_of_timers _ _ a Ltimers).
      unfold Net.clearAdmitTimeout. rewrite E3, Ha.
      rewrite (timer_of_timers (Net.clearTimeout a cleared))
        by (unfold Net.clearTimeout; by reads).
      apply timer_of_clear_eq.
    + rewrite (timer_of_timers _ _ id Ltimers).
      assert (Net.timer_of cleared id = None) as Hnone by apply timer_of_clear_eq.
      unfold Net.clearAdmitTimeout. destruct (Net.admitTimeout cleared) as [a|]; [|done].
      rewrite (timer_of_timers (Net.clearTimeout a cleared))
        by (unfold Net.clearTimeout; by reads).
      by apply timer_of_clear_None.
  - intros ->. unfold Await.settle. cbn [fst snd app fold_left].
    rewrite Bres.
    destruct (createRoom_spec selfId draws mic (Net.leaveRoom cleared))
      as (C1 & C2 & C3 & C4 & _ & C6 & C7 & C8).
    rewrite C1, C2, C3, C4, C6, C7, C8, B1, <- B2, Luser, E4.
    repeat (split; [done|]).
    intros m0 m1 m2 m3 -> H0 H1 H2 H3. split; [by apply genCode_length|].
    destruct (genCode_chars m0 m1 m2 m3 H0 H1 H2 H3) as (c0 & c1 & c2 & c3 & -> & ? & ? & ? & ?).
    cbn [String.list_ascii_of_string]. by do 4 (constructor; [done|]).
Qed.

Lemma rejection_recovery_witness :
  let ts := [Await.Start (Net.EvJoinRoom "AAAA" true); Await.Settle true;
             Await.Start (Net.EvPeerJoin "A")] in
  let later := [Await.Start (Net.EvPeerJoin "B"); Await.Start (Net.EvUsername "bo" "B")] in
  let tab := Await.turns "me" ts (Net.init "u", []) in
  let replied :=
    Await.turn "me" (Await.Start (Net.EvKnock (Net.MsgReply "me" false) "A")) tab in
  let tab' := Await.turns "me" later replied in
  forallb (fun t => negb (Await.fires (Net.nextTimer tab.1) t)) later = true
  ∧ Net.view replied.1 = Net.Rejected
  ∧ ∀ draws mic,
      let fired :=
        Await.turn "me" (Await.Start (Net.EvTimer (Net.nextTimer tab.1) draws mic)) tab' in
      Net.room fired.1 = None
      ∧ Net.roomCode (Await.turn "me" (Await.Settle mic) fired).1 = Net.genCode draws.
Proof.
  intros ts later tab replied tab'.
  assert (forallb (fun t => negb (Await.fires (Net.nextTimer tab.1) t)) later = true) as Hl
    by reflexivity.
  split; [exact Hl|].
  destruct (rejection_recovery "me" "u" "A" ts later Hl) as ((H1 & _) & _ & H3).
  split; [exact H1|].
  intros draws mic. destruct (H3 draws mic) as ((_ & L2 & _) & _ & _ & S).
  split; [exact L2|].
  destruct (S eq_refl) as (_ & S2 & _). exact S2.
Defined.

(** C5 as stated fails: the draws may spell the code of the rejecting
    room, and the client is then back in a room with that very code. *)
Lemma rejection_same_code_counterexample :
  let evs := [Net.EvJoinRoom "AAAA" true; Net.EvPeerJoin "A";
              Net.EvKnock (Net.MsgReply "me" false) "A"] in
  let rejected := Net.run "me" evs (Net.init "u") in
  let recovered := Net.handle "me" (Net.EvTimer 2%positive (0, 0, 0, 0)%Z true) rejected in
  Net.admissible "me" (evs ++ [Net.EvTimer 2%positive (0, 0, 0, 0)%Z true]) (Net.init "u")
    = true
  ∧ Net.view rejected = Net.Rejected
  ∧ Net.timer_of rejected 2%positive = Some (Net.RejectCb, 2000%Z)
  ∧ Net.roomCode rejected = "AAAA"
  ∧ Net.room recovered = Some "AAAA"
  ∧ ¬ (Net.roomCode recovered ≠ Net.roomCode rejected).
Proof.
  repeat split; try (vm_compute; reflexivity).
  intros H. apply H. vm_compute. reflexivity.
Qed.

(** C6.  The self-promotion timer outlives a join that was overtaken
    while it waited for the microphone.  The page is opened on a link to
    AAAA and, before the microphone is granted, sent on to BBBB: both
    calls of [joinRoom] resume when the promise settles, each arms a
    3000 ms timer, and [admitTimeout] keeps the second handle only (room
    AAAA is never left either).  A member of BBBB admits the client: the
    timer of AAAA is still armed.  The client leaves for CCCC, a room with
    knocking on whose creator is C, and waits there to be let in: the
    timer of AAAA fires and makes the client an admitted member and the
    creator of CCCC. *)
Theorem stale_timer_self_promotes :
  let overtaken :=
    [Await.Start (Net.EvJoinRoom "AAAA" true); Await.Start Net.EvLeaveRoom;
     Await.Start (Net.EvJoinRoom "BBBB" true); Await.Settle true] in
  let let_in :=
    overtaken ++ [Await.Start (Net.EvPeerJoin "A");
                  Await.Start (Net.EvKnock Net.MsgAdmitted "A")] in
  let moved_on :=
    let_in ++ [Await.Start Net.EvLeaveRoom; Await.Start (Net.EvJoinRoom "CCCC" true);
               Await.Settle true; Await.Start (Net.EvPeerJoin "C");
               Await.Start (Net.EvKnock Net.MsgRequired "C");
               Await.Start (Net.EvKnock (Net.MsgMode true "C") "C")] in
  let stale := Await.Start (Net.EvTimer 1 (0, 0, 0, 0)%Z true) in
  let page ts := (Await.turns "me" ts (Net.init "u", [])).1 in
  Await.possible "me" (moved_on ++ [stale]) (Net.init "u", []) = true
  ∧ (Net.effects (page overtaken) = [Net.TrysteroJoin "AAAA"; Net.TrysteroJoin "BBBB"]
     ∧ Net.admit_timers (page overtaken) = [1%positive; 2%positive]
     ∧ Net.admitTimeout (page overtaken) = Some 2%positive)
  ∧ (Net.admitted (page let_in) = true ∧ Net.room (page let_in) = Some "BBBB"
     ∧ Net.admitTimeout (page let_in) = None
     ∧ Net.timer_of (page let_in) 1 = Some (Net.AdmitCb, 3000%Z))
  ∧ (Net.room (page moved_on) = Some "CCCC" ∧ Net.admitted (page moved_on) = false
     ∧ Net.view (page moved_on) = Net.Knocking
     ∧ Net.knockEnabled (page moved_on) = true ∧ Net.creatorId (page moved_on) = Some "C"
     ∧ Net.admitTimeout (page moved_on) = Some 3%positive
     ∧ Net.timer_of (page moved_on) 1 = Some (Net.AdmitCb, 3000%Z))
  ∧ (Net.room (page (moved_on ++ [stale])) = Some "CCCC"
     ∧ Net.admitted (page (moved_on ++ [stale])) = true
     ∧ Net.view (page (moved_on ++ [stale])) = Net.Room
     ∧ Net.creatorId (page (moved_on ++ [stale])) = Some "me"
     ∧ Net.knockEnabled (page (moved_on ++ [stale])) = true).
Proof. cbv zeta. repeat split; vm_compute; reflexivity. Qed.

(** C7.  [leaveRoom] does not put [whisperTarget] back.  The client
    creates a room, B joins, the user presses B's icon, and the page
    leaves while the whisper is on: [isTalking] and the routing target
    [activeWhisperTarget] are reset, [state.whisperTarget] is still B.
    The icon that would call [whisperStop] is gone with the roster, so in
    the next room, with a microphone and a peer C in the roster,
    push-to-talk (by pointer and by space bar) and a whisper to C do
    nothing at all: each returns at its guard
    [state.isTalking || state.whisperTarget]. *)
Theorem leaveRoom_keeps_whisperTarget :
  let whispering :=
    [Await.Start (Net.EvCreateRoom (0, 0, 0, 0)%Z true); Await.Settle true;
     Await.Start (Net.EvPeerJoin "B"); Await.Start (Net.EvWhisperStart "B")] in
  let next_room :=
    whispering ++ [Await.Start Net.EvLeaveRoom;
                   Await.Start (Net.EvCreateRoom (1, 1, 1, 1)%Z true); Await.Settle true;
                   Await.Start (Net.EvPeerJoin "C")] in
  let before := Await.turns "me" whispering (Net.init "u", []) in
  let left := Await.turn "me" (Await.Start Net.EvLeaveRoom) before in
  let next := Await.turns "me" next_room (Net.init "u", []) in
  Await.possible "me" (next_room ++ [Await.Start (Net.EvWhisperStart "C")]) (Net.init "u", [])
    = true
  ∧ (Net.whisperTarget before.1 = Some "B" ∧ Net.activeWhisperTarget before.1 = Some "B")
  ∧ (Net.isTalking left.1 = Net.isTalking (Net.init "u")
     ∧ Net.activeWhisperTarget left.1 = None
     ∧ Net.whisperTarget left.1 = Some "B"
     ∧ Net.whisperTarget left.1 ≠ Net.whisperTarget (Net.init "u"))
  ∧ (Net.view next.1 = Net.Room ∧ Net.noMic next.1 = false ∧ Net.localStream next.1 = true
     ∧ Net.ids (Net.peers next.1) = ["me"; "C"]
     ∧ Net.whisperTarget next.1 = Some "B")
  ∧ (Await.turn "me" (Await.Start Net.EvPttStart) next = next
     ∧ Page.keyDown "Space" false next.1 = next.1
     ∧ Await.turn "me" (Await.Start (Net.EvWhisperStart "C")) next = next).
Proof. cbv zeta. repeat split; vm_compute; (reflexivity || discriminate). Qed.

(** X28.  The self-promotion timer, as long as no wait for the microphone
    is interrupted.  In every run in which no leave, create, join or
    rejection timer is started while a call waits for the microphone: a
    client that is not admitted either still waits for the microphone,
    with no room and no self-promotion timer, or holds the room it joined
    with the 3000 ms timer armed and recorded in [admitTimeout], and when
    that timer fires the client is admitted as creator of that room; once
    the client is admitted, or has left, no self-promotion timer is armed
    and none is recorded (an admitting signal and [leaveRoom] both clear
    it), and the callback itself does nothing for an admitted client. *)
Theorem self_promotion_timer (selfId name : string) (ts : list Await.Turn) :
  Await.possible selfId ts (Net.init name, []) = true →
  Await.undisturbed selfId ts (Net.init name, []) = true →
  let tab := Await.turns selfId ts (Net.init name, []) in
  let st := tab.1 in
  (Net.admitted st = false →
     (∃ code, tab.2 = [Await.AfterJoin code] ∧ Net.room st = None
              ∧ Net.admitTimeout st = None ∧ Net.admit_timers st = [])
     ∨ (tab.2 = []
        ∧ ∃ id, Net.admitTimeout st = Some id
           ∧ Net.timer_of st id = Some (Net.AdmitCb, 3000%Z)
           ∧ Net.admit_timers st = [id]
           ∧ Net.room st = Some (Net.roomCode st)
           ∧ ∀ draws mic,
               let st' := (Await.turn selfId (Await.Start (Net.EvTimer id draws mic)) tab).1 in
               Net.admitted st' = true ∧ Net.creatorId st' = Some selfId
               ∧ Net.view st' = Net.Room ∧ selfId ∈ Net.ids (Net.peers st')
               ∧ Net.room st' = Net.room st ∧ Net.roomCode st' = Net.roomCode st
               ∧ Net.admitTimeout st' = None ∧ Net.admit_timers st' = []))
  ∧ (Net.admitted st = true →
       Net.admitTimeout st = None ∧ Net.admit_timers st = []
       ∧ Net.admitTimerFired selfId st = st)
  ∧ (∀ from msg, Net.from_transport selfId st from = true →
       msg = Net.MsgAdmitted ∨ msg = Net.MsgReply selfId true →
       let st' := (Await.turn selfId (Await.Start (Net.EvKnock msg from)) tab).1 in
       Net.admitted st' = true ∧ Net.admitTimeout st' = None ∧ Net.admit_timers st' = [])
  ∧ (let st' := (Await.turn selfId (Await.Start Net.EvLeaveRoom) tab).1 in
     Net.admitted st' = true ∧ Net.admitTimeout st' = None ∧ Net.admit_timers st' = []).
Proof.
  intros Hp Hu. cbv zeta.
  pose proof (tab_wf_turns selfId ts _ (init_tab_wf name) Hp Hu) as Hwf.
  destruct (Await.turns selfId ts (Net.init name, [])) as [st waiting].
  unfold Await.tab_wf in Hwf. cbn [fst snd] in *.
  assert (∀ s, Net.timers_wf s → Net.admitted s = true →
            Net.admitTimeout s = None ∧ Net.admit_timers s = []) as Hdone.
  { intros s (_ & _ & H3) Ha. by rewrite Ha in H3. }
  assert (Net.admitTimeout st = None ∧ Net.admit_timers st = []
          ∨ waiting = [] ∧ Net.timers_wf st) as Hcases.
  { destruct waiting as [|k [|k' waiting]]; [by right| |done].
    destruct Hwf as (_ & _ & ? & ? & _). by left. }
  split; [|split; [|split]].
  - intros Hna. destruct waiting as [|k [|k' waiting]]; [right|left|done].
    + split; [done|].
      pose proof Hwf as (H1 & H2 & H3). rewrite Hna in H3.
      destruct H3 as (id & E1 & E2 & E3 & [c E4]).
      exists id. split; [done|]. split; [done|]. split; [done|].
      split; [by rewrite E4, (H2 c E4)|].
      intros draws mic.
      assert (Net.timers_wf (Net.handle selfId (Net.EvTimer id draws mic) st)) as Hwf'.
      { apply handle_timers_wf; [done|]. simpl. rewrite E3. by apply bool_decide_eq_true. }
      revert Hwf'. cbn [Await.turn Await.start Net.handle fst]. unfold Net.fireTimer.
      rewrite E3. cbn [fst]. unfold Net.admitTimerFired.
      assert (Net.admitted (Net.clearTimeout id st) = false) as Hc
        by (unfold Net.clearTimeout; by reads).
      rewrite Hc. simpl. intros Hwf'.
      set (s := Net.set_creatorId (Some selfId) (Net.clearTimeout id st)) in *.
      destruct (admitSelf_session selfId s) as (A1 & A2 & A3 & A4 & A5).
      destruct A5 as [A5 A6]; [unfold s; by reads|].
      destruct (Hdone _ Hwf' A1) as [D1 D2].
      rewrite A2, A3, A4. unfold s, Net.clearTimeout. reads. done.
    + destruct Hwf as (_ & Hroom & Hto & Hat & Hadm). rewrite Hna in Hadm.
      destruct k as [code|code]; [done|]. by exists code.
  - intros Ha.
    assert (Net.admitTimeout st = None ∧ Net.admit_timers st = []) as [D1 D2].
    { destruct Hcases as [?|[_ Hw]]; [done|by apply Hdone]. }
    split; [done|]. split; [done|].
    unfold Net.admitTimerFired. by rewrite Ha.
  - intros from msg Hfrom Hmsg.
    assert (waiting = [] ∧ Net.timers_wf st) as [-> Hw].
    { destruct waiting as [|k [|k' waiting]]; [done| |done].
      destruct Hwf as (_ & Hroom & _).
      apply andb_true_iff in Hfrom as [Hr%bool_decide_eq_true _].
      rewrite Hroom in Hr. by destruct Hr. }
    assert ((Await.turn selfId (Await.Start (Net.EvKnock msg from)) (st, [])).1
            = Net.admitSelf selfId st) as ->.
    { destruct Hmsg as [-> | ->]; cbn [Await.turn Await.start Net.handle Net.getKnock fst];
        [done|]. by rewrite bool_decide_true. }
    destruct (admitSelf_session selfId st) as (A1 & _).
    split; [done|]. apply Hdone; [|done]. by apply admitSelf_timers_wf.
  - cbn [Await.turn Await.start Net.handle fst].
    destruct (leaveRoom_disarms st) as (L1 & L2 & L3).
    split; [done|]. split; [done|]. rewrite L3.
    destruct Hcases as [[-> ->]|[_ Hw]]; [done|].
    destruct Hw as (_ & _ & H3). destruct (Net.admitted st).
    + by destruct H3 as [-> ->].
    + destruct H3 as (id & -> & -> & _). by rewrite filter_cons, decide_False by (by intros ?).
Qed.

Lemma self_promotion_timer_witness :
  let ts := [Await.Start (Net.EvJoinRoom " abcd" true); Await.Start Net.EvPttStart;
             Await.Settle true; Await.Start (Net.EvPeerJoin "A")] in
  let tab := Await.turns "me" ts (Net.init "u", []) in
  Await.possible "me" ts (Net.init "u", []) = true
  ∧ Await.undisturbed "me" ts (Net.init "u", []) = true
  ∧ (∃ id, Net.admitTimeout tab.1 = Some id
         ∧ ∀ draws mic,
             let st' := (Await.turn "me" (Await.Start (Net.EvTimer id draws mic)) tab).1 in
             Net.admitted st' = true ∧ Net.creatorId st' = Some "me"
             ∧ Net.roomCode st' = "ABCD")
  ∧ (let st' := (Await.turn "me" (Await.Start Net.EvLeaveRoom) tab).1 in
     Net.admitted st' = true ∧ Net.admitTimeout st' = None ∧ Net.admit_timers st' = []).
Proof.
  intros ts tab.
  split; [reflexivity|]. split; [reflexivity|].
  destruct (self_promotion_timer "me" "u" ts eq_refl eq_refl) as (H1 & _ & _ & H4).
  split; [|exact H4].
  destruct (H1 eq_refl) as [(code & _ & Hroom & _)|(_ & id & E1 & _ & _ & _ & E4)].
  - discriminate Hroom.
  - exists id. split; [exact E1|].
    intros draws mic. destruct (E4 draws mic) as (A1 & A2 & _ & _ & _ & A6 & _).
    split; [exact A1|]. split; [exact A2|]. exact (eq_trans A6 eq_refl).
Defined.

(** X29.  What [leaveRoom] resets, from any state.  It drops all routing
    state (the track table, the active whisper target, the audio elements)
    and the microphone, empties [peers], [pendingKnocks] and
    [pendingPeerInfo], leaves the room if one is held and unbinds the send
    functions, and puts [admitted], [knockEnabled], [creatorId] and
    [isTalking] back to their initial values.  Of the timers it disarms
    the one whose handle [admitTimeout] holds and no other: every other
    timer, a rejection timer included, stays as it was.  It writes neither
    [whisperTarget], [view], [roomCode] nor [knockWaiting]; the latter is
    written by nothing in the room module and so has its initial value
    after a leave in every run. *)
Theorem leaveRoom_resets (selfId name : string) (st : Net.State) (ts : list Await.Turn) :
  let st' := Net.leaveRoom st in
  (Net.peerTrackState st' = ∅ ∧ Net.activeWhisperTarget st' = None
   ∧ Net.audioEls st' = ∅ ∧ Net.localStream st' = false ∧ Net.audioCtx st' = false)
  ∧ (Net.peers st' = [] ∧ Net.pendingKnocks st' = [] ∧ Net.pendingPeerInfo st' = [])
  ∧ (Net.room st' = None ∧ Net.actions st' = false
     ∧ Net.effects st'
       = Net.effects st ++ match Net.room st with Some _ => [Net.RoomLeave] | None => [] end)
  ∧ (Net.admitted st' = Net.admitted (Net.init name)
     ∧ Net.knockEnabled st' = Net.knockEnabled (Net.init name)
     ∧ Net.creatorId st' = Net.creatorId (Net.init name)
     ∧ Net.isTalking st' = Net.isTalking (Net.init name))
  ∧ (Net.admitTimeout st' = None
     ∧ Net.timers st'
       = match Net.admitTimeout st with
         | Some id => filter (fun e => fst e ≠ id) (Net.timers st)
         | None => Net.timers st
         end
     ∧ (∀ id, Net.admitTimeout st = Some id → Net.timer_of st' id = None)
     ∧ (∀ id, Net.admitTimeout st ≠ Some id → Net.timer_of st' id = Net.timer_of st id))
  ∧ (Net.whisperTarget st' = Net.whisperTarget st ∧ Net.view st' = Net.view st
     ∧ Net.roomCode st' = Net.roomCode st ∧ Net.knockWaiting st' = Net.knockWaiting st)
  ∧ Net.knockWaiting (Net.leaveRoom (Await.turns selfId ts (Net.init name, [])).1)
    = Net.knockWaiting (Net.init name).
Proof.
  cbv zeta.
  assert (Net.timers (Net.leaveRoom st) = Net.timers (Net.clearAdmitTimeout st)) as Ht.
  { pose proof (timing_leaveRoom st) as H. unfold Await.timing in H. congruence. }
  split; [|split; [|split; [|split; [|split; [|split]]]]].
  - rewrite leaveRoom_closed. by reads.
  - rewrite leaveRoom_closed. by reads.
  - rewrite leaveRoom_closed. reads. split; [done|]. split; [done|].
    by destruct (Net.room st); rewrite ?app_nil_r.
  - rewrite leaveRoom_closed. by reads.
  - split; [rewrite leaveRoom_closed; by reads|].
    split; [rewrite leaveRoom_closed; by reads|]. split.
    + intros id Hid. rewrite (timer_of_timers _ _ id Ht).
      unfold Net.clearAdmitTimeout. rewrite Hid.
      rewrite (timer_of_timers (Net.clearTimeout id st))
        by (unfold Net.clearTimeout; by reads).
      apply timer_of_clear_eq.
    + intros id Hid. rewrite (timer_of_timers _ _ id Ht).
      unfold Net.clearAdmitTimeout. destruct (Net.admitTimeout st) as [a|]; [|done].
      rewrite (timer_of_timers (Net.clearTimeout a st))
        by (unfold Net.clearTimeout; by reads).
      apply timer_of_clear_ne. congruence.
  - rewrite leaveRoom_closed. by reads.
  - by rewrite knockWaiting_leaveRoom, knockWaiting_turns.
Qed.
